(** * ts-for-gjs: the semantic translator of [gir-module.ts]

    A shallow embedding of the GIR-to-TypeScript translator
    ([src/gir-module.ts], class [GirModule]) and the properties of its
    symbol table, attribute decoding, parameter and return-type synthesis,
    inheritance walk, signature canonicalization and overload reconciliation.

    Conventions.
    - A JavaScript string is a [string]; its characters stand for code units
      below 256.
    - The attribute object [$] of a parsed XML element is a finite map from
      attribute names to strings; an element without attributes has [None].
    - [undefined] / [null] are [None].
    - The logger is a list of messages in emission order, threaded through
      the functions that warn. *)

From Stdlib Require Import ZArith Lia List Bool Ascii String.
From stdpp Require Import base option list strings gmap.

Import ListNotations.
Local Open Scope string_scope.

(** ** JavaScript primitives used by the translator *)

Module Js.

(** Code units that [parseInt] skips as leading white space
    (TAB, LF, VT, FF, CR, SP, NBSP). *)
Definition isWhiteSpace (c : ascii) : bool :=
  let n := nat_of_ascii c in
  (n =? 9)%nat || (n =? 10)%nat || (n =? 11)%nat || (n =? 12)%nat
  || (n =? 13)%nat || (n =? 32)%nat || (n =? 160)%nat.

Fixpoint trimStart (s : string) : string :=
  match s with
  | String c r => if isWhiteSpace c then trimStart r else s
  | EmptyString => EmptyString
  end.

(** Value of a code unit as a digit of the given radix (10 or 16). *)
Definition digitValue (radix : Z) (c : ascii) : option Z :=
  let n := Z.of_nat (nat_of_ascii c) in
  let v :=
    if (48 <=? n)%Z && (n <=? 57)%Z then Some (n - 48)%Z
    else if (97 <=? n)%Z && (n <=? 122)%Z then Some (n - 87)%Z
    else if (65 <=? n)%Z && (n <=? 90)%Z then Some (n - 55)%Z
    else None in
  match v with
  | Some d => if (d <? radix)%Z then Some d else None
  | None => None
  end.

(** Longest prefix of radix digits, accumulated most significant first;
    [None] when the prefix is empty. *)
Fixpoint parseDigits (radix : Z) (acc : option Z) (s : string) : option Z :=
  match s with
  | String c r =>
      match digitValue radix c with
      | Some d =>
          parseDigits radix (Some (match acc with
                                   | Some a => a * radix + d
                                   | None => d
                                   end)%Z) r
      | None => acc
      end
  | EmptyString => acc
  end.

(** [parseInt(s)] without a radix argument.  [None] is NaN.  The result is
    only ever compared with an integer or used as an array index, so the
    mathematical integer stands for the Number ([-0] is [0]). *)
Definition parseInt (s : string) : option Z :=
  let s1 := trimStart s in
  let '(sign, s2) :=
    match s1 with
    | String "-" r => ((-1)%Z, r)
    | String "+" r => (1%Z, r)
    | _ => (1%Z, s1)
    end in
  let '(radix, s3) :=
    match s2 with
    | String "0" (String "x" r) => (16%Z, r)
    | String "0" (String "X" r) => (16%Z, r)
    | _ => (10%Z, s2)
    end in
  match parseDigits radix None s3 with
  | Some n => Some (sign * n)%Z
  | None => None
  end.

(** Truthiness of a string value. *)
Definition truthy (s : string) : bool :=
  match s with EmptyString => false | _ => true end.

(** Truthiness of a possibly undefined string. *)
Definition truthyOpt (s : option string) : bool :=
  match s with Some s => truthy s | None => false end.

(** [s.indexOf('.') < 0] *)
Fixpoint hasDot (s : string) : bool :=
  match s with
  | String c r => if Ascii.eqb c "." then true else hasDot r
  | EmptyString => false
  end.

(** The own-property-or-prototype read [obj[name]] on a plain object used
    as a set is truthy for the keys of [Object.prototype] as well. *)
Definition objectPrototypeKeys : list string :=
  [ "constructor"; "toString"; "toLocaleString"; "valueOf";
    "hasOwnProperty"; "isPrototypeOf"; "propertyIsEnumerable";
    "__proto__"; "__defineGetter__"; "__defineSetter__";
    "__lookupGetter__"; "__lookupSetter__" ].

(** The double-quote character as a string. *)
Definition dq : string := String (ascii_of_nat 34) EmptyString.

(** Template-literal rendering of a possibly undefined string. *)
Definition show (s : option string) : string :=
  match s with Some s => s | None => "undefined" end.

End Js.

(** ** Attributes *)

Abbreviation Attrs := (gmap string string).

(** [girBool]: a present, non-empty attribute is false exactly when
    [parseInt] reads it as 0. *)
Definition girBool (e : option string) (defaultVal : bool) : bool :=
  match e with
  | Some s =>
      if Js.truthy s then
        match Js.parseInt s with
        | Some 0%Z => false
        | _ => true
        end
      else defaultVal
  | None => defaultVal
  end.


(** [paramIsNullable]: [a && (girBool(a.nullable) || girBool(a['allow-none'])
    || girBool(a.optional))]. *)
Definition paramIsNullable (a : Attrs) : bool :=
  girBool (a !! "nullable") false
  || girBool (a !! "allow-none") false
  || girBool (a !! "optional") false.

(** ** The parsed GIR tree

    Every element is an object with its attribute map [$] and its child
    lists, one per tag.  The two back-references that [loadTypes] writes
    into an element ([_module], [_fullSymName]) are fields of the node;
    of the owning module only its [name] is read back, so [_module] holds
    that name. *)

(** An inline [<callback>] child of a variable.  The resolver asks
    [getFunction(callback, '', '', undefined, true)[0][0]] for its arrow
    signature; the node carries that text ([None] when the callback yields
    no description). *)
Record GirCallbackRef := mkCallbackRef {
  cb_arrow : option string
}.

(** [<type>] and [<array>]: own attributes ([name], [c:type], [length])
    and, for a collection, the element [<type>] children with their
    attribute maps. *)
Record GirType := mkType {
  t_attrs : option Attrs;
  t_type : option (list (option Attrs))
}.

(** [x.$?.[key]]: an attribute of a possibly missing attribute map. *)
Definition attrOf (a : option Attrs) (key : string) : option string :=
  match a with Some a => a !! key | None => None end.

(** [ts[0].$] *)
Definition firstAttrs (ts : list GirType) : option Attrs :=
  match ts with t :: _ => t_attrs t | [] => None end.

(** [GirVariable]: parameters, return values, properties, fields,
    constants and aliases.  The source reads [param.$] unguarded, so the
    attribute map is always there (empty when the element has none). *)
Record GirVariable := mkVariable {
  v_attrs : Attrs;
  v_type : option (list GirType);
  v_array : option (list GirType);
  v_callback : option (list GirCallbackRef);
  v_module : option string;
  v_fullSymName : option string
}.

(** [<parameters>]: the ordinary parameters and the instance parameter. *)
Record GirParameter := mkParameter {
  p_parameter : option (list GirVariable);
  p_instance_parameter : option (list GirVariable)
}.

(** [GirFunction]: functions, methods, virtual methods, constructors,
    callbacks and signals. *)
Record GirFunction := mkFunction {
  f_attrs : option Attrs;
  f_parameters : option (list GirParameter);
  f_return_value : option (list GirVariable);
  f_fullSymName : option string
}.

(** [<member>] of an enumeration. *)
Record GirMember := mkMember {
  m_attrs : Attrs
}.

(** [GirConstruct]: any child of [<namespace>].  Classes, interfaces,
    records and unions use the member lists; enumerations [g_member];
    constants and aliases [g_type]/[g_array]; functions and callbacks
    [g_parameters]/[g_return_value].  A class's [$] is declared with
    [name: string]; the model reads an absent name as the empty string. *)
Record GirConstruct := mkConstruct {
  g_attrs : option Attrs;
  g_module : option string;
  g_fullSymName : option string;
  g_prerequisite : option (list Attrs);
  g_implements : option (list Attrs);
  g_property : option (list GirVariable);
  g_field : option (list GirVariable);
  g_method : option (list GirFunction);
  g_virtual_method : option (list GirFunction);
  g_signal : option (list GirFunction);
  g_function : option (list GirFunction);
  g_constructor : option (list GirFunction);
  g_member : option (list GirMember);
  g_type : option (list GirType);
  g_array : option (list GirType);
  g_callback : option (list GirCallbackRef);
  g_parameters : option (list GirParameter);
  g_return_value : option (list GirVariable)
}.

(** The casts [girConstruct as GirVariable] and [as GirFunction] read the
    same object through another interface. *)
Definition asVariable (g : GirConstruct) : option GirVariable :=
  match g_attrs g with
  | Some a => Some (mkVariable a (g_type g) (g_array g) (g_callback g)
                      (g_module g) (g_fullSymName g))
  | None => None
  end.

Definition asFunction (g : GirConstruct) : GirFunction :=
  mkFunction (g_attrs g) (g_parameters g) (g_return_value g) (g_fullSymName g).

Definition gname (g : GirConstruct) : option string :=
  match g_attrs g with Some a => a !! "name" | None => None end.

(** [<namespace>]: one optional list per construct kind. *)
Record GirNamespace := mkNamespace {
  ns_bitfield : option (list GirConstruct);
  ns_callback : option (list GirConstruct);
  ns_class : option (list GirConstruct);
  ns_constant : option (list GirConstruct);
  ns_enumeration : option (list GirConstruct);
  ns_function : option (list GirConstruct);
  ns_interface : option (list GirConstruct);
  ns_record : option (list GirConstruct);
  ns_union : option (list GirConstruct);
  ns_alias : option (list GirConstruct)
}.

(** [SymTable]: fully-qualified name to construct. *)
Abbreviation SymTable := (gmap string GirConstruct).

(** The diagnostics stream: one message per event, oldest first. *)
Abbreviation Log := (list string).

(** [array.push(x)] *)
Definition push {A} (l : list A) (x : A) : list A := (l ++ [x])%list.

(** [this.log.warn(msg)] *)
Definition warn (log : Log) (msg : string) : Log := (log ++ [msg])%list.

Inductive Environment := Gjs | Node.
Inductive BuildType := BuildTypes | BuildLib.

Record GenerateConfig := mkConfig {
  environment : Environment;
  buildType : BuildType;
  inheritance : bool
}.

(** ** Collaborators declared outside [gir-module.ts]

    [./transformation] exports the name transforms (methods of
    [Transformation]) and the four type tables; [./template-processor]
    renders the signal helpers.  They are interfaces of the translator and
    are taken as given. *)

Record Transformation := mkTransformation {
  transformClassName : string -> string;
  transformTypeName : string -> string;
  transformParameterName : string -> bool -> string;
  transformFunctionName : string -> string;
  transformPropertyName : string -> bool -> string;
  transformConstantName : string -> bool -> string;
  transformFieldName : string -> bool -> string;
  transformEnumName : string -> string;
  transformEnumValue : string -> string;
  transformSignalName : string -> string
}.

Record TypeMaps := mkTypeMaps {
  POD_TYPE_MAP : gmap string string;
  POD_TYPE_MAP_ARRAY : Environment -> gmap string string;
  C_TYPE_MAP : string -> string -> gmap string string;
  FULL_TYPE_MAP : Environment -> bool -> gmap string string
}.

Record TemplateProcessor := mkTemplates {
  generateSignalMethods :
    Environment -> string -> string -> string -> string -> string -> list string;
  generateGObjectSignalMethods :
    Environment -> string -> string -> string -> list string;
  generateGeneralSignalMethods : Environment -> list string
}.

(** A table read [map[key]] used as a condition: present and non-empty. *)
Definition tableGet (m : gmap string string) (k : string) : option string :=
  match m !! k with
  | Some v => if Js.truthy v then Some v else None
  | None => None
  end.

(** ** The module *)

Record GirModule := mkModule {
  name : string;
  version : string;
  ns : GirNamespace;
  symTable : SymTable;
  transitiveDependencies : list string;
  patch : gmap string (list string);
  constNames : gset string;
  config : GenerateConfig;
  transformation : Transformation
}.

Definition packageName (this : GirModule) : string :=
  name this ++ "-" ++ version this.

(** ** Symbol table population *)

Definition stamp (modName symName : string) (g : GirConstruct) : GirConstruct :=
  mkConstruct (g_attrs g) (Some modName) (Some symName)
    (g_prerequisite g) (g_implements g) (g_property g) (g_field g)
    (g_method g) (g_virtual_method g) (g_signal g) (g_function g)
    (g_constructor g) (g_member g) (g_type g) (g_array g) (g_callback g)
    (g_parameters g) (g_return_value g).

Definition symNameOf (modName : string) (a : Attrs) : string :=
  modName ++ "." ++ Js.show (a !! "name").

(** The test of [loadTypesInternal] that lets a construct through:
    [if ($.introspectable) { if (!girBool($.introspectable, true)) continue }]. *)
Definition passesIntrospectable (a : Attrs) : bool :=
  if Js.truthyOpt (a !! "introspectable")
  then girBool (a !! "introspectable") true
  else true.

(** One iteration of the loop of [loadTypesInternal]: the table, the log
    and the construct as the iteration leaves it. *)
Definition loadTypeStep (modName : string) (st : SymTable * Log)
    (g : GirConstruct) : SymTable * Log * GirConstruct :=
  let '(dict, log) := st in
  match g_attrs g with
  | Some a =>
      if passesIntrospectable a then
        let symName := symNameOf modName a in
        let log' :=
          match dict !! symName with
          | Some _ => warn log ("Duplicate symbol: " ++ symName)
          | None => log
          end in
        let g' := stamp modName symName g in
        (<[symName := g']> dict, log', g')
      else (dict, log, g)
  | None => (dict, log, g)
  end.

Fixpoint loadTypesLoop (modName : string) (st : SymTable * Log)
    (gs : list GirConstruct) : SymTable * Log * list GirConstruct :=
  match gs with
  | [] => (st, [])
  | g :: rest =>
      let '(st1, g') := loadTypeStep modName st g in
      let '(st2, rest') := loadTypesLoop modName st1 rest in
      (st2, g' :: rest')
  end.

Definition loadTypesInternal (modName : string) (st : SymTable * Log)
    (girConstructs : option (list GirConstruct))
  : SymTable * Log * option (list GirConstruct) :=
  match girConstructs with
  | Some gs =>
      let '(st', gs') := loadTypesLoop modName st gs in (st', Some gs')
  | None => (st, None)
  end.

(** *** Annotation of members *)

Definition annotateVar (modName : string) (owner : option string)
    (v : GirVariable) : GirVariable :=
  mkVariable (v_attrs v) (v_type v) (v_array v) (v_callback v) (Some modName)
    (match v_attrs v !! "name" with
     | Some n =>
         if Js.truthy n then Some (Js.show owner ++ "." ++ n) else v_fullSymName v
     | None => v_fullSymName v
     end).

(** [annotateFunctionArguments] and [annotateFunctionReturn] *)
Definition annotateFunctionParts (modName : string) (f : GirFunction) : GirFunction :=
  mkFunction (f_attrs f)
    (option_map
       (map (fun p =>
               mkParameter
                 (option_map (map (annotateVar modName (f_fullSymName f)))
                    (p_parameter p))
                 (p_instance_parameter p)))
       (f_parameters f))
    (option_map (map (annotateVar modName (f_fullSymName f))) (f_return_value f))
    (f_fullSymName f).

(** [annotateFunctions] *)
Definition annotateFunctions (modName nsName : string) (funcs : list GirFunction)
  : list GirFunction :=
  map (fun f =>
         match attrOf (f_attrs f) "name" with
         | Some n =>
             if Js.truthy n then
               annotateFunctionParts modName
                 (mkFunction (f_attrs f) (f_parameters f) (f_return_value f)
                    (Some (nsName ++ "." ++ n)))
             else f
         | None => f
         end) funcs.

(** [annotateVariables] *)
Definition annotateVariables (modName nsName : string) (vars : list GirVariable)
  : list GirVariable :=
  map (annotateVar modName (Some nsName)) vars.

(** The loop over classes, records and interfaces of [loadTypes]. *)
Definition annotateClass (modName : string) (g : GirConstruct) : GirConstruct :=
  let full := modName ++ "." ++ Js.show (gname g) in
  let fs := option_map (annotateFunctions modName full) in
  let vs := option_map (annotateVariables modName full) in
  mkConstruct (g_attrs g) (Some modName) (Some full)
    (g_prerequisite g) (g_implements g) (vs (g_property g)) (vs (g_field g))
    (fs (g_method g)) (fs (g_virtual_method g)) (fs (g_signal g))
    (fs (g_function g)) (fs (g_constructor g)) (g_member g) (g_type g)
    (g_array g) (g_callback g) (g_parameters g) (g_return_value g).

(** [annotateFunctionArguments] on the parameter blocks of a construct. *)
Definition annotateArgs (modName : string) (owner : option string)
    (ps : option (list GirParameter)) : option (list GirParameter) :=
  option_map
    (map (fun p =>
            mkParameter
              (option_map (map (annotateVar modName owner)) (p_parameter p))
              (p_instance_parameter p)))
    ps.

Definition withCallable (g : GirConstruct) (full : option string)
    (ps : option (list GirParameter)) (rv : option (list GirVariable))
  : GirConstruct :=
  mkConstruct (g_attrs g) (g_module g) full
    (g_prerequisite g) (g_implements g) (g_property g) (g_field g)
    (g_method g) (g_virtual_method g) (g_signal g) (g_function g)
    (g_constructor g) (g_member g) (g_type g) (g_array g) (g_callback g) ps rv.

(** A namespace-level callback: [annotateFunctionArguments(func)]. *)
Definition annotateTopCallback (modName : string) (g : GirConstruct) : GirConstruct :=
  withCallable g (g_fullSymName g)
    (annotateArgs modName (g_fullSymName g) (g_parameters g)) (g_return_value g).

(** A namespace-level function: [annotateFunctions(null, ns.function)]. *)
Definition annotateTopFunction (modName : string) (g : GirConstruct) : GirConstruct :=
  match gname g with
  | Some n =>
      if Js.truthy n then
        let full := Some (modName ++ "." ++ n) in
        withCallable g full (annotateArgs modName full (g_parameters g))
          (option_map (map (annotateVar modName full)) (g_return_value g))
      else g
  | None => g
  end.

(** A namespace-level constant: [annotateVariables(null, ns.constant)]. *)
Definition annotateTopConstant (modName : string) (g : GirConstruct) : GirConstruct :=
  mkConstruct (g_attrs g) (Some modName)
    (match gname g with
     | Some n => if Js.truthy n then Some (modName ++ "." ++ n) else g_fullSymName g
     | None => g_fullSymName g
     end)
    (g_prerequisite g) (g_implements g) (g_property g) (g_field g)
    (g_method g) (g_virtual_method g) (g_signal g) (g_function g)
    (g_constructor g) (g_member g) (g_type g) (g_array g) (g_callback g)
    (g_parameters g) (g_return_value g).

(** The table entries are the very objects of the namespace: what the
    annotation passes write after the insertion is seen through the table.
    Entering the finished objects again, in the same order, gives the table
    its final content. *)
Definition refreshEntries (modName : string) (dict : SymTable)
    (gs : option (list GirConstruct)) : SymTable :=
  fold_left
    (fun dict g =>
       match g_attrs g with
       | Some a =>
           if passesIntrospectable a then <[symNameOf modName a := g]> dict else dict
       | None => dict
       end)
    (default [] gs) dict.

(** [loadTypes]: the namespace with its annotations, the table and the log. *)
Definition loadTypes (modName : string) (n : GirNamespace) (st : SymTable * Log)
  : GirNamespace * SymTable * Log :=
  let '(st, bitfield) := loadTypesInternal modName st (ns_bitfield n) in
  let '(st, callback) := loadTypesInternal modName st (ns_callback n) in
  let '(st, class) := loadTypesInternal modName st (ns_class n) in
  let '(st, constant) := loadTypesInternal modName st (ns_constant n) in
  let '(st, enumeration) := loadTypesInternal modName st (ns_enumeration n) in
  let '(st, function) := loadTypesInternal modName st (ns_function n) in
  let '(st, interface) := loadTypesInternal modName st (ns_interface n) in
  let '(st, record) := loadTypesInternal modName st (ns_record n) in
  let '(st, union) := loadTypesInternal modName st (ns_union n) in
  let '(st, alias) := loadTypesInternal modName st (ns_alias n) in
  let '(dict, log) := st in
  let callback := option_map (map (annotateTopCallback modName)) callback in
  let class := option_map (map (annotateClass modName)) class in
  let record := option_map (map (annotateClass modName)) record in
  let interface := option_map (map (annotateClass modName)) interface in
  let function := option_map (map (annotateTopFunction modName)) function in
  let constant := option_map (map (annotateTopConstant modName)) constant in
  let dict :=
    fold_left (refreshEntries modName) 
      [bitfield; callback; class; constant; enumeration; function; interface;
       record; union; alias] dict in
  (mkNamespace bitfield callback class constant enumeration function interface
     record union alias, dict, log).

(** [SymbolTable.lookup] *)
Definition lookup_symbol (dict : SymTable) (qname : string) : option GirConstruct :=
  dict !! qname.

(** ** String helpers *)

(** [s.split(sep)] for a one-character separator: always at least one
    piece. *)
Fixpoint splitOn (sep : ascii) (s : string) : list string :=
  match s with
  | EmptyString => [EmptyString]
  | String c r =>
      if Ascii.eqb c sep then EmptyString :: splitOn sep r
      else match splitOn sep r with
           | p :: ps => String c p :: ps
           | [] => [String c EmptyString]
           end
  end.

(** [pieces.join(sep)] *)
Definition joinWith (sep : string) (pieces : list string) : string :=
  String.concat sep pieces.

(** [s.substring(n)] *)
Fixpoint dropChars (n : nat) (s : string) : string :=
  match n, s with
  | O, _ => s
  | S n', String _ r => dropChars n' r
  | S _, EmptyString => EmptyString
  end.

(** [s.indexOf(p) === 0] *)
Definition startsWith (p s : string) : bool := String.prefix p s.

(** A line terminator, which [.] of a regular expression does not match. *)
Definition isLineTerminator (c : ascii) : bool :=
  let n := nat_of_ascii c in (n =? 10)%nat || (n =? 13)%nat.

(** [/^GLib.S?List$/.test(name)] *)
Definition isGLibList (n : option string) : bool :=
  match Js.show n with
  | String "G" (String "L" (String "i" (String "b" (String c rest)))) =>
      negb (isLineTerminator c)
      && (String.eqb rest "List" || String.eqb rest "SList")
  | _ => false
  end.

(** ** Type resolution *)

Section TypeResolver.

Variable maps : TypeMaps.
Variable this : GirModule.

(** The qualified name to search in the symbol table: [inl t] when the
    direction-sensitive table already answers, else the name, qualified
    with the owning module when it has no dot ([None] when the type has
    no [name]). *)
Definition qualify (girVar : GirVariable) (out : bool) (tname : option string)
  : string + option string :=
  match tname with
  | Some n =>
      match tableGet (FULL_TYPE_MAP maps (environment (config this)) out) n with
      | Some t => inl t
      | None =>
          if negb (Js.hasDot n)
          then inr (Some (default (name this) (v_module girVar) ++ "." ++ n))
          else inr (Some n)
      end
  | None => inr None
  end.

(** The named-type part of [typeLookup], once the shape is read: [ta] is
    [type.$], [arr] the array suffix, [nul] the nullable suffix. *)
Definition resolveNamed (girVar : GirVariable) (out : bool) (ta : Attrs)
    (arr nul : string) (arrCType : option string) : string * Log :=
  let suffix := arr ++ nul in
  let tname : option string := ta !! "name" in
  match (if Js.truthy arr
         then tableGet (POD_TYPE_MAP_ARRAY maps (environment (config this)))
                (Js.show tname)
         else None) with
  | Some t => (t ++ nul, @nil string)
  | None =>
  match tableGet (POD_TYPE_MAP maps) (Js.show tname) with
  | Some t => (t ++ suffix, @nil string)
  | None =>
  if negb (Js.truthy (name this)) then ("any", @nil string) else
  let cType : option string :=
    if Js.truthyOpt (ta !! "c:type") then ta !! "c:type"
    else if Js.truthyOpt arrCType then arrCType
    else ta !! "c:type" in
  match (if Js.truthyOpt cType
         then tableGet (C_TYPE_MAP maps (packageName this) suffix) (Js.show cType)
         else None) with
  | Some t => (t, @nil string)
  | None =>
  match qualify girVar out tname with
  | inl t => (t, @nil string)
  | inr fullTypeName =>
      if negb (Js.truthyOpt fullTypeName)
         || negb (bool_decide (is_Some (symTable this !! Js.show fullTypeName)))
      then
        ("any" ++ arr,
         ["Could not find type '" ++ Js.show fullTypeName
          ++ "' for '" ++ Js.show (v_attrs girVar !! "name") ++ "'"])
      else
        let f := Js.show fullTypeName in
        if startsWith (name this ++ ".") f
        then (dropChars (String.length (name this) + 1) f ++ suffix, @nil string)
        else (f ++ suffix, @nil string)
  end end end end.

(** The part of [typeLookup] after the shape has been read: [type] is
    the element type node ([None] for [null], [Some None] for a node
    without [$]). *)
Definition resolveType (girVar : GirVariable) (out : bool)
    (type : option (option Attrs)) (arr : string) (arrCType : option string)
  : string * Log :=
  let nul := if paramIsNullable (v_attrs girVar) then " | null" else "" in
  let suffix := arr ++ nul in
  match v_callback girVar with
  | Some (cb :: _) =>
      let fullTypeName := Js.show (cb_arrow cb) in
      let fullTypeName :=
        if Js.truthy suffix then "(" ++ fullTypeName ++ ")" else fullTypeName in
      (fullTypeName ++ suffix, @nil string)
  | _ =>
      match type with
      | Some (Some ta) => resolveNamed girVar out ta arr nul arrCType
      | _ => ("any", @nil string)
      end
  end.

(** [typeLookup]: the resolved type expression and the warnings it
    logged.  Reading [x[0]] of an empty child array or [.$] of an element
    without attributes yields [undefined] here; the parser creates neither. *)
Definition typeLookup (girVar : GirVariable) (out : bool) : string * Log :=
  let collection : option (list GirType) :=
    match v_array girVar with
    | Some a => Some a
    | None =>
        match v_type girVar with
        | Some ts =>
            if isGLibList (attrOf (firstAttrs ts) "name")
            then Some ts else None
        | None => None
        end
    end in
  match collection with
  | Some (c0 :: _) =>
      match t_type c0 with
      | Some (ty :: _) =>
          resolveType girVar out (Some ty) "[]"
            (attrOf (t_attrs c0) "c:type")
      | _ => ("any", @nil string)
      end
  | _ =>
      match v_type girVar with
      | Some ts => resolveType girVar out (option_map t_attrs (head ts)) "" None
      | None =>
          match v_callback girVar with
          | Some (_ :: _) => resolveType girVar out None "" None
          | _ => ("any", @nil string)
          end
      end
  end.

(** [typeLookupTransformed]: every dot-separated component through
    [transformTypeName]. *)
Definition typeLookupTransformed (girVar : GirVariable) (out : bool)
  : string * Log :=
  let '(t, w) := typeLookup girVar out in
  (joinWith "." (map (transformTypeName (transformation this)) (splitOn "." t)), w).

End TypeResolver.

(** ** Callable signatures *)

(** [FunctionDescription]: the declaration lines and the emitted name
    ([None] is [null]). *)
Abbreviation FunctionDescription := (list string * option string)%type.

(** [arrayLengthIndexLookup] *)
Definition arrayLengthIndexLookup (param : GirVariable) : option Z :=
  match v_array param with
  | None => Some (-1)%Z
  | Some arr =>
      match firstAttrs arr with
      | None => Some (-1)%Z
      | Some a =>
          match a !! "length" with
          | Some l => if Js.truthy l then Js.parseInt l else Some (-1)%Z
          | None => Some (-1)%Z
          end
      end
  end.

(** [closureDataIndexLookup] *)
Definition closureDataIndexLookup (param : GirVariable) : option Z :=
  match v_attrs param !! "closure" with
  | Some c => if Js.truthy c then Js.parseInt c else Some (-1)%Z
  | None => Some (-1)%Z
  end.

(** [destroyDataIndexLookup] *)
Definition destroyDataIndexLookup (param : GirVariable) : option Z :=
  match v_attrs param !! "destroy" with
  | Some c => if Js.truthy c then Js.parseInt c else Some (-1)%Z
  | None => Some (-1)%Z
  end.

(** [processParams]: [skip] holds positions of [parametersArray]; the
    elements of the array are distinct objects, so a position stands for
    the object.  A NaN index pushes [undefined], which no parameter equals. *)
Definition processParams (parametersArray : list GirVariable) (skip : list nat)
    (getIndex : GirVariable -> option Z) : list nat :=
  fold_left
    (fun skip param =>
       match getIndex param with
       | Some index =>
           if (index <? 0)%Z then skip
           else if (index >=? Z.of_nat (length parametersArray))%Z then skip
           else (skip ++ [Z.to_nat index])%list
       | None => skip
       end)
    parametersArray skip.

(** [skip.indexOf(param) !== -1] *)
Definition skipped (skip : list nat) (i : nat) : bool :=
  bool_decide (i ∈ skip).

(** [` /* name */ type `] of an out parameter *)
Definition outParamDesc (paramName paramType : string) : string :=
  "/* " ++ paramName ++ " */ " ++ paramType.

Section Callables.

Variable maps : TypeMaps.
(** [Number(s)] as it is used for an array index: [Some i] when the
    value is the integer [i], [None] when it is NaN or not an integer. *)
Variable toNumber : string -> option Z.
Variable this : GirModule.

(** [getReturnType] *)
Definition getReturnType (func : GirFunction) : string * option Z * Log :=
  match f_return_value func with
  | Some (returnVal :: _) =>
      let '(returnType, w) := typeLookupTransformed maps this returnVal true in
      let outArrayLengthIndex :=
        match v_array returnVal with
        | Some arr =>
            match attrOf (firstAttrs arr) "length" with
            | Some l => if Js.truthy l then toNumber l else Some (-1)%Z
            | None => Some (-1)%Z
            end
        | None => Some (-1)%Z
        end in
      (returnType, outArrayLengthIndex, w)
  | _ => ("void", Some (-1)%Z, @nil string)
  end.

(** The optional marker of the parameter at position [index]. *)
Definition optionalMarker (parametersArray : list GirVariable)
    (skip : list nat) (index : nat) (param : GirVariable) : string :=
  if paramIsNullable (v_attrs param) then
    let following :=
      filter (fun p : GirVariable =>
                v_attrs p !! "direction" ≠ Some "out")
        (filter (fun _ : GirVariable => skipped skip index = false)
           (drop index parametersArray)) in
    if existsb (fun p => negb (paramIsNullable (v_attrs p))) following
    then "" else "?"
  else "".

(** The body of the parameter loop of [getParameters], from position
    [index] on: the pushed descriptions, the pushed out parameters and
    the warnings. *)
Fixpoint parameterLoop (parametersArray : list GirVariable) (skip : list nat)
    (index : nat) (rest : list GirVariable)
  : list string * list string * Log :=
  match rest with
  | [] => ([], [], [])
  | param :: rest' =>
      let '(def, outParams, w) :=
        parameterLoop parametersArray skip (S index) rest' in
      if skipped skip index then (def, outParams, w)
      else
        let pname := default "" (v_attrs param !! "name") in
        let paramName :=
          transformParameterName (transformation this)
            (if Js.truthy pname then pname else "-") false in
        let optDirection := v_attrs param !! "direction" in
        let out := bool_decide (optDirection = Some "out")
                   || bool_decide (optDirection = Some "inout") in
        let '(paramType, w0) := typeLookupTransformed maps this param out in
        let outs :=
          if out then outParamDesc paramName paramType :: outParams
          else outParams in
        if bool_decide (optDirection = Some "out")
        then (def, outs, (w0 ++ w)%list)
        else
          let isOptional := optionalMarker parametersArray skip index param in
          ((paramName ++ isOptional ++ ": " ++ paramType) :: def, outs,
           (w0 ++ w)%list)
  end.

(** The description pushed for the instance parameter, if any. *)
Definition instanceParameterDesc (p0 : GirParameter) : list string :=
  match p_instance_parameter p0 with
  | Some (ip :: _) =>
      let typeName :=
        match v_type ip with
        | Some ts => attrOf (firstAttrs ts) "name"
        | None => None
        end in
      let rec :=
        if Js.truthyOpt typeName then
          match ns_record (ns this) with
          | Some rs => find (fun r => bool_decide (gname r = typeName)) rs
          | None => None
          end
        else None in
      let structFor :=
        match rec with
        | Some r => attrOf (g_attrs r) "glib:is-gtype-struct-for"
        | None => None
        end in
      let gobject :=
        if String.eqb (name this) "GObject" || String.eqb (name this) "GLib"
        then "" else "GObject." in
      match structFor with
      | Some sf =>
          if Js.truthy sf then
            [Js.show (v_attrs ip !! "name") ++ ": " ++ sf
             ++ " | Function | " ++ gobject ++ "Type"]
          else []
      | None => []
      end
  | _ => []
  end.

(** The [skip] list that [getParameters] builds before its loop. *)
Definition skipList (outArrayLengthIndex : option Z)
    (parametersArray : list GirVariable) : list nat :=
  let skip0 :=
    match outArrayLengthIndex with
    | Some i =>
        if (i =? -1)%Z then []
        else if (0 <=? i)%Z && (i <? Z.of_nat (length parametersArray))%Z
             then [Z.to_nat i] else []
    | None => []
    end in
  let skip1 := processParams parametersArray skip0 arrayLengthIndexLookup in
  let skip2 := processParams parametersArray skip1 closureDataIndexLookup in
  processParams parametersArray skip2 destroyDataIndexLookup.

(** [getParameters] *)
Definition getParameters (outArrayLengthIndex : option Z)
    (parameters : option (list GirParameter)) : string * list string * Log :=
  match parameters with
  | Some (p0 :: _) =>
      let parametersArray := default [] (p_parameter p0) in
      let def0 := instanceParameterDesc p0 in
      let '(def, outParams, w) :=
        parameterLoop parametersArray
          (skipList outArrayLengthIndex parametersArray) 0 parametersArray in
      (joinWith ", " (def0 ++ def)%list, outParams, w)
  | _ => (joinWith ", " [], [], [])
  end.

(** The return type [getFunction] emits when no override is given. *)
Definition packReturnType (retType : string) (outParams : list string) : string :=
  let retTypeIsVoid := String.eqb retType "void" in
  if (1 <? length outParams + (if retTypeIsVoid then 0 else 1))%nat then
    let outParams' :=
      if retTypeIsVoid then outParams
      else ("/* returnType */ " ++ retType) :: outParams in
    "[ " ++ joinWith ", " outParams' ++ " ]"
  else
    match outParams with
    | [o] => if retTypeIsVoid then o else retType
    | _ => retType
    end.

(** [e._fullSymName ? this.patch[e._fullSymName] : []] *)
Definition patchFor (e : GirFunction) : option (list string) :=
  match f_fullSymName e with
  | Some n => if Js.truthy n then patch this !! n else Some []
  | None => Some []
  end.

(** [getFunction] *)
Definition getFunction (e : GirFunction) (prefix funcNamePrefix : string)
    (overrideReturnType : option string) (arrowType colon : bool)
  : FunctionDescription * Log :=
  match f_attrs e with
  | None => (([], None), [])
  | Some a =>
      if negb (girBool (a !! "introspectable") true)
         || Js.truthyOpt (a !! "shadowed-by")
      then (([], None), [])
      else
        let patch := patchFor e in
        let '(retType, outArrayLengthIndex, w1) := getReturnType e in
        let '(params, outParams, w2) :=
          getParameters outArrayLengthIndex (f_parameters e) in
        let w := (w1 ++ w2)%list in
        let name0 : option string :=
          if Js.truthyOpt (a !! "shadows") then a !! "shadows" else a !! "name" in
        let name1 : option string :=
          if Js.truthy funcNamePrefix
          then Some (funcNamePrefix ++ Js.show name0) else name0 in
        match patch with
        | Some [p1] => (([p1], None), w)
        | _ =>
        let name2 := transformFunctionName (transformation this) (Js.show name1) in
        match patch with
        | Some [_; p2] => (([prefix ++ funcNamePrefix ++ p2], Some name2), w)
        | _ =>
        let retType' :=
          match overrideReturnType with
          | Some o => if Js.truthy o then o else packReturnType retType outParams
          | None => packReturnType retType outParams
          end in
        let retSep := if arrowType then " =>" else ":" in
        let prefix' := if arrowType && negb colon then "" else prefix in
        let name3 := if arrowType && negb colon then "" else name2 in
        let name4 := if colon then name3 ++ ": " else name3 in
        (([prefix' ++ name4 ++ "(" ++ params ++ ")" ++ retSep ++ " " ++ retType'],
          Some name4), w)
        end end
  end.

End Callables.

(** ** Inheritance walkers *)

Definition MAXIMUM_RECUSION_DEPTH : nat := 100.

Record ClassDetails := mkClassDetails {
  cd_name : string;
  cd_qualifiedName : string;
  cd_parentName : option string;
  cd_qualifiedParentName : option string;
  cd_localParentName : option string
}.

Section Inheritance.

Variable this : GirModule.

(** [getClassDetails] *)
Definition getClassDetails (girClass : GirConstruct) : option ClassDetails :=
  match g_attrs girClass with
  | None => None
  | Some a =>
      let modName := default (name this) (g_module girClass) in
      let name0 :=
        transformClassName (transformation this) (default "" (a !! "name")) in
      let '(name1, qualifiedName) :=
        if negb (Js.hasDot name0) then (name0, modName ++ "." ++ name0)
        else (List.last (splitOn "." name0) "", name0) in
      let parentName0 : option string :=
        match g_prerequisite girClass with
        | Some pre => match pre with p :: _ => p !! "name" | [] => None end
        | None =>
            if Js.truthyOpt (a !! "parent") then a !! "parent" else None
        end in
      Some
        match parentName0 with
        | Some pn =>
            if Js.truthy pn then
              if negb (Js.hasDot pn) then
                mkClassDetails name1 qualifiedName (Some pn)
                  (Some (modName ++ "." ++ pn)) (Some pn)
              else
                let split := splitOn "." pn in
                let parentName := List.last split "" in
                let parentModName := joinWith "." (removelast split) in
                mkClassDetails name1 qualifiedName (Some parentName) (Some pn)
                  (Some (if String.eqb parentModName modName
                         then parentName else pn))
            else mkClassDetails name1 qualifiedName (Some pn) None None
        | None => mkClassDetails name1 qualifiedName None None None
        end
  end.

(** The parent a class is resolved to by [traverseInheritanceTree]:
    the symbol-table entry of the qualified parent name, with the
    fallback to [GObject.Object] for a parent called [Object]. *)
Definition resolveParent (details : ClassDetails) : option GirConstruct :=
  match cd_parentName details, cd_qualifiedParentName details with
  | Some parentName, Some qualifiedParentName =>
      if Js.truthy parentName && Js.truthy qualifiedParentName then
        match symTable this !! qualifiedParentName with
        | Some p => Some p
        | None =>
            if String.eqb parentName "Object"
            then symTable this !! "GObject.Object" else None
        end
      else None
  | _, _ => None
  end.

(** The check for a circular dependency: the qualified [parent] of the
    resolved parent, when it is the full name of the class at hand. *)
Definition circularParent (girClass : GirConstruct)
    (parentPtr : option GirConstruct) : option string :=
  match parentPtr with
  | Some p =>
      match attrOf (g_attrs p) "parent" with
      | Some parentName =>
          let parentName :=
            if negb (Js.hasDot parentName) && Js.truthyOpt (g_module p)
            then Js.show (g_module p) ++ "." ++ parentName
            else parentName in
          if bool_decide (g_fullSymName girClass = Some parentName)
          then Some parentName else None
      | None => None
      end
  | None => None
  end.

Section Walk.

(** The state the visit callback works on, and how a warning of the
    walk itself is written into it. *)
Variable St : Type.
Variable callback : GirConstruct -> St -> St.
Variable logWarn : string -> St -> St.

(** [traverseInheritanceTree], with [fuel] bounding the number of
    nested calls; [None] when the fuel runs out before the walk ends. *)
Fixpoint traverseInheritanceTreeFuel (fuel : nat) (girClass : GirConstruct)
    (depth : nat) (recursive : bool) (st : St) : option St :=
  match fuel with
  | O => None
  | S fuel' =>
      match getClassDetails girClass with
      | None => Some st
      | Some details =>
          let parentPtr := resolveParent details in
          let '(recursive, st) :=
            match circularParent girClass parentPtr with
            | Some parentName =>
                (false,
                 logWarn ("Circular dependency found! Ignore next parent "
                          ++ Js.dq ++ parentName ++ Js.dq ++ ".") st)
            | None => (recursive, st)
            end in
          let st := callback girClass st in
          if (MAXIMUM_RECUSION_DEPTH <=? depth)%nat then
            Some (logWarn
                    ("Maximum recursion depth of 100 reached for " ++ Js.dq
                     ++ default "" (attrOf (g_attrs girClass) "name") ++ Js.dq)
                    st)
          else
            match parentPtr with
            | Some p =>
                if recursive && (depth <=? MAXIMUM_RECUSION_DEPTH)%nat
                then traverseInheritanceTreeFuel fuel' p (S depth) recursive st
                else Some st
            | None => Some st
            end
      end
  end.

(** [traverseInheritanceTree(girClass, callback, depth, recursive)]:
    [MAXIMUM_RECUSION_DEPTH + 1 - depth] nested calls always suffice. *)
Definition traverseInheritanceTree (girClass : GirConstruct) (depth : nat)
    (recursive : bool) (st : St) : option St :=
  traverseInheritanceTreeFuel (S (S MAXIMUM_RECUSION_DEPTH) - depth)
    girClass depth recursive st.

(** [forEachInterface].  [dups] is one object shared by all nested
    calls, so it is threaded through and returned.  A prerequisite is
    never entered into [dups]; on a prerequisite cycle the source
    recurses without end, which is [None] for every [fuel]. *)
Fixpoint forEachInterfaceFuel (fuel : nat) (girClass : GirConstruct)
    (recurseObjects : bool) (st : St * gset string)
  : option (St * gset string) :=
  match fuel with
  | O => None
  | S fuel' =>
      let qualify (n : string) :=
        if negb (Js.hasDot n) then name this ++ "." ++ n else n in
      let implementsLoop :=
        fix loop (impls : list Attrs) (st : St * gset string)
          : option (St * gset string) :=
          match impls with
          | [] => Some st
          | a :: rest =>
              let '(s, dups) := st in
              let n := qualify (default "" (a !! "name")) in
              if bool_decide (n ∈ dups) then loop rest st
              else
                let dups := {[ n ]} ∪ dups in
                match symTable this !! n with
                | Some iface =>
                    match forEachInterfaceFuel fuel' iface recurseObjects
                            (callback iface s, dups) with
                    | Some st' => loop rest st'
                    | None => None
                    end
                | None => loop rest (s, dups)
                end
          end in
      match implementsLoop (default [] (g_implements girClass)) st with
      | None => None
      | Some (s, dups) =>
          match g_prerequisite girClass with
          | Some pre =>
              let parentName :=
                match pre with p :: _ => p !! "name" | [] => None end in
              match parentName with
              | Some pn =>
                  if negb (Js.truthy pn) then Some (s, dups)
                  else
                    let pn := qualify pn in
                    if bool_decide (pn ∈ dups) then Some (s, dups)
                    else
                      match symTable this !! pn with
                      | Some parentPtr =>
                          if bool_decide (is_Some (g_prerequisite parentPtr))
                             || recurseObjects
                          then forEachInterfaceFuel fuel' parentPtr recurseObjects
                                 (callback parentPtr s, dups)
                          else Some (s, dups)
                      | None => Some (s, dups)
                      end
              | None => Some (s, dups)
              end
          | None => Some (s, dups)
          end
      end
  end.

(** [forEachInterfaceAndSelf]: a fresh [dups] per call. *)
Definition forEachInterfaceAndSelfFuel (fuel : nat) (e : GirConstruct)
    (s : St) : option St :=
  match forEachInterfaceFuel fuel e false (callback e s, ∅) with
  | Some (s', _) => Some s'
  | None => None
  end.

End Walk.

(** [isDerivedFromGObject]: the answer and the warnings of the walk. *)
Definition isDerivedFromGObject (girClass : GirConstruct) : option (bool * Log) :=
  traverseInheritanceTree (bool * Log)
    (fun cls '(ret, log) =>
       (if bool_decide (g_fullSymName cls = Some "GObject.Object")
        then true else ret, log))
    (fun msg '(ret, log) => (ret, warn log msg))
    girClass 0 true (false, []).

(** [isGInterface] *)
Definition isGInterface (girClass : GirConstruct) : bool :=
  bool_decide (is_Some (g_prerequisite girClass)).

End Inheritance.

(** ** Failure and diagnostics

    A computation of the translator either returns or throws, and writes
    diagnostics on the way.  [OutOfFuel] marks a run of the model that was
    cut because a walk did not end within the nested calls it was given. *)

Inductive Result (A : Type) : Type :=
| Ok (a : A)
| Throws (error : string)
| OutOfFuel.
Arguments Ok {A} a.
Arguments Throws {A} error.
Arguments OutOfFuel {A}.

Definition Exc (A : Type) : Type := (Result A * Log)%type.

Definition ret {A} (a : A) : Exc A := (Ok a, []).
Definition throw {A} (e : string) : Exc A := (Throws e, []).
Definition tell (msg : string) : Exc unit := (Ok tt, [msg]).

Definition bind {A B} (m : Exc A) (f : A -> Exc B) : Exc B :=
  match m with
  | (Ok a, w) => let '(r, w') := f a in (r, (w ++ w')%list)
  | (Throws e, w) => (Throws e, w)
  | (OutOfFuel, w) => (OutOfFuel, w)
  end.

(** A walk that ended, or not. *)
Definition ofWalk {A} (r : option (A * Log)) : Exc A :=
  match r with
  | Some (a, w) => (Ok a, w)
  | None => (OutOfFuel, [])
  end.

Notation "'let*' x ':=' m 'in' k" := (bind m (fun x => k))
  (at level 10, x name, m at level 100, k at level 200).
Notation "'let*' ' p ':=' m 'in' k" := (bind m (fun x => let 'p := x in k))
  (at level 10, p strict pattern, m at level 100, k at level 200).

(** ** Signature canonicalization *)

Module Regex.

(** [[0-9a-zA-Z_]] *)
Definition isWord (c : ascii) : bool :=
  let n := nat_of_ascii c in
  ((48 <=? n) && (n <=? 57) || (97 <=? n) && (n <=? 122)
   || (65 <=? n) && (n <=? 90) || (n =? 95))%nat.

(** For the text after an opening [/*]: the number of characters that
    [.*\*\/] consumes, greedy, without crossing a line terminator. *)
Fixpoint closeLength (s : string) : option nat :=
  match s with
  | EmptyString => None
  | String c r =>
      if isLineTerminator c then None
      else
        match closeLength r with
        | Some n => Some (S n)
        | None =>
            match r with
            | String "/" _ => if Ascii.eqb c "*" then Some 2 else None
            | _ => None
            end
        end
  end.

(** [f.replace(/\/\*.*\*\//g, '')]; [skip] characters of an ongoing
    match are still to be dropped. *)
Fixpoint removeCommentsFrom (skip : nat) (s : string) : string :=
  match s with
  | EmptyString => EmptyString
  | String c r =>
      match skip with
      | S k => removeCommentsFrom k r
      | O =>
          match r with
          | String "*" r' =>
              if Ascii.eqb c "/" then
                match closeLength r' with
                | Some n => removeCommentsFrom (S n) r
                | None => String c (removeCommentsFrom 0 r)
                end
              else String c (removeCommentsFrom 0 r)
          | _ => String c (removeCommentsFrom 0 r)
          end
      end
  end.

Definition removeComments (s : string) : string := removeCommentsFrom 0 s.

(** [params.replace(/[0-9a-zA-Z_]*:/g, ':')]; [pending] is the run of
    word characters read so far, which a following colon swallows. *)
Fixpoint replaceParamFrom (pending : string) (s : string) : string :=
  match s with
  | EmptyString => pending
  | String c r =>
      if isWord c then replaceParamFrom (pending ++ String c EmptyString) r
      else if Ascii.eqb c ":" then String ":" (replaceParamFrom EmptyString r)
      else pending ++ String c (replaceParamFrom EmptyString r)
  end.

Definition replaceParam (s : string) : string := replaceParamFrom EmptyString s.

(** [params.replace(/[0-9a-zA-Z_]*\?:/g, '?:')] *)
Fixpoint replaceOptParamFrom (pending : string) (s : string) : string :=
  match s with
  | EmptyString => pending
  | String c r =>
      if isWord c then replaceOptParamFrom (pending ++ String c EmptyString) r
      else
        match r with
        | String ":" r' =>
            if Ascii.eqb c "?"
            then String "?" (String ":" (replaceOptParamFrom EmptyString r'))
            else pending ++ String c (replaceOptParamFrom EmptyString r)
        | _ => pending ++ String c (replaceOptParamFrom EmptyString r)
        end
  end.

Definition replaceOptParam (s : string) : string :=
  replaceOptParamFrom EmptyString s.

End Regex.

(** [stripParamNames].  [f.split('(', 2)] keeps the first two pieces; with
    no parenthesis there is one piece, the function reports the bad
    definition and then reads [lb[1].split], which throws. *)
Definition stripParamNames (f : string) (ignoreTail : bool) : Exc string :=
  let g := f in
  let f := Regex.removeComments f in
  let lb := take 2 (splitOn "(" f) in
  let* _ := (if (length lb <? 2)%nat
             then tell ("Bad function definition " ++ g) else ret tt) in
  match lb with
  | lb0 :: lb1 :: _ =>
      let rb := splitOn ")" lb1 in
      let tail := if ignoreTail then "" else List.last rb "" in
      let params := joinWith ")" (removelast rb) in
      let params := Regex.replaceParam params in
      let params := Regex.replaceOptParam params in
      ret (lb0 ++ "(" ++ params ++ ")" ++ tail)
  | _ => throw "TypeError: Cannot read properties of undefined (reading 'split')"
  end.

(** [functionSignaturesMatch] on two arrays of declaration lines. *)
Fixpoint signaturesMatchLoop (f1 f2 : list string) : Exc bool :=
  match f1, f2 with
  | a :: f1', b :: f2' =>
      let* sa := stripParamNames a false in
      let* sb := stripParamNames b false in
      if String.eqb sa sb then signaturesMatchLoop f1' f2' else ret false
  | _, _ => ret true
  end.

Definition functionSignaturesMatch (f1 f2 : list string) : Exc bool :=
  if negb (length f1 =? length f2)%nat then ret false
  else signaturesMatchLoop f1 f2.

(** ** Member synthesis *)

(** Object identity [e != girClass] is decided on the content of the
    nodes: two elements with the same children, attributes and annotations
    are not told apart. *)
#[global] Instance GirCallbackRef_eq_dec : EqDecision GirCallbackRef.
Proof. solve_decision. Defined.
#[global] Instance GirType_eq_dec : EqDecision GirType.
Proof. solve_decision. Defined.
#[global] Instance GirVariable_eq_dec : EqDecision GirVariable.
Proof. solve_decision. Defined.
#[global] Instance GirParameter_eq_dec : EqDecision GirParameter.
Proof. solve_decision. Defined.
#[global] Instance GirFunction_eq_dec : EqDecision GirFunction.
Proof. solve_decision. Defined.
#[global] Instance GirMember_eq_dec : EqDecision GirMember.
Proof. solve_decision. Defined.
#[global] Instance GirConstruct_eq_dec : EqDecision GirConstruct.
Proof. solve_decision. Defined.

(** [LocalNames]: a plain object used as a set of claimed identifiers. *)
Abbreviation LocalNames := (gset string).

(** [localNames[name]] as a condition: own keys and inherited ones. *)
Definition localHas (localNames : LocalNames) (n : string) : bool :=
  bool_decide (n ∈ localNames) || bool_decide (n ∈ Js.objectPrototypeKeys).

(** [localNames[name] = true] *)
Definition localSet (localNames : LocalNames) (n : string) : LocalNames :=
  if String.eqb n "__proto__" then localNames else {[ n ]} ∪ localNames.

(** [checkName] *)
Definition checkName (desc : list string) (name : option string)
    (localNames : LocalNames) : list string * bool * LocalNames :=
  match desc with
  | [] => ([], false, localNames)
  | _ =>
      match name with
      | Some n =>
          if negb (Js.truthy n) then ([], false, localNames)
          else if localHas localNames n then ([], false, localNames)
          else (desc, true, localSet localNames n)
      | None => ([], false, localNames)
      end
  end.

Inductive VariableKind := KProperty | KConstant | KField.

(** [ScopedFunctionDescription]: lines, emitted name, owning class. *)
Abbreviation ScopedFunctionDescription :=
  (list string * option string * option string)%type.

(** Insertion-ordered [Map]: [set] on a present key keeps its place. *)
Fixpoint mapSet {V} (k : string) (v : V) (m : list (string * V)) : list (string * V) :=
  match m with
  | [] => [(k, v)]
  | (k', v') :: rest =>
      if String.eqb k' k then (k, v) :: rest else (k', v') :: mapSet k v rest
  end.

Fixpoint mapGet {V} (k : string) (m : list (string * V)) : option V :=
  match m with
  | [] => None
  | (k', v') :: rest => if String.eqb k' k then Some v' else mapGet k rest
  end.

Fixpoint mapDelete {V} (k : string) (m : list (string * V)) : list (string * V) :=
  match m with
  | [] => []
  | (k', v') :: rest =>
      if String.eqb k' k then rest else (k', v') :: mapDelete k rest
  end.

(** [fnMap]: method name, then owning class, to declaration lines. *)
Abbreviation FunctionMap := (list (string * list (string * list string))).

Definition SIGNAL_METHOD_NAMES : list string :=
  ["connect"; "connect_after"; "emit"; "disconnect"].

Section Members.

Variable maps : TypeMaps.
Variable toNumber : string -> option Z.
Variable this : GirModule.

(** [getVariable] *)
Definition getVariable (v : GirVariable) (optional allowQuotes : bool)
    (kind : VariableKind) : FunctionDescription * Log :=
  let a := v_attrs v in
  match a !! "name" with
  | Some vname =>
      if negb (Js.truthy vname) then (([], None), [])
      else if negb (girBool (a !! "introspectable") true)
              || girBool (a !! "private") false
      then (([], None), [])
      else
        let tr := transformation this in
        let name :=
          match kind with
          | KProperty => transformPropertyName tr vname allowQuotes
          | KConstant => transformConstantName tr vname allowQuotes
          | KField => transformFieldName tr vname allowQuotes
          end in
        let '(typeName, w) := typeLookupTransformed maps this v true in
        let nameSuffix := if optional then "?" else "" in
        let typeName := transformTypeName tr typeName in
        (([name ++ nameSuffix ++ ": " ++ typeName], Some name), w)
  | None => (([], None), [])
  end.

(** [getProperty]: lines, emitted name, original name. *)
Definition getProperty (v : GirVariable) (construct optional : bool)
  : list string * option string * option string * Log :=
  let a := v_attrs v in
  if girBool (a !! "construct-only") false && negb construct
  then ([], None, None, [])
  else if negb (girBool (a !! "writable") false) && construct
  then ([], None, None, [])
  else if girBool (a !! "private") false then ([], None, None, [])
  else
    let propPrefix := if girBool (a !! "writable") false then "" else "readonly " in
    let '((propDesc, propName), w) :=
      getVariable v (construct && optional) true KProperty in
    if negb (Js.truthyOpt propName) then ([], None, None, w)
    else
      let origName :=
        if Js.truthyOpt (a !! "name")
        then Some (transformTypeName (transformation this) (Js.show (a !! "name")))
        else None in
      (["    " ++ propPrefix ++ joinWith "," propDesc], propName, origName, w).

(** [processProperties]: the lines, and [localNames] and
    [propertyNames] as the call leaves them. *)
Definition processProperties (cls : GirConstruct) (localNames : LocalNames)
    (propertyNames : list string)
  : list string * LocalNames * list string * Log :=
  let '(def, localNames, propertyNames, w) :=
    fold_left
      (fun '(def, localNames, propertyNames, w) p =>
         let '(desc, name, origName, w0) := getProperty p false true in
         let '(aDesc, added, localNames) := checkName desc name localNames in
         let propertyNames :=
           match origName with
           | Some o =>
               if added && Js.truthy o then (propertyNames ++ [o])%list
               else propertyNames
           | None => propertyNames
           end in
         ((def ++ aDesc)%list, localNames, propertyNames, (w ++ w0)%list))
      (default [] (g_property cls))
      ([], localNames, propertyNames, []) in
  match def with
  | [] => (def, localNames, propertyNames, w)
  | _ =>
      (("    /* Properties of " ++ Js.show (g_fullSymName cls) ++ " */") :: def,
       localNames, propertyNames, w)
  end.

(** One iteration of the loop of [processNamedMethods]: [checkName]
    always answers with an array, so the function contributes an entry. *)
Definition namedMethodStep (cls : GirConstruct) (prefix : string)
    (st : list ScopedFunctionDescription * LocalNames * Log) (func : GirFunction)
  : list ScopedFunctionDescription * LocalNames * Log :=
  let '(def, localNames, w) := st in
  let '((desc, name), w0) :=
    getFunction maps toNumber this func "    " prefix None false false in
  let '(checked, _, localNames) := checkName desc name localNames in
  let scope :=
    if Js.truthyOpt (g_fullSymName cls) then g_fullSymName cls else None in
  ((def ++ [(checked, name, scope)])%list, localNames, (w ++ w0)%list).

(** [processNamedMethods] *)
Definition processNamedMethods (cls : GirConstruct) (localNames : LocalNames)
    (methodType : GirConstruct -> option (list GirFunction)) (prefix : string)
  : list ScopedFunctionDescription * LocalNames * Log :=
  fold_left (namedMethodStep cls prefix) (default [] (methodType cls))
    ([], localNames, []).

End Members.

(** ** Overload reconciliation *)

Definition falseOverloadComment (cls fName : string) : string :=
  "    /* False overload, use " ++ cls ++ ".prototype." ++ fName ++ ".call() */".

Definition clashingComment (clsName : string) : string :=
  "    /* Clashing method inherited from " ++ clsName ++ ", do not override */".

Definition skippingComment (fName : string) : string :=
  "    /* Skipping " ++ fName ++ " because it clashes with an inherited property */".

(** The collation step for one method of one class of the closure. *)
Definition collate (fnMap : FunctionMap) (m : ScopedFunctionDescription)
  : FunctionMap :=
  match m with
  | (desc, Some n, Some c) =>
      if Js.truthy n && Js.truthy c
      then mapSet n (mapSet c desc (default [] (mapGet n fnMap))) fnMap
      else fnMap
  | _ => fnMap
  end.

(** The inner loop over the clashes of one direct method. *)
Fixpoint clashLoop (desc : list string) (fName : string)
    (clashes : list (string * list string)) (defs : list string)
  : Exc (list string) :=
  match clashes with
  | [] => ret defs
  | (cls, defns) :: rest =>
      let* same := functionSignaturesMatch desc defns in
      if same then clashLoop desc fName rest defs
      else clashLoop desc fName rest
             (defs ++ falseOverloadComment cls fName :: defns)%list
  end.

(** The loop over the direct methods: "define each method and overload it
    if necessary to avoid clashes". *)
Fixpoint defineMethods (propertyNames : LocalNames)
    (methods : list ScopedFunctionDescription)
    (st : list string * LocalNames * FunctionMap)
  : Exc (list string * LocalNames * FunctionMap) :=
  match methods with
  | [] => ret st
  | (desc, name, _) :: rest =>
      let '(defs, localNames, fnMap) := st in
      match name with
      | Some n =>
          if negb (Js.truthy n) then defineMethods propertyNames rest st
          else if bool_decide (n ∈ propertyNames) then
            defineMethods propertyNames rest
              ((defs ++ [skippingComment n])%list, localNames, fnMap)
          else
            let defs := (defs ++ desc)%list in
            let localNames := localSet localNames n in
            match mapGet n fnMap with
            | None => defineMethods propertyNames rest (defs, localNames, fnMap)
            | Some clashes =>
                let* defs := clashLoop desc n clashes defs in
                defineMethods propertyNames rest (defs, localNames, mapDelete n fnMap)
            end
      | None => defineMethods propertyNames rest st
      end
  end.

(** [subDefs]: name-stripped definition to full definition and class. *)
Fixpoint subDefsOfClass (clsName : string) (ds : list string)
    (subDefs : list (string * (string * string)))
  : Exc (list (string * (string * string))) :=
  match ds with
  | [] => ret subDefs
  | d :: rest =>
      let* k := stripParamNames d false in
      subDefsOfClass clsName rest (mapSet k (d, clsName) subDefs)
  end.

Fixpoint subDefsOf (defns : list (string * list string))
    (subDefs : list (string * (string * string)))
  : Exc (list (string * (string * string))) :=
  match defns with
  | [] => ret subDefs
  | (clsName, ds) :: rest =>
      let* subDefs := subDefsOfClass clsName ds subDefs in
      subDefsOf rest subDefs
  end.

(** The loop over what is left of [fnMap]: inherited names that clash
    with each other. *)
Fixpoint inheritedClashes (girClass : GirConstruct) (vfunc : bool)
    (fnMap : FunctionMap) (st : list string * LocalNames)
  : Exc (list string * LocalNames) :=
  match fnMap with
  | [] => ret st
  | (fName, defns) :: rest =>
      let '(defs, localNames) := st in
      let sigClash :=
        bool_decide (fName ∈ SIGNAL_METHOD_NAMES)
        && negb (bool_decide (g_fullSymName girClass = Some "GObject.Object")) in
      let localNames := localSet localNames fName in
      if (length defns <? 2)%nat && negb sigClash
      then inheritedClashes girClass vfunc rest (defs, localNames)
      else
        let* subDefs := subDefsOf defns [] in
        if (length subDefs <? 2)%nat && negb sigClash
        then inheritedClashes girClass vfunc rest (defs, localNames)
        else
          let defs :=
            fold_left
              (fun defs '(_, (defn, clsName)) =>
                 (defs
                  ++ [if vfunc then clashingComment clsName
                      else falseOverloadComment clsName fName; defn])%list)
              subDefs defs in
          inheritedClashes girClass vfunc rest (defs, localNames)
  end.

Section Overloads.

Variable maps : TypeMaps.
Variable toNumber : string -> option Z.
Variable this : GirModule.

(** The [getter] argument of [processMethodsWithOverloads]. *)
Definition Getter : Type :=
  GirConstruct -> LocalNames -> list ScopedFunctionDescription * LocalNames * Log.

(** The first walk: inherited property names. *)
Definition collectPropertyNames (fuel : nat) (girClass : GirConstruct)
  : option (LocalNames * Log) :=
  mjoin
    (traverseInheritanceTree this (option (LocalNames * Log))
       (fun cls st =>
          st ≫= forEachInterfaceAndSelfFuel this (LocalNames * Log)%type
                  (fun e '(propertyNames, log) =>
                     if bool_decide (e ≠ girClass) then
                       let '(_, propertyNames, _, w) :=
                         processProperties maps this girClass propertyNames [] in
                       (propertyNames, (log ++ w)%list)
                     else (propertyNames, log))
                  fuel cls)
       (fun msg st => (fun '(p, log) => (p, warn log msg)) <$> st)
       girClass 0 true (Some (∅, []))).

(** The second walk: all potentially clashing inherited methods. *)
Definition collectFnMap (fuel : nat) (getter : Getter) (girClass : GirConstruct)
  : option (FunctionMap * Log) :=
  mjoin
    (traverseInheritanceTree this (option (FunctionMap * Log))
       (fun cls st =>
          st ≫= forEachInterfaceAndSelfFuel this (FunctionMap * Log)%type
                  (fun e '(fnMap, log) =>
                     let '(meths, _, w) := getter e ∅ in
                     (fold_left collate meths fnMap, (log ++ w)%list))
                  fuel cls)
       (fun msg st => (fun '(m, log) => (m, warn log msg)) <$> st)
       girClass 0 true (Some ([], []))).

(** [processMethodsWithOverloads]: the lines and [localNames] as the
    call leaves it; [fuel] bounds the nested calls of each walk over the
    interfaces. *)
Definition processMethodsWithOverloads (fuel : nat) (girClass : GirConstruct)
    (localNames : LocalNames) (getter : Getter) (vfunc : bool)
  : Exc (list string * LocalNames) :=
  let* propertyNames := ofWalk (collectPropertyNames fuel girClass) in
  let* '(methods, localNames) :=
    (let '(methods, localNames, w) := getter girClass localNames in
     (Ok (methods, localNames), w)) in
  let* fnMap := ofWalk (collectFnMap fuel getter girClass) in
  let* '(defs, localNames, fnMap) :=
    defineMethods propertyNames methods ([], localNames, fnMap) in
  let* '(defs, localNames) :=
    inheritedClashes girClass vfunc fnMap (defs, localNames) in
  ret (match defs with
       | [] => defs
       | _ => ("    /* " ++ (if vfunc then "Virtual" else "Instance")
               ++ " methods */") :: defs
       end, localNames).

(** The getters [exportClassInternal] passes. *)
Definition methodGetter : Getter :=
  fun cls locs => processNamedMethods maps toNumber this cls locs g_method "".

Definition virtualMethodGetter : Getter :=
  fun cls locs =>
    processNamedMethods maps toNumber this cls locs g_virtual_method "vfunc_".

End Overloads.

(** ** Class views *)

Definition logged {A} (x : A * Log) : Exc A := (Ok (fst x), snd x).

Fixpoint foldM {A B} (f : B -> A -> Exc B) (l : list A) (b : B) : Exc B :=
  match l with
  | [] => ret b
  | a :: rest => let* b' := f b a in foldM f rest b'
  end.

Definition STATIC_NAME_ALREADY_EXISTS : list string :=
  ["GMime.Charset"; "Camel.StoreInfo"].

(** A section of members under its header comment, when not empty. *)
Definition withHeader (header : string) (def : list string) : list string :=
  match def with [] => [] | _ => header :: def end.

Section ClassView.

Variable maps : TypeMaps.
Variable toNumber : string -> option Z.
Variable templates : TemplateProcessor.
Variable this : GirModule.

Let getFunction' := getFunction maps toNumber this.

(** [processFields] *)
Definition processFields (cls : GirConstruct) (localNames : LocalNames)
  : list string * LocalNames * Log :=
  let '(def, localNames, w) :=
    fold_left
      (fun '(def, localNames, w) f =>
         let '((desc, name), w0) := getVariable maps this f false false KField in
         let '(aDesc, added, localNames) := checkName desc name localNames in
         (if added then push def ("    " ++ Js.show (head aDesc)) else def,
          localNames, (w ++ w0)%list))
      (default [] (g_field cls)) ([], localNames, []) in
  (withHeader ("    /* Fields of " ++ Js.show (g_fullSymName cls) ++ " */") def,
   localNames, w).

(** [processMethods] *)
Definition processMethods (cls : GirConstruct) (localNames : LocalNames)
  : list string * LocalNames * Log :=
  let '(def, localNames, w) :=
    fold_left
      (fun '(def, localNames, w) func =>
         let '((desc, name), w0) := getFunction' func "    " "" None false false in
         let '(aDesc, _, localNames) := checkName desc name localNames in
         ((def ++ aDesc)%list, localNames, (w ++ w0)%list))
      (default [] (g_method cls)) ([], localNames, []) in
  (withHeader ("    /* Methods of " ++ Js.show (g_fullSymName cls) ++ " */") def,
   localNames, w).

(** [processVirtualMethods] *)
Definition processVirtualMethods (cls : GirConstruct) : list string * Log :=
  let '(def, w) :=
    fold_left
      (fun '(def, w) f =>
         let '((desc, _), w0) := getFunction' f "    " "vfunc_" None false false in
         ((def ++ desc)%list, (w ++ w0)%list))
      (default [] (g_virtual_method cls)) ([], []) in
  (withHeader ("    /* Virtual methods of " ++ Js.show (g_fullSymName cls) ++ " */")
     def, w).

(** [getSignalFunc] *)
Definition getSignalFunc (e : GirFunction) (clsName : string) : list string * Log :=
  let sigName :=
    transformSignalName (transformation this)
      (default "" (attrOf (f_attrs e) "name")) in
  let '(retType, outArrayLengthIndex, w1) := getReturnType maps toNumber this e in
  let '(params, _, w2) :=
    getParameters maps this outArrayLengthIndex (f_parameters e) in
  let paramComma := if Js.truthy params then ", " else "" in
  (generateSignalMethods templates (environment (config this)) sigName clsName
     paramComma params retType, (w1 ++ w2)%list).

(** [processSignals] *)
Definition processSignals (cls : GirConstruct) (clsName : string)
  : list string * Log :=
  let '(def, w) :=
    fold_left
      (fun '(def, w) s =>
         let '(d, w0) := getSignalFunc s clsName in
         ((def ++ d)%list, (w ++ w0)%list))
      (default [] (g_signal cls)) ([], []) in
  (withHeader ("    /* Signals of " ++ Js.show (g_fullSymName cls) ++ " */") def, w).

(** [generateSignalMethods] of the module (the notify helpers). *)
Definition generateNotifyMethods (cls : GirConstruct) (propertyNames : list string)
    (callbackObjectName : string) : Exc (list string) :=
  let* derived := ofWalk (isDerivedFromGObject this cls) in
  if derived || isGInterface cls then
    let prefix := if String.eqb (name this) "GObject" then "" else "GObject." in
    ret (concat (map (fun prop =>
                        generateGObjectSignalMethods templates
                          (environment (config this)) prop callbackObjectName prefix)
                   propertyNames)
         ++ generateGeneralSignalMethods templates (environment (config this)))%list
  else ret [].

(** [getConstructorFunction] *)
Definition getConstructorFunction (name : string) (e : GirFunction)
    (prefix funcNamePrefix : string) : FunctionDescription * Log :=
  let namedNew := bool_decide (attrOf (f_attrs e) "name" = Some "new") in
  let '((desc, funcName), w) :=
    getFunction' e prefix funcNamePrefix (Some name) namedNew namedNew in
  if negb (Js.truthyOpt funcName) then (([], None), w) else ((desc, funcName), w).

(** [getStaticConstructors] without a filter. *)
Definition getStaticConstructors (e : GirConstruct) (name stat : string)
  : list FunctionDescription * Log :=
  match g_constructor e with
  | None => ([([], None)], [])
  | Some funcs =>
      fold_left
        (fun '(ctors, w) f =>
           let '(d, w0) := getConstructorFunction name f ("    " ++ stat) "" in
           ((ctors ++ [d])%list, (w ++ w0)%list))
        funcs ([], [])
  end.

(** [isGtypeStructFor] *)
Definition isGtypeStructFor (e rec : GirConstruct) : bool :=
  match attrOf (g_attrs rec) "glib:is-gtype-struct-for" with
  | Some isFor => Js.truthy isFor && bool_decide (gname e = Some isFor)
  | None => false
  end.

(** [getClassMethods] *)
Definition getClassMethods (girClass : GirConstruct) (stat : string)
  : list FunctionDescription * Log :=
  match gname girClass with
  | Some n =>
      if negb (Js.truthy n) then ([], []) else
      let fName := n ++ "Class" in
      let records := default [] (ns_record (ns this)) in
      let rec :=
        match find (fun r => bool_decide (gname r = Some fName)) records with
        | Some r =>
            if isGtypeStructFor girClass r then Some r
            else find (isGtypeStructFor girClass) records
        | None => find (isGtypeStructFor girClass) records
        end in
      match rec with
      | Some r =>
          fold_left
            (fun '(ds, w) m =>
               let '(d, w0) := getFunction' m ("    " ++ stat) "" None false false in
               ((ds ++ [d])%list, (w ++ w0)%list))
            (default [] (g_method r)) ([], [])
      | None => ([], [])
      end
  | None => ([], [])
  end.

(** [getOtherStaticFunctions] *)
Definition getOtherStaticFunctions (girClass : GirConstruct) (stat : string)
  : list FunctionDescription * Log :=
  fold_left
    (fun '(fns, w) func =>
       let '((desc, funcName), w0) :=
         getFunction' func ("    " ++ stat) "" None false false in
       ((if Js.truthyOpt funcName && negb (bool_decide (funcName = Some "new"))
         then fns ++ [(desc, funcName)] else fns)%list,
        (w ++ w0)%list))
    (default [] (g_function girClass)) ([], []).

(** [processStaticFunctions] *)
Definition processStaticFunctions (descs : list FunctionDescription) : list string :=
  concat (map fst descs).

(** [getAllStaticFunctions] *)
Definition getAllStaticFunctions (girClass : GirConstruct) (name stat : string)
  : list string * Log :=
  let '(c, w1) := getStaticConstructors girClass name stat in
  let '(o, w2) := getOtherStaticFunctions girClass stat in
  let '(m, w3) := getClassMethods girClass stat in
  (withHeader "    /* Static methods and pseudo-constructors */"
     (processStaticFunctions c ++ processStaticFunctions o
      ++ processStaticFunctions m)%list,
   (w1 ++ w2 ++ w3)%list).

(** [generateConstructorAndStaticMethods] *)
Definition generateConstructorAndStaticMethods (girClass : GirConstruct)
    (name : string) (asInterface : bool) : Exc (list string) :=
  let* derived := ofWalk (isDerivedFromGObject this girClass) in
  let stat := if asInterface then "" else "static " in
  let ctor :=
    if derived then
      if asInterface
      then ["    new(config?: " ++ name ++ "_ConstructProps): " ++ name]
      else ["    constructor(config?: " ++ name ++ "_ConstructProps)";
            "    _init(config?: " ++ name ++ "_ConstructProps): void"]
    else [] in
  let* statics := logged (getAllStaticFunctions girClass name stat) in
  let gtype :=
    if derived || isGInterface girClass then
      ["    " ++ stat ++ "$gtype: "
       ++ (if String.eqb (packageName this) "GObject-2.0" then "" else "GObject.")
       ++ "Type"]
    else [] in
  let staticName :=
    match g_fullSymName girClass with
    | Some n =>
        if Js.truthy n && negb (bool_decide (n ∈ STATIC_NAME_ALREADY_EXISTS))
        then ["    " ++ stat ++ "name: string"] else []
    | None => []
    end in
  ret (ctor ++ statics ++ gtype ++ staticName)%list.

(** The construct properties of one class or interface, pushed through
    [checkName] on [constructPropNames]. *)
Definition constructProps (cls : GirConstruct)
    (st : list string * LocalNames * Log) : list string * LocalNames * Log :=
  fold_left
    (fun '(def, names, w) p =>
       let '(desc, name, _, w0) := getProperty maps this p true true in
       let '(aDesc, _, names) := checkName desc name names in
       ((def ++ aDesc)%list, names, (w ++ w0)%list))
    (default [] (g_property cls)) st.

(** [generateConstructPropsInterface] *)
Definition generateConstructPropsInterface (fuel : nat) (girClass : GirConstruct)
    (name : string) (qualifiedParentName localParentName : option string)
  : Exc (list string) :=
  let* derived := ofWalk (isDerivedFromGObject this girClass) in
  if derived then
    let ext :=
      if Js.truthyOpt qualifiedParentName
      then "extends " ++ Js.show localParentName ++ "_ConstructProps "
      else " " in
    let head := "export interface " ++ name ++ "_ConstructProps " ++ ext ++ "{" in
    let st := constructProps girClass ([head], ∅, []) in
    let* '(def, _, w) :=
      match g_implements girClass with
      | Some _ =>
          match forEachInterfaceFuel this _ constructProps fuel girClass false
                  (st, ∅) with
          | Some (st', _) => ret st'
          | None => (OutOfFuel, [])
          end
      | None => ret st
      end in
    let* _ := (Ok tt, w) in
    ret (push def "}")
  else ret [].

(** The scratch state of one class view. *)
Record ViewState := mkViewState {
  vs_def : list string;
  vs_localNames : LocalNames;
  vs_propertyNames : list string;
  vs_log : Log
}.

Definition viewWarn (msg : string) (st : ViewState) : ViewState :=
  mkViewState (vs_def st) (vs_localNames st) (vs_propertyNames st)
    (warn (vs_log st) msg).

Definition viewProperties (cls : GirConstruct) (st : ViewState) : ViewState :=
  let '(d, ln, pn, w) :=
    processProperties maps this cls (vs_localNames st) (vs_propertyNames st) in
  mkViewState (vs_def st ++ d) ln pn (vs_log st ++ w).

Definition viewFields (cls : GirConstruct) (st : ViewState) : ViewState :=
  let '(d, ln, w) := processFields cls (vs_localNames st) in
  mkViewState (vs_def st ++ d) ln (vs_propertyNames st) (vs_log st ++ w).

Definition viewMethods (cls : GirConstruct) (st : ViewState) : ViewState :=
  let '(d, ln, w) := processMethods cls (vs_localNames st) in
  mkViewState (vs_def st ++ d) ln (vs_propertyNames st) (vs_log st ++ w).

Definition viewVirtualMethods (cls : GirConstruct) (st : ViewState) : ViewState :=
  let '(d, w) := processVirtualMethods cls in
  mkViewState (vs_def st ++ d) (vs_localNames st) (vs_propertyNames st)
    (vs_log st ++ w).

Definition viewSignals (name : string) (cls : GirConstruct) (st : ViewState)
  : ViewState :=
  let '(d, w) := processSignals cls name in
  mkViewState (vs_def st ++ d) (vs_localNames st) (vs_propertyNames st)
    (vs_log st ++ w).

Definition viewTraverse (visit : GirConstruct -> ViewState -> ViewState)
    (girClass : GirConstruct) (st : option ViewState) : option ViewState :=
  st ≫= traverseInheritanceTree this ViewState visit viewWarn girClass 0 true.

Definition viewInterfaces (fuel : nat)
    (visit : GirConstruct -> ViewState -> ViewState)
    (girClass : GirConstruct) (st : option ViewState) : option ViewState :=
  st ≫= fun st =>
    fst <$> forEachInterfaceFuel this ViewState visit fuel girClass false (st, ∅).

(** The [extends] list of the interface form of a class. *)
Definition inheritsOf (girClass : GirConstruct) (localParentName : option string)
  : list string :=
  let prereq :=
    (default [] (g_implements girClass)
     ++ match g_prerequisite girClass with
        | Some (p :: ps) => p :: ps
        | _ => []
        end)%list in
  let inherits := omap (fun p : Attrs => p !! "name") prereq in
  let inherits :=
    map (fun n =>
           match splitOn "." n with
           | m :: leaf :: _ =>
               if negb (String.eqb m "") && String.eqb m (name this)
               then leaf else n
           | _ => n
           end) inherits in
  match localParentName with
  | Some l =>
      if Js.truthy l && negb (bool_decide (l ∈ inherits))
      then l :: inherits else inherits
  | None => inherits
  end.

(** The opening line of a class view. *)
Definition classHead (girClass : GirConstruct) (name : string)
    (localParentName : option string) (isAbstract asInterface : bool) : string :=
  if isAbstract then "export abstract class " ++ name ++ " {"
  else if asInterface then
    let inherits := inheritsOf girClass localParentName in
    let ext :=
      match inherits with
      | [] => ""
      | _ => " extends " ++ joinWith ", " inherits
      end in
    "export interface " ++ name ++ ext ++ " {"
  else "export class " ++ name ++ " {".

(** [exportClassInternal] *)
Definition exportClassInternal (fuel : nat) (girClass : GirConstruct)
    (record isAbstract : bool) : Exc (list string) :=
  let isAbstract :=
    isAbstract
    || Js.truthyOpt (attrOf (g_attrs girClass) "glib:is-gtype-struct-for") in
  match getClassDetails this girClass with
  | None => ret []
  | Some details =>
      let name := cd_name details in
      let* props :=
        generateConstructPropsInterface fuel girClass name
          (cd_qualifiedParentName details) (cd_localParentName details) in
      let asInterface :=
        inheritance (config this) && negb record && negb isAbstract in
      let def :=
        push props
          (classHead girClass name (cd_localParentName details)
             isAbstract asInterface) in
      let '(fields, localNames, w) :=
        if record then processFields girClass ∅ else ([], ∅, []) in
      let* _ := (Ok tt, w) in
      let def := (def ++ fields)%list in
      let* '(def, propertyNames) :=
        if asInterface then
          let* '(ms, localNames) :=
            processMethodsWithOverloads maps this fuel girClass localNames
              (methodGetter maps toNumber this) false in
          let* '(ps, _, propertyNames) :=
            logged (processProperties maps this girClass localNames []) in
          let* '(vs, _) :=
            processMethodsWithOverloads maps this fuel girClass ∅
              (virtualMethodGetter maps toNumber this) true in
          let* ss := logged (processSignals girClass name) in
          let* derived := ofWalk (isDerivedFromGObject this girClass) in
          let init :=
            if derived
            then ["    /* GObject initialiser */";
                  "    _init (config?: " ++ name ++ "_ConstructProps): void"]
            else [] in
          ret ((def ++ ms ++ ps ++ vs ++ ss ++ init)%list, propertyNames)
        else
          let st := Some (mkViewState def localNames [] []) in
          let st := viewTraverse viewProperties girClass st in
          let st := viewInterfaces fuel viewProperties girClass st in
          let st := viewTraverse viewFields girClass st in
          let st := viewTraverse viewMethods girClass st in
          let st := viewInterfaces fuel viewMethods girClass st in
          let st := viewTraverse viewVirtualMethods girClass st in
          let st := viewTraverse (viewSignals name) girClass st in
          let st := viewInterfaces fuel (viewSignals name) girClass st in
          match st with
          | Some st => (Ok (vs_def st, vs_propertyNames st), vs_log st)
          | None => (OutOfFuel, [])
          end in
      let* notify := generateNotifyMethods girClass propertyNames name in
      let def := (def ++ notify)%list in
      let def :=
        if asInterface
        then push (push def "}") ("export const " ++ name ++ ": {") else def in
      let* statics := generateConstructorAndStaticMethods girClass name asInterface in
      ret (push (def ++ statics)%list "}")
  end.

End ClassView.

(** ** Namespace emission *)

(** What [export] asks of the template processor and of [Utils]. *)
Record Emitter := mkEmitter {
  generateTSDocComment : string -> list string;
  generateModuleDependenciesImport :
    string -> string -> bool -> GenerateConfig -> list string;
  splitModuleName : string -> string;
  girFileExists : string -> bool;
  templatePatch : string -> option string
}.

(** [/\d/.test(name[0])] *)
Definition startsWithDigit (s : string) : bool :=
  match s with
  | String c _ => let n := nat_of_ascii c in ((48 <=? n) && (n <=? 57))%nat
  | EmptyString => false
  end.

Section NamespaceEmitter.

Variable maps : TypeMaps.
Variable toNumber : string -> option Z.
Variable templates : TemplateProcessor.
Variable emitter : Emitter.
Variable this : GirModule.

(** [exportEnumeration] *)
Definition exportEnumeration (e : GirConstruct) : list string :=
  match g_attrs e with
  | None => []
  | Some a =>
      if negb (girBool (a !! "introspectable") true) then []
      else
        let name := transformEnumName (transformation this) (default "" (a !! "name")) in
        let members :=
          omap
            (fun m : GirMember =>
               let pick (k : string) :=
                 match m_attrs m !! k with
                 | Some v => if Js.truthy v then Some v else None
                 | None => None
                 end in
               match
                 match pick "name" with
                 | Some v => Some v
                 | None =>
                     match pick "glib:nick" with
                     | Some v => Some v
                     | None => pick "c:identifier"
                     end
                 end
               with
               | Some _name =>
                   let name := transformEnumValue (transformation this) _name in
                   Some (if startsWithDigit name
                         then "    /* " ++ name ++ " (invalid, starts with a number) */"
                         else "    " ++ name ++ ",")
               | None => None
               end)
            (default [] (g_member e)) in
        ("export enum " ++ name ++ " {") :: push members "}"
  end.

(** [exportConstant]: the lines and [constNames] as the call leaves it. *)
Definition exportConstant (girVar : GirConstruct) (constNames : gset string)
  : Exc (list string * gset string) :=
  match asVariable girVar with
  | None =>
      throw "TypeError: Cannot read properties of undefined (reading 'name')"
  | Some v =>
      let* '(varDesc, varName) :=
        logged (getVariable maps this v false false KConstant) in
      match varName with
      | Some n =>
          if Js.truthy n then
            if negb (localHas constNames n)
            then ret (["export const " ++ joinWith "," varDesc], localSet constNames n)
            else
              let* _ := tell ("The constant '" ++ joinWith "," varDesc
                              ++ "' has already been exported") in
              ret ([], constNames)
          else ret ([], constNames)
      | None => ret ([], constNames)
      end
  end.

(** [exportFunction] *)
Definition exportFunction (e : GirConstruct) : Exc (list string) :=
  let* '(desc, _) :=
    logged (getFunction maps toNumber this (asFunction e)
              "export function " "" None false false) in
  ret desc.

(** [exportCallback] *)
Definition exportCallback (e : GirConstruct) : Exc (list string) :=
  match g_attrs e with
  | None => ret []
  | Some a =>
      if negb (girBool (a !! "introspectable") true) then ret []
      else
        let f := asFunction e in
        let* '(retType, outArrayLengthIndex) :=
          logged (getReturnType maps toNumber this f) in
        let* '(params, _) :=
          logged (getParameters maps this outArrayLengthIndex (f_parameters f)) in
        ret ["export interface " ++ Js.show (a !! "name") ++ " {";
             "    (" ++ params ++ "): " ++ retType;
             "}"]
  end.

(** [exportAlias] *)
Definition exportAlias (girAlias : GirConstruct) : Exc (list string) :=
  match asVariable girAlias with
  | None => ret []
  | Some v =>
      if negb (girBool (v_attrs v !! "introspectable") true) then ret []
      else
        let* typeName := logged (typeLookupTransformed maps this v true) in
        ret ["type " ++ Js.show (v_attrs v !! "name") ++ " = " ++ typeName]
  end.

(** [for (const e of list) out.push(...f(e))] *)
Definition exportEach (f : GirConstruct -> Exc (list string))
    (l : option (list GirConstruct)) (out : list string) : Exc (list string) :=
  foldM (fun out e => let* d := f e in ret (out ++ d)%list) (default [] l) out.

(** The dependency list [export] imports. *)
Definition exportDeps : list string :=
  let deps := transitiveDependencies this in
  let add (when_ dep : string) (deps : list string) :=
    if String.eqb (packageName this) when_ && negb (bool_decide (dep ∈ deps))
    then push deps dep else deps in
  let deps :=
    if negb (String.eqb (packageName this) "GObject-2.0")
       && negb (bool_decide ("GObject-2.0" ∈ deps))
    then push deps "GObject-2.0" else deps in
  add "GTop-2.0" "GLib-2.0"
    (add "UnityExtras-6.0" "Unity-6.0" (add "UnityExtras-7.0" "Unity-7.0" deps)).

(** [export]: the lines joined and written to the output stream. *)
Definition export (fuel : nat) : Exc (list string) :=
  let out := (generateTSDocComment emitter (packageName this) ++ [""])%list in
  let out :=
    (out ++ match environment (config this) with
            | Gjs => generateModuleDependenciesImport emitter "Gjs" "Gjs" false
                       (config this)
            | Node => generateModuleDependenciesImport emitter "node" "node" true
                        (config this)
            end)%list in
  let* out :=
    foldM
      (fun out dep =>
         if negb (String.eqb (packageName this) dep) then
           let girFilename := dep ++ ".gir" in
           if girFileExists emitter girFilename then
             ret (out ++ generateModuleDependenciesImport emitter
                           (splitModuleName emitter dep) dep false (config this))%list
           else
             let* _ := tell ("Dependency gir file not found: '" ++ girFilename ++ "'") in
             ret (push out ("// WARN: Dependency not found: '" ++ dep ++ "'"))
         else ret out)
      exportDeps out in
  let out :=
    match buildType (config this) with
    | BuildTypes => push (push out "") ("declare namespace " ++ name this ++ " {")
    | BuildLib => out
    end in
  let out := push out "" in
  let* out := exportEach (fun e => ret (exportEnumeration e))
                (ns_enumeration (ns this)) out in
  let* out := exportEach (fun e => ret (exportEnumeration e))
                (ns_bitfield (ns this)) out in
  let* '(out, _) :=
    foldM
      (fun '(out, constNames) e =>
         let* '(d, constNames) := exportConstant e constNames in
         ret ((out ++ d)%list, constNames))
      (default [] (ns_constant (ns this))) (out, constNames this) in
  let* out := exportEach exportFunction (ns_function (ns this)) out in
  let* out := exportEach exportCallback (ns_callback (ns this)) out in
  let* out :=
    exportEach (fun e => exportClassInternal maps toNumber templates this fuel e
                           false false)
      (ns_interface (ns this)) out in
  let out :=
    match templatePatch emitter (packageName this ++ ".d.ts") with
    | Some patches => push out patches
    | None => out
    end in
  let* out :=
    exportEach (fun e => exportClassInternal maps toNumber templates this fuel e
                           false false)
      (ns_class (ns this)) out in
  let* out :=
    exportEach (fun e => exportClassInternal maps toNumber templates this fuel e
                           true false)
      (ns_record (ns this)) out in
  let* out :=
    exportEach (fun e => exportClassInternal maps toNumber templates this fuel e
                           true false)
      (ns_union (ns this)) out in
  let* out :=
    exportEach
      (fun e =>
         if negb (String.eqb (packageName this) "GObject-2.0")
            || negb (bool_decide (gname e = Some "Type"))
         then exportAlias e else ret [])
      (ns_alias (ns this)) out in
  let out :=
    if String.eqb (packageName this) "GObject-2.0"
    then (out ++ ["export interface Type {"; "    name: string"; "}"])%list
    else out in
  let out :=
    match buildType (config this) with
    | BuildTypes => push out "}"
    | BuildLib => out
    end in
  ret out.

End NamespaceEmitter.

(** ** Dependencies and the inheritance table *)

(** [`${i.$.name}-${i.$.version}`] of an [<include>], given by its
    attribute map. *)
Definition includeName (i : Attrs) : string :=
  Js.show (i !! "name") ++ "-" ++ Js.show (i !! "version").

(** [loadDependencies]: [unshift] puts every include in front of the ones
    read before it. *)
Definition loadDependencies (girInclude : list Attrs) : list string :=
  fold_left (fun dependencies i => includeName i :: dependencies) girInclude [].

(** [s.indexOf(c)] for a one-character [c]: [-1] when [c] is absent. *)
Fixpoint indexOfChar (c : ascii) (s : string) : Z :=
  match s with
  | EmptyString => (-1)%Z
  | String d r =>
      if Ascii.eqb d c then 0%Z
      else let i := indexOfChar c r in if (i <? 0)%Z then (-1)%Z else (i + 1)%Z
  end.

(** [InheritanceTable]: qualified class name to the qualified names of
    its parent and of the interfaces it implements.  The arrays of an
    incoming table are taken to be distinct objects. *)
Abbreviation InheritanceTable := (gmap string (list string)).

(** [inheritanceTable[clsName] || []], on which [method] is called next:
    a name that is no own key but a key of [Object.prototype] reads a value
    that has neither [push] nor [concat]. *)
Definition tableArray (method : string) (t : InheritanceTable) (clsName : string)
  : Exc (list string) :=
  match t !! clsName with
  | Some arr => ret arr
  | None =>
      if bool_decide (clsName ∈ Js.objectPrototypeKeys)
      then throw ("TypeError: arr." ++ method ++ " is not a function")
      else ret []
  end.

Section InheritanceIndex.

Variable this : GirModule.

(** One iteration of the first loop of [loadInheritance]: the parent. *)
Definition loadParent (t : InheritanceTable) (cls : GirConstruct)
  : Exc InheritanceTable :=
  match attrOf (g_attrs cls) "parent" with
  | Some parent =>
      if negb (Js.truthy parent) then ret t
      else if negb (Js.truthyOpt (g_fullSymName cls)) then ret t
      else
        let parent :=
          if (indexOfChar "." parent <? 0)%Z then name this ++ "." ++ parent
          else parent in
        let clsName := Js.show (g_fullSymName cls) in
        let* arr := tableArray "push" t clsName in
        ret (<[clsName := push arr parent]> t)
  | None => ret t
  end.

(** The [names] array of the second loop: the implemented interfaces
    that carry a name, qualified with the module part of the class name. *)
Definition implementedNames (cls : GirConstruct) : list string :=
  let full := Js.show (g_fullSymName cls) in
  omap
    (fun i : Attrs =>
       match i !! "name" with
       | Some n =>
           if Js.truthy n then
             Some (if (indexOfChar "." n <? 0)%Z
                   then String.substring 0
                          (Z.to_nat (indexOfChar "." full + 1)) full ++ n
                   else n)
           else None
       | None => None
       end)
    (default [] (g_implements cls)).

(** One iteration of the second loop of [loadInheritance]. *)
Definition loadImplements (t : InheritanceTable) (cls : GirConstruct)
  : Exc InheritanceTable :=
  if negb (Js.truthyOpt (g_fullSymName cls)) then ret t
  else
    let names := implementedNames cls in
    if (0 <? length names)%nat then
      let clsName := Js.show (g_fullSymName cls) in
      let* arr := tableArray "concat" t clsName in
      ret (<[clsName := (arr ++ names)%list]> t)
    else ret t.

(** [loadInheritance]: the table as the call leaves it. *)
Definition loadInheritance (inheritanceTable : InheritanceTable)
  : Exc InheritanceTable :=
  let classes := default [] (ns_class (ns this)) in
  let* inheritanceTable := foldM loadParent classes inheritanceTable in
  foldM loadImplements classes inheritanceTable.

End InheritanceIndex.

(** ** Derivation tests *)

Section Derivation.

Variable this : GirModule.

(** [classIsDerivedFrom]: a name without an entry reads [undefined] (or
    a member of [Object.prototype], which has no [$]), on which the walk
    returns at once. *)
Definition classIsDerivedFrom (fuel : nat) (cls1 cls2 : string) : Exc bool :=
  match symTable this !! cls1 with
  | None => ret false
  | Some girClass =>
      ofWalk
        (mjoin
           (traverseInheritanceTree this (option (bool * Log))
              (fun cls st =>
                 st ≫= fun st : bool * Log =>
                   if st.1 then Some st
                   else
                     forEachInterfaceAndSelfFuel this (bool * Log)%type
                       (fun e '(matched, log) =>
                          (if negb matched
                              && bool_decide (g_fullSymName e = Some cls2)
                           then true else matched, log))
                       fuel cls st)
              (fun msg st => (fun '(m, log) => (m, warn log msg)) <$> st)
              girClass 0 true (Some (false, []))))
  end.

(** [classesShareInheritanceTree]: [||] evaluates its right operand only
    when the left one is false. *)
Definition classesShareInheritanceTree (fuel : nat) (cls1 cls2 : string)
  : Exc bool :=
  let* derived := classIsDerivedFrom fuel cls1 cls2 in
  if derived then ret true else classIsDerivedFrom fuel cls2 cls1.

(** [interfaceIsDuplicate]: [iface] is a class or a qualified name.  The
    state of the walk is [rpt], [bottom] and the log. *)
Definition interfaceIsDuplicate (fuel : nat) (cls : GirConstruct)
    (iface : GirConstruct + string) : Exc bool :=
  let ifaceName : option string :=
    match iface with
    | inl i => if Js.truthyOpt (g_fullSymName i) then g_fullSymName i else None
    | inr n => Some n
    end in
  match ifaceName with
  | None => ret false
  | Some iface =>
      let* '(rpt, _) :=
        ofWalk
          (mjoin
             (traverseInheritanceTree this (option (bool * bool * Log))
                (fun sub st =>
                   st ≫= fun st : bool * bool * Log =>
                     let '(rpt, bottom, log) := st in
                     if rpt then Some st
                     else if bottom then Some (rpt, false, log)
                     else
                       (fun r : bool * gset string => (r.1, bottom, log))
                         <$> forEachInterfaceFuel this bool
                               (fun e (rpt : bool) =>
                                  if rpt then rpt
                                  else bool_decide (g_fullSymName e = Some iface))
                               fuel sub true (rpt, ∅))
                (fun msg st =>
                   (fun '(r, b, log) => (r, b, warn log msg)) <$> st)
                cls 0 true (Some (false, true, [])))) in
      ret rpt
  end.

End Derivation.

(** ** Sample collaborators and inputs

    The name transforms that leave every identifier as it is, empty type
    tables, and small GIR trees used to run the translator. *)

Definition idTransformation : Transformation :=
  mkTransformation (fun s => s) (fun s => s) (fun s _ => s) (fun s => s)
    (fun s _ => s) (fun s _ => s) (fun s _ => s) (fun s => s) (fun s => s)
    (fun s => s).

(** Tables with the two primitive entries the examples use. *)
Definition sampleMaps : TypeMaps :=
  mkTypeMaps {[ "gint" := "number"; "none" := "void" ]} (fun _ => ∅)
    (fun _ _ => ∅) (fun _ _ => ∅).

Definition noTemplates : TemplateProcessor :=
  mkTemplates (fun _ _ _ _ _ _ => []) (fun _ _ _ _ => []) (fun _ => []).

Definition sampleEmitter : Emitter :=
  mkEmitter (fun _ => []) (fun _ _ _ _ => []) (fun s => s) (fun _ => true)
    (fun _ => None).

Definition sampleConfig : GenerateConfig := mkConfig Gjs BuildLib false.

(** [Number] on the decimal strings the [length] attribute carries. *)
Definition decimalNumber (s : string) : option Z := Js.parseDigits 10 None s.

Definition emptyNamespace : GirNamespace :=
  mkNamespace None None None None None None None None None None.

(** An element with the given attributes and no children. *)
Definition element (a : Attrs) : GirConstruct :=
  mkConstruct (Some a) None None None None None None None None None None None
    None None None None None None.

Definition sampleModule (modName : string) (n : GirNamespace) (dict : SymTable)
  : GirModule :=
  mkModule modName "1.0" n dict [] ∅ ∅ sampleConfig idTransformation.

(** Two constructs of one name. *)
Definition fooFirst : GirConstruct :=
  element {[ "name" := "Foo"; "c:type" := "GtkFooOld" ]}.
Definition fooSecond : GirConstruct :=
  element {[ "name" := "Foo"; "c:type" := "GtkFooNew" ]}.

(** ** Vocabulary of the properties *)

(** The key under which an iteration of [loadTypesInternal] writes, if it
    writes. *)
Definition insertKey (modName : string) (g : GirConstruct) : option string :=
  match g_attrs g with
  | Some a => if passesIntrospectable a then Some (symNameOf modName a) else None
  | None => None
  end.


(** A parameter of type [gint]. *)
Definition intParam (a : Attrs) : GirVariable :=
  mkVariable a (Some [mkType (Some {[ "name" := "gint" ]}) None]) None None
    None None.



Definition gtkModule : GirModule := sampleModule "Gtk" emptyNamespace ∅.









(** What a walk up the inheritance tree does, in order: visits (calls of
    the callback) and warnings. *)
Inductive WalkEvent :=
| Visit (c : GirConstruct)
| Warned (msg : string).

(** The walk with the callback and the logger recording into a trace. *)
Definition traceWalk (this : GirModule) (girClass : GirConstruct) (depth : nat)
    (recursive : bool) : option (list WalkEvent) :=
  traverseInheritanceTree this (list WalkEvent)
    (fun c t => push t (Visit c)) (fun m t => push t (Warned m))
    girClass depth recursive [].

(** The recording walk with its bound on nested calls. *)
Abbreviation traceFuel this :=
  (traverseInheritanceTreeFuel this (list WalkEvent)
     (fun c t => push t (Visit c)) (fun m t => push t (Warned m))).

(** The classes a trace visits. *)
Definition visits (t : list WalkEvent) : list GirConstruct :=
  omap (fun e => match e with Visit c => Some c | Warned _ => None end) t.

(** The warnings of a trace. *)
Definition warnings (t : list WalkEvent) : list string :=
  omap (fun e => match e with Warned m => Some m | Visit _ => None end) t.

(** A trace played on a state with a callback and a logger. *)
Definition replay {St} (callback : GirConstruct -> St -> St)
    (logWarn : string -> St -> St) (t : list WalkEvent) (st : St) : St :=
  fold_left
    (fun st e => match e with Visit c => callback c st | Warned m => logWarn m st end)
    t st.

Definition circularWarning (parentName : string) : string :=
  "Circular dependency found! Ignore next parent " ++ Js.dq ++ parentName
  ++ Js.dq ++ ".".

Definition maximumDepthWarning (girClass : GirConstruct) : string :=
  "Maximum recursion depth of 100 reached for " ++ Js.dq
  ++ default "" (attrOf (g_attrs girClass) "name") ++ Js.dq.

(** A class of module [Gtk] as [loadTypes] leaves it. *)
Definition gtkClass (n parent : string) : GirConstruct :=
  stamp "Gtk" ("Gtk." ++ n) (element {[ "name" := n; "parent" := parent ]}).

(** [A] and [B] are each other's parent. *)
Definition cycle2 : GirModule :=
  sampleModule "Gtk" emptyNamespace
    {[ "Gtk.A" := gtkClass "A" "B"; "Gtk.B" := gtkClass "B" "A" ]}.

(** [A] has parent [B], [B] has parent [C], [C] has parent [A]. *)
Definition cycle3 : GirModule :=
  sampleModule "Gtk" emptyNamespace
    {[ "Gtk.A" := gtkClass "A" "B"; "Gtk.B" := gtkClass "B" "C";
       "Gtk.C" := gtkClass "C" "A" ]}.

(** The parent the walk moves to from a class. *)
Definition nextParent (this : GirModule) (c : GirConstruct) : option GirConstruct :=
  match getClassDetails this c with
  | Some d => resolveParent this d
  | None => None
  end.

(** What one call of the walk does before it tests the depth: the
    circular-dependency warning, if any, then the visit. *)
Definition stepEvents (this : GirModule) (c : GirConstruct)
    (parentPtr : option GirConstruct) : list WalkEvent :=
  match circularParent c parentPtr with
  | Some pn => [Warned (circularWarning pn); Visit c]
  | None => [Visit c]
  end.

(** A class [C] with a property [foo] and a method [foo()], whose parent
    [P] declares the property [foo] and [foo(x: gint)] and whose interface
    [I] declares [foo(y: gint)]; and a class [D] without the property,
    whose parent [Q] declares [foo(x: gint)] only. *)
Definition method (n : string) (params : list GirVariable) : GirFunction :=
  mkFunction (Some {[ "name" := n ]}) (Some [mkParameter (Some params) None])
    None None.

Definition classWith (n : string) (a : Attrs) (implements : option (list Attrs))
    (props : option (list GirVariable)) (methods : list GirFunction)
  : GirConstruct :=
  mkConstruct (Some (<["name" := n]> a)) (Some "Gtk") (Some ("Gtk." ++ n)) None
    implements props None (Some methods) None None None None None None None
    None None None.

Definition classP : GirConstruct :=
  classWith "P" ∅ None (Some [intParam {[ "name" := "foo" ]}])
    [method "foo" [intParam {[ "name" := "x" ]}]].

Definition classQ : GirConstruct :=
  classWith "Q" ∅ None None [method "foo" [intParam {[ "name" := "x" ]}]].

Definition ifaceI : GirConstruct :=
  classWith "I" ∅ None None [method "foo" [intParam {[ "name" := "y" ]}]].

Definition classC : GirConstruct :=
  classWith "C" {[ "parent" := "P" ]} (Some [{[ "name" := "I" ]}])
    (Some [intParam {[ "name" := "foo" ]}]) [method "foo" []].

Definition classD : GirConstruct :=
  classWith "D" {[ "parent" := "Q" ]} (Some [{[ "name" := "I" ]}]) None
    [method "foo" []].

Definition overloadModule : GirModule :=
  sampleModule "Gtk" emptyNamespace
    {[ "Gtk.C" := classC; "Gtk.D" := classD; "Gtk.P" := classP;
       "Gtk.Q" := classQ; "Gtk.I" := ifaceI ]}.




(** A node that carries a type name and nothing else: no array, no
    callback, no C type. *)
Definition typeNode (a : Attrs) (m : option string) (n : string) : GirVariable :=
  mkVariable a (Some [mkType (Some {[ "name" := n ]}) None]) None None m None.

(** Module [Gtk] with a table that knows [Gio.File] and [Gtk.Widget]. *)
Definition resolverModule : GirModule :=
  sampleModule "Gtk" emptyNamespace
    {[ "Gio.File" := element {[ "name" := "File" ]};
       "Gtk.Widget" := element {[ "name" := "Widget" ]} ]}.

(** The qualified name [typeLookup] searches for the name [n] of a node
    owned by module [m]. *)
Definition qualifiedNameOf (this : GirModule) (m : option string) (n : string)
  : string :=
  if negb (Js.hasDot n) then default (name this) m ++ "." ++ n else n.

Definition couldNotFind (fullTypeName : string) (a : Attrs) : string :=
  "Could not find type '" ++ fullTypeName ++ "' for '" ++ Js.show (a !! "name") ++ "'".

(** A namespace in which every construct carries [introspectable="0"]. *)
Definition hidden (n : string) : GirConstruct :=
  element {[ "name" := n; "introspectable" := "0" ]}.

Definition hiddenNamespace : GirNamespace :=
  mkNamespace None (Some [hidden "HiddenCallback"]) (Some [hidden "HiddenClass"])
    (Some [hidden "HIDDEN_CONSTANT"]) (Some [hidden "HiddenEnum"])
    (Some [hidden "hidden_function"]) (Some [hidden "HiddenInterface"])
    (Some [hidden "HiddenRecord"]) (Some [hidden "HiddenUnion"])
    (Some [hidden "HiddenAlias"]).

(** The module of a namespace after [loadTypes] on an empty table. *)
Definition loadedModule (modName : string) (n : GirNamespace) : GirModule :=
  let '(n', dict, _) := loadTypes modName n (∅, []) in
  mkModule modName "3.0" n' dict [] ∅ ∅ sampleConfig idTransformation.

Definition hiddenModule : GirModule := loadedModule "Gtk" hiddenNamespace.

(** The view under construction holds a line. *)
Definition holds (line : string) (st : ViewState) : Prop := line ∈ vs_def st.

(** A view that may not have been completed holds the line if it has. *)
Definition holdsIfSome (line : string) (st : option ViewState) : Prop :=
  forall s, st = Some s -> holds line s.

(** ** Vocabulary of the further properties *)

(** Every entry of the table carries the key it is stored under as its
    [_fullSymName]. *)
Definition selfNamed (dict : SymTable) : Prop :=
  forall k g, dict !! k = Some g -> g_fullSymName g = Some k.

(** A construct that [loadTypesInternal] has entered carries the name it
    was entered under. *)
Definition stamped (modName : string) (g : GirConstruct) : Prop :=
  forall a, g_attrs g = Some a -> passesIntrospectable a = true ->
    g_fullSymName g = Some (symNameOf modName a).

(** A namespace with one class, one function and one constant. *)
Definition smallNamespace : GirNamespace :=
  mkNamespace None None
    (Some [element {[ "name" := "Widget" ]}])
    (Some [element {[ "name" := "MAJOR_VERSION" ]}])
    None
    (Some [element {[ "name" := "init" ]}])
    None None None None.

(** Each class of the list after the first is the parent the walk
    resolves for the class before it. *)
Fixpoint parentChain (this : GirModule) (l : list GirConstruct) : Prop :=
  match l with
  | c :: rest =>
      match rest with
      | p :: _ => nextParent this c = Some p /\ parentChain this rest
      | [] => True
      end
  | [] => True
  end.

(** The class is the root object class. *)
Definition isRootObject (c : GirConstruct) : bool :=
  bool_decide (g_fullSymName c = Some "GObject.Object").

(** Every character of the string passes the test. *)
Fixpoint allChars (p : ascii -> bool) (s : string) : bool :=
  match s with
  | EmptyString => true
  | String c r => p c && allChars p r
  end.

(** The string has no line terminator, none of the character [c]. *)
Definition onOneLine (s : string) : bool :=
  allChars (fun c => negb (isLineTerminator c)) s.

Definition free (c : ascii) (s : string) : bool :=
  allChars (fun d => negb (Ascii.eqb d c)) s.

(** A declaration line with the given head, parameters (name and type)
    and tail, as [getFunction] lays it out. *)
Definition declaration (head : string) (params : list (string * string))
    (tail : string) : string :=
  head ++ "(" ++ joinWith ", " (map (fun p => p.1 ++ ": " ++ p.2) params)
  ++ ")" ++ tail.

(** A piece of a declaration that holds no parenthesis and no star. *)
Definition plain (s : string) : bool :=
  free "(" s && free ")" s && free "*" s.

(** A member description that [checkName] can grant the name [n]: it has
    lines and a non-empty name. *)
Definition claimable (desc : list string) (name : option string) (n : string)
  : Prop :=
  desc ≠ [] /\ name = Some n /\ Js.truthy n = true.

(** The name under which [exportConstant] exports a construct. *)
Definition constantName (maps : TypeMaps) (this : GirModule) (e : GirConstruct)
  : option string :=
  match asVariable e with
  | Some v => (getVariable maps this v false false KConstant).1.2
  | None => None
  end.

(** Two constants called [ATTACHMENT]. *)
Definition attachment (ctype : string) : GirConstruct :=
  mkConstruct (Some {[ "name" := "ATTACHMENT"; "c:type" := ctype ]}) None None
    None None None None None None None None None None
    (Some [mkType (Some {[ "name" := "gint" ]}) None]) None None None None.


(** Every name listed in the inheritance table is qualified. *)
Definition allQualified (t : InheritanceTable) : Prop :=
  forall k l n, t !! k = Some l -> n ∈ l -> Js.hasDot n = true.

(** The classes of the module carry qualified names. *)
Definition classesQualified (this : GirModule) : Prop :=
  forall cls f, cls ∈ default [] (ns_class (ns this)) ->
    g_fullSymName cls = Some f -> Js.truthy f = true -> Js.hasDot f = true.

(** Module [Gtk] with the class [Button], child of [Widget], that
    implements [Buildable] and [Gio.Action]. *)
Definition buttonClass : GirConstruct :=
  classWith "Button" {[ "parent" := "Widget" ]}
    (Some [{[ "name" := "Buildable" ]}; {[ "name" := "Gio.Action" ]}]) None [].

Definition buttonModule : GirModule :=
  sampleModule "Gtk"
    (mkNamespace None None (Some [buttonClass]) None None None None None None
       None)
    {[ "Gtk.Button" := buttonClass ]}.

(** Module [Gtk] built as ambient types, with no construct at all. *)
Definition typesModule : GirModule :=
  mkModule "Gtk" "3.0" emptyNamespace ∅ [] ∅ ∅ (mkConfig Gjs BuildTypes false)
    idTransformation.

(** * Properties *)

(** ** Strings *)

Lemma append_assoc (a b c : string) : (a ++ b) ++ c = a ++ (b ++ c).
Proof.
  induction a as [|x a IH]; [done|].
  change (String x ((a ++ b) ++ c) = String x (a ++ b ++ c)). by f_equal.
Qed.

Lemma append_nil_r (a : string) : a ++ "" = a.
Proof.
  induction a as [|x a IH]; [done|].
  change (String x (a ++ "") = String x a). by f_equal.
Qed.

(** ** Attribute decoding *)

Lemma girBool_nonempty (s : string) (d : bool) :
  s ≠ "" ->
  girBool (Some s) d = match Js.parseInt s with Some 0%Z => false | _ => true end.
Proof. destruct s; [congruence | reflexivity]. Qed.

Lemma passesIntrospectable_spec (a : Attrs) (s : string) :
  a !! "introspectable" = Some s -> s ≠ "" ->
  passesIntrospectable a = negb (bool_decide (Js.parseInt s = Some 0%Z)).
Proof.
  intros Ha Hs. unfold passesIntrospectable. rewrite Ha.
  destruct s as [|c r]; [congruence|]. cbn [Js.truthyOpt Js.truthy].
  rewrite girBool_nonempty by congruence.
  destruct (Js.parseInt (String c r)) as [[| |]|]; reflexivity.
Qed.

(** C10.  A present, non-empty boolean attribute is decoded by [parseInt]:
    [girBool] answers false exactly when the string parses to the integer 0
    and true otherwise, whatever the default; so the symbol table leaves a
    construct out only when its [introspectable] string parses to 0
    (["0"], ["00"]) and takes it in for any other string (["false"]). *)
Theorem girBool_decodes_by_parseInt (s : string) (d : bool) :
  s ≠ "" ->
  (girBool (Some s) d = false <-> Js.parseInt s = Some 0%Z)
  /\ (Js.parseInt s ≠ Some 0%Z -> girBool (Some s) d = true)
  /\ (forall (modName : string) (dict : SymTable) (log : Log)
             (g : GirConstruct) (a : Attrs),
        g_attrs g = Some a -> a !! "introspectable" = Some s ->
        (Js.parseInt s = Some 0%Z ->
         loadTypeStep modName (dict, log) g = (dict, log, g))
        /\ (Js.parseInt s ≠ Some 0%Z ->
            (loadTypeStep modName (dict, log) g).1.1 !! symNameOf modName a
            = Some (stamp modName (symNameOf modName a) g)))
  /\ Js.parseInt "false" = None
  /\ Js.parseInt "0" = Some 0%Z
  /\ Js.parseInt "00" = Some 0%Z.
Proof.
  intros Hs.
  assert (Hg : girBool (Some s) d
               = match Js.parseInt s with Some 0%Z => false | _ => true end)
    by (by apply girBool_nonempty).
  split; [|split; [|split; [|by repeat split]]].
  - rewrite Hg. destruct (Js.parseInt s) as [[| |]|]; split; congruence.
  - rewrite Hg. destruct (Js.parseInt s) as [[| |]|]; congruence.
  - intros modName dict log g a Hga Ha. split; intros Hz.
    + unfold loadTypeStep. rewrite Hga.
      rewrite (passesIntrospectable_spec a s) by done.
      by rewrite bool_decide_eq_true_2.
    + unfold loadTypeStep. rewrite Hga.
      rewrite (passesIntrospectable_spec a s) by done.
      rewrite bool_decide_eq_false_2 by done. cbn.
      by rewrite lookup_insert_eq.
Qed.

Lemma girBool_decodes_by_parseInt_witness :
  (girBool (Some "false") true = false <-> Js.parseInt "false" = Some 0%Z)
  /\ girBool (Some "false") true = true.
Proof.
  assert (Hne : "false" ≠ "") by discriminate.
  pose proof (girBool_decodes_by_parseInt "false" true Hne) as (H1 & H2 & _).
  split; [exact H1 | apply H2; discriminate].
Defined.

(** ** Symbol table *)

Lemma loadTypeStep_other (modName : string) (st : SymTable * Log)
    (g : GirConstruct) (k : string) :
  insertKey modName g ≠ Some k ->
  (loadTypeStep modName st g).1.1 !! k = st.1 !! k.
Proof.
  destruct st as [dict log]. unfold insertKey, loadTypeStep.
  destruct (g_attrs g) as [a|]; [|done].
  destruct (passesIntrospectable a); [|done].
  intros Hk. cbn. rewrite lookup_insert_ne; [done|congruence].
Qed.

Lemma loadTypesLoop_cons (modName : string) (st : SymTable * Log)
    (g : GirConstruct) (gs : list GirConstruct) :
  (loadTypesLoop modName st (g :: gs)).1
  = (loadTypesLoop modName (loadTypeStep modName st g).1 gs).1.
Proof.
  cbn. destruct (loadTypeStep modName st g) as [st1 g'].
  cbn. by destruct (loadTypesLoop modName st1 gs).
Qed.

Lemma loadTypesLoop_other (modName : string) (gs : list GirConstruct)
    (st : SymTable * Log) (k : string) :
  (forall g', g' ∈ gs -> insertKey modName g' ≠ Some k) ->
  (loadTypesLoop modName st gs).1.1 !! k = st.1 !! k.
Proof.
  revert st. induction gs as [|g gs IH]; intros st Hgs; [done|].
  rewrite loadTypesLoop_cons, IH.
  - apply loadTypeStep_other, Hgs. by left.
  - intros g' Hg'. apply Hgs. by right.
Qed.

(** C1 (amended).  An insertion under a name that is already present
    emits the duplicate-symbol diagnostic and the table takes the construct
    being inserted in place of the earlier entry; it stays there through any
    further insertions under other names. *)
Theorem duplicate_symbol_warns_and_replaces (modName : string) (dict : SymTable)
    (log : Log) (g old : GirConstruct) (a : Attrs) :
  g_attrs g = Some a ->
  passesIntrospectable a = true ->
  dict !! symNameOf modName a = Some old ->
  let sym := symNameOf modName a in
  let g' := stamp modName sym g in
  loadTypeStep modName (dict, log) g
  = (<[sym := g']> dict, warn log ("Duplicate symbol: " ++ sym), g')
  /\ lookup_symbol (loadTypeStep modName (dict, log) g).1.1 sym = Some g'
  /\ forall gs : list GirConstruct,
       (forall h, h ∈ gs -> insertKey modName h ≠ Some sym) ->
       lookup_symbol
         (loadTypesLoop modName (loadTypeStep modName (dict, log) g).1 gs).1.1 sym
       = Some g'.
Proof.
  intros Hg Hp Hold sym g'.
  assert (Hstep : loadTypeStep modName (dict, log) g
                  = (<[sym := g']> dict, warn log ("Duplicate symbol: " ++ sym), g')).
  { subst sym g'. unfold loadTypeStep. rewrite Hg, Hp. cbn zeta. by rewrite Hold. }
  split; [exact Hstep|]. rewrite Hstep. cbn. unfold lookup_symbol.
  split; [by rewrite lookup_insert_eq|].
  intros gs Hgs. rewrite loadTypesLoop_other by done.
  cbn. by rewrite lookup_insert_eq.
Qed.

Lemma duplicate_symbol_warns_and_replaces_witness :
  lookup_symbol
    (loadTypeStep "Gtk"
       (<["Gtk.Foo" := stamp "Gtk" "Gtk.Foo" fooFirst]> ∅, []) fooSecond).1.1
    "Gtk.Foo"
  = Some (stamp "Gtk" "Gtk.Foo" fooSecond).
Proof.
  refine (proj1 (proj2 (duplicate_symbol_warns_and_replaces "Gtk"
            (<["Gtk.Foo" := stamp "Gtk" "Gtk.Foo" fooFirst]> ∅) [] fooSecond
            (stamp "Gtk" "Gtk.Foo" fooFirst)
            {[ "name" := "Foo"; "c:type" := "GtkFooNew" ]} _ _ _)));
    reflexivity.
Defined.

(** C1, as stated, fails: after [Foo] is inserted twice the diagnostic is
    there, and the lookup answers with the second declaration, not the one
    inserted first. *)
Lemma duplicate_symbol_keeps_first_counterexample :
  let '(st1, first) := loadTypeStep "Gtk" (∅, []) fooFirst in
  let '(st2, _) := loadTypeStep "Gtk" st1 fooSecond in
  lookup_symbol st1.1 "Gtk.Foo" = Some first
  /\ st2.2 = ["Duplicate symbol: Gtk.Foo"]
  /\ lookup_symbol st2.1 "Gtk.Foo" ≠ Some first.
Proof.
  vm_compute. repeat split. intros H.
  apply (f_equal (fun o : option GirConstruct =>
                    match o with
                    | Some g => attrOf (g_attrs g) "c:type"
                    | None => None
                    end)) in H.
  vm_compute in H. discriminate.
Qed.

(** ** Parameters *)

Section ParameterProperties.

Variable maps : TypeMaps.
Variable this : GirModule.








End ParameterProperties.


(** ** Return types *)

Section ReturnTypeProperties.

Variable maps : TypeMaps.
Variable toNumber : string -> option Z.
Variable this : GirModule.



Lemma packReturnType_single (o : string) : packReturnType "void" [o] = o.
Proof. reflexivity. Qed.




End ReturnTypeProperties.


(** ** The inheritance walk *)

Section WalkProperties.

Variable this : GirModule.

Section AnyCallback.

Variable St : Type.
Variable callback : GirConstruct -> St -> St.
Variable logWarn : string -> St -> St.

Lemma traverse_step (fuel : nat) (c : GirConstruct) (depth : nat)
    (recursive : bool) (st : St) :
  traverseInheritanceTreeFuel this St callback logWarn (S fuel) c depth
    recursive st
  = match getClassDetails this c with
    | None => Some st
    | Some d =>
        let parentPtr := resolveParent this d in
        let recursive' :=
          match circularParent c parentPtr with
          | Some _ => false
          | None => recursive
          end in
        let st' := replay callback logWarn (stepEvents this c parentPtr) st in
        if (MAXIMUM_RECUSION_DEPTH <=? depth)%nat
        then Some (logWarn (maximumDepthWarning c) st')
        else
          match parentPtr with
          | Some p =>
              if recursive' && (depth <=? MAXIMUM_RECUSION_DEPTH)%nat
              then traverseInheritanceTreeFuel this St callback logWarn fuel p
                     (S depth) recursive' st'
              else Some st'
          | None => Some st'
          end
    end.
Proof.
  cbn [traverseInheritanceTreeFuel]. unfold stepEvents.
  destruct (getClassDetails this c) as [d|]; [|reflexivity].
  cbv zeta. destruct (circularParent c (resolveParent this d)); reflexivity.
Qed.

(** The walk never runs out of the nested calls it is given. *)
Lemma traverse_fuel_total (fuel : nat) (c : GirConstruct) (depth : nat)
    (recursive : bool) (st : St) :
  S MAXIMUM_RECUSION_DEPTH - depth < fuel ->
  is_Some (traverseInheritanceTreeFuel this St callback logWarn fuel c depth
             recursive st).
Proof.
  revert c depth recursive st.
  induction fuel as [|fuel IH]; intros c depth recursive st Hf; [lia|].
  rewrite traverse_step.
  destruct (getClassDetails this c) as [d|]; [|by eexists].
  cbv zeta.
  destruct (MAXIMUM_RECUSION_DEPTH <=? depth)%nat eqn:Hd; [by eexists|].
  apply Nat.leb_gt in Hd.
  generalize (match circularParent c (resolveParent this d) with
              | Some _ => false
              | None => recursive
              end).
  intros r'.
  destruct (resolveParent this d) as [p|]; [|by eexists].
  destruct (r' && _); [|by eexists].
  apply IH. unfold MAXIMUM_RECUSION_DEPTH in *. lia.
Qed.

End AnyCallback.

Lemma replay_push (t t0 : list WalkEvent) :
  replay (fun c t => push t (Visit c)) (fun m t => push t (Warned m)) t t0
  = (t0 ++ t)%list.
Proof.
  revert t0. induction t as [|e t IH]; intros t0; cbn.
  - by rewrite app_nil_r.
  - unfold replay in IH. rewrite IH. unfold push.
    destruct e; by rewrite <- app_assoc.
Qed.

Lemma replay_app {St} (cb : GirConstruct -> St -> St) (lw : string -> St -> St)
    (t1 t2 : list WalkEvent) (st : St) :
  replay cb lw (t1 ++ t2) st = replay cb lw t2 (replay cb lw t1 st).
Proof. unfold replay. by rewrite fold_left_app. Qed.

(** A walk that starts on a trace appends to it what it appends to the
    empty trace. *)
Lemma trace_from (fuel : nat) (c : GirConstruct) (depth : nat)
    (recursive : bool) (t0 : list WalkEvent) :
  traceFuel this fuel c depth recursive t0
  = app t0 <$> traceFuel this fuel c depth recursive [].
Proof.
  revert c depth recursive t0.
  induction fuel as [|fuel IH]; intros c depth recursive t0; [reflexivity|].
  rewrite !traverse_step.
  destruct (getClassDetails this c) as [d|]; [|cbn; by rewrite app_nil_r].
  cbv zeta. rewrite !replay_push.
  generalize (stepEvents this c (resolveParent this d)).
  generalize (match circularParent c (resolveParent this d) with
              | Some _ => false
              | None => recursive
              end).
  intros r' ev. cbn [app].
  destruct (MAXIMUM_RECUSION_DEPTH <=? depth)%nat.
  { cbn. unfold push. by rewrite <- app_assoc. }
  destruct (resolveParent this d) as [p|]; [|reflexivity].
  destruct (r' && _); [|reflexivity].
  rewrite (IH p (S depth) r' (t0 ++ ev)%list), (IH p (S depth) r' ev).
  destruct (traceFuel this fuel p (S depth) r' []) as [t|]; cbn; [|reflexivity].
  by rewrite <- app_assoc.
Qed.

(** Any callback sees exactly the visits of the trace, in its order. *)
Lemma traverse_replay {St} (cb : GirConstruct -> St -> St)
    (lw : string -> St -> St) (fuel : nat) (c : GirConstruct) (depth : nat)
    (recursive : bool) (st : St) :
  traverseInheritanceTreeFuel this St cb lw fuel c depth recursive st
  = (fun t => replay cb lw t st) <$> traceFuel this fuel c depth recursive [].
Proof.
  revert c depth recursive st.
  induction fuel as [|fuel IH]; intros c depth recursive st; [reflexivity|].
  rewrite !traverse_step.
  destruct (getClassDetails this c) as [d|]; [|reflexivity].
  cbv zeta. rewrite replay_push.
  generalize (stepEvents this c (resolveParent this d)).
  generalize (match circularParent c (resolveParent this d) with
              | Some _ => false
              | None => recursive
              end).
  intros r' ev. cbn [app].
  destruct (MAXIMUM_RECUSION_DEPTH <=? depth)%nat.
  { cbn. unfold push. by rewrite replay_app. }
  destruct (resolveParent this d) as [p|]; [|reflexivity].
  destruct (r' && _); [|reflexivity].
  rewrite IH, (trace_from fuel p (S depth) r' ev).
  destruct (traceFuel this fuel p (S depth) r' []) as [t|]; cbn; [|reflexivity].
  by rewrite replay_app.
Qed.

Lemma visits_app (t1 t2 : list WalkEvent) :
  visits (t1 ++ t2) = (visits t1 ++ visits t2)%list.
Proof. apply omap_app. Qed.

Lemma visits_stepEvents (c : GirConstruct) (p : option GirConstruct) :
  visits (stepEvents this c p) = [c].
Proof. unfold stepEvents. by destruct (circularParent c p). Qed.

(** From depth [depth] the walk visits at most
    [MAXIMUM_RECUSION_DEPTH + 1 - depth] classes, and when it visits that
    many it ends on the visit at the bound and the warning about it. *)
Lemma trace_bound (fuel : nat) (c : GirConstruct) (depth : nat)
    (recursive : bool) (t : list WalkEvent) :
  depth <= MAXIMUM_RECUSION_DEPTH ->
  traceFuel this fuel c depth recursive [] = Some t ->
  length (visits t) <= S MAXIMUM_RECUSION_DEPTH - depth
  /\ (length (visits t) = S MAXIMUM_RECUSION_DEPTH - depth ->
      exists t' c', t = (t' ++ [Visit c'; Warned (maximumDepthWarning c')])%list).
Proof.
  revert c depth recursive t.
  induction fuel as [|fuel IH]; intros c depth recursive t Hd Ht; [done|].
  rewrite traverse_step in Ht.
  destruct (getClassDetails this c) as [d|].
  2:{ injection Ht as <-. cbn. split; lia. }
  cbv zeta in Ht. rewrite replay_push in Ht. cbn [app] in Ht.
  pose proof (visits_stepEvents c (resolveParent this d)) as Hv.
  assert (Hev : exists pre, stepEvents this c (resolveParent this d)
                            = (pre ++ [Visit c])%list).
  { unfold stepEvents. destruct (circularParent _ _);
      [by eexists [_]|by exists []]. }
  revert Ht Hv Hev.
  generalize (stepEvents this c (resolveParent this d)).
  generalize (match circularParent c (resolveParent this d) with
              | Some _ => false
              | None => recursive
              end).
  intros r' ev Ht Hv [pre Hev].
  destruct (MAXIMUM_RECUSION_DEPTH <=? depth)%nat eqn:Hmax.
  { apply Nat.leb_le in Hmax. injection Ht as <-. unfold push.
    rewrite visits_app, Hv. cbn. split; [lia|]. intros _.
    exists pre, c. rewrite Hev. by rewrite <- app_assoc. }
  apply Nat.leb_gt in Hmax.
  assert (Hstop : Some ev = Some t ->
            length (visits t) <= S MAXIMUM_RECUSION_DEPTH - depth
            /\ (length (visits t) = S MAXIMUM_RECUSION_DEPTH - depth ->
                exists t' c',
                  t = (t' ++ [Visit c'; Warned (maximumDepthWarning c')])%list)).
  { intros [= <-]. rewrite Hv. cbn. split; lia. }
  destruct (resolveParent this d) as [p|]; [|by apply Hstop].
  destruct (r' && _); [|by apply Hstop].
  rewrite trace_from in Ht.
  destruct (traceFuel this fuel p (S depth) r' []) as [t0|] eqn:Ht0; [|done].
  injection Ht as <-.
  destruct (IH p (S depth) r' t0 ltac:(lia) Ht0) as [Hle Heq].
  rewrite visits_app, Hv, length_app. cbn [length]. split; [lia|].
  intros Hl. destruct Heq as (t' & c' & ->); [lia|].
  exists (ev ++ t')%list, c'. by rewrite <- app_assoc.
Qed.

(** C6.  For every class and every visit callback the walk returns: it
    is the replay of a trace that visits at most 101 classes, the start
    and 100 ancestors, and a trace with 101 visits ends on the visit at
    depth 100 followed by the warning that the maximum recursion depth is
    reached, after which nothing is visited.  On the cycle of three
    classes it visits exactly 101. *)
Theorem walk_visits_at_most_101 (St : Type) (callback : GirConstruct -> St -> St)
    (logWarn : string -> St -> St) (girClass : GirConstruct) (st : St) :
  exists t,
    traceWalk this girClass 0 true = Some t
    /\ traverseInheritanceTree this St callback logWarn girClass 0 true st
       = Some (replay callback logWarn t st)
    /\ length (visits t) <= 101
    /\ (length (visits t) = 101 ->
        exists t' c', t = (t' ++ [Visit c'; Warned (maximumDepthWarning c')])%list)
    /\ (fun t3 => length (visits t3)) <$> traceWalk cycle3 (gtkClass "A" "B") 0 true
       = Some 101.
Proof.
  unfold traceWalk, traverseInheritanceTree.
  destruct (traverse_fuel_total (list WalkEvent)
              (fun c t => push t (Visit c)) (fun m t => push t (Warned m))
              (S (S MAXIMUM_RECUSION_DEPTH) - 0) girClass 0 true [])
    as [t Ht]; [unfold MAXIMUM_RECUSION_DEPTH; lia|].
  exists t. split; [exact Ht|].
  split; [by rewrite traverse_replay, Ht|].
  destruct (trace_bound _ _ _ _ _ (Nat.le_0_l _) Ht) as [Hle Heq].
  split; [exact Hle|]. split; [exact Heq|].
  vm_compute. reflexivity.
Qed.

(** C5 (amended).  When the parent a class resolves to declares that
    very class (by its full name) as its own parent, the walk emits the
    circular-dependency diagnostic, still invokes the visit callback for
    the class itself, and does not descend to the parent: below the depth
    bound the trace is the warning followed by the one visit.  So is the
    walk from [A] when [A] and [B] are each other's parent. *)
Theorem circular_parent_warns_and_stops (St : Type)
    (callback : GirConstruct -> St -> St) (logWarn : string -> St -> St)
    (girClass : GirConstruct) (d : ClassDetails) (parentName : string)
    (depth : nat) (recursive : bool) (st : St) :
  getClassDetails this girClass = Some d ->
  circularParent girClass (resolveParent this d) = Some parentName ->
  depth < MAXIMUM_RECUSION_DEPTH ->
  traceWalk this girClass depth recursive
  = Some [Warned (circularWarning parentName); Visit girClass]
  /\ traverseInheritanceTree this St callback logWarn girClass depth recursive st
     = Some (callback girClass (logWarn (circularWarning parentName) st))
  /\ g_fullSymName girClass = Some parentName
  /\ traceWalk cycle2 (gtkClass "A" "B") 0 true
     = Some [Warned (circularWarning "Gtk.A"); Visit (gtkClass "A" "B")].
Proof.
  intros Hd Hc Hdepth.
  assert (Hwalk : forall St' (cb : GirConstruct -> St' -> St')
                         (lw : string -> St' -> St') (s : St'),
            traverseInheritanceTree this St' cb lw girClass depth recursive s
            = Some (cb girClass (lw (circularWarning parentName) s))).
  { intros St' cb lw s. unfold traverseInheritanceTree.
    replace (S (S MAXIMUM_RECUSION_DEPTH) - depth)
      with (S (S MAXIMUM_RECUSION_DEPTH - depth))
      by (unfold MAXIMUM_RECUSION_DEPTH in *; lia).
    rewrite traverse_step, Hd. cbv zeta. unfold stepEvents. rewrite Hc.
    apply Nat.leb_gt in Hdepth. rewrite Hdepth. cbn [andb replay fold_left].
    by destruct (resolveParent this d). }
  split; [apply Hwalk|]. split; [apply Hwalk|]. split.
  - unfold circularParent in Hc.
    destruct (resolveParent this d) as [p|]; [|done].
    destruct (attrOf (g_attrs p) "parent") as [pn|]; [|done].
    destruct (bool_decide _) eqn:Hb; [|done].
    apply bool_decide_eq_true_1 in Hb. congruence.
  - vm_compute. reflexivity.
Qed.

End WalkProperties.

Lemma walk_visits_at_most_101_witness :
  exists t, traceWalk cycle3 (gtkClass "A" "B") 0 true = Some t
            /\ length (visits t) <= 101.
Proof.
  destruct (walk_visits_at_most_101 cycle3 unit (fun _ s => s) (fun _ s => s)
              (gtkClass "A" "B") tt) as (t & H1 & _ & H3 & _).
  exists t. split; assumption.
Defined.

Lemma circular_parent_warns_and_stops_witness :
  traceWalk cycle2 (gtkClass "A" "B") 0 true
  = Some [Warned (circularWarning "Gtk.A"); Visit (gtkClass "A" "B")].
Proof.
  refine (proj1 (circular_parent_warns_and_stops cycle2 unit (fun _ s => s)
                   (fun _ s => s) (gtkClass "A" "B")
                   (mkClassDetails "A" "Gtk.A" (Some "B") (Some "Gtk.B") (Some "B"))
                   "Gtk.A" 0 true tt _ _ _));
    [vm_compute; reflexivity | vm_compute; reflexivity
     | unfold MAXIMUM_RECUSION_DEPTH; lia].
Defined.

(** C5, as stated, fails on a cycle of three: walking from [A], the parent
    of [C] is the starting class [A] again, yet no circular-dependency
    diagnostic is emitted and the walk goes on through the cycle until the
    depth bound, visiting 101 classes. *)
Lemma cycle_of_three_counterexample :
  nextParent cycle3 (gtkClass "A" "B") = Some (gtkClass "B" "C")
  /\ nextParent cycle3 (gtkClass "B" "C") = Some (gtkClass "C" "A")
  /\ nextParent cycle3 (gtkClass "C" "A") = Some (gtkClass "A" "B")
  /\ g_fullSymName (gtkClass "A" "B") = Some "Gtk.A"
  /\ exists t, traceWalk cycle3 (gtkClass "A" "B") 0 true = Some t
               /\ (forall parentName, Warned (circularWarning parentName) ∉ t)
               /\ length (visits t) = 101.
Proof.
  split; [vm_compute; reflexivity|].
  split; [vm_compute; reflexivity|].
  split; [vm_compute; reflexivity|].
  split; [reflexivity|].
  destruct (traverse_fuel_total cycle3 (list WalkEvent)
              (fun c t => push t (Visit c)) (fun m t => push t (Warned m))
              (S (S MAXIMUM_RECUSION_DEPTH) - 0) (gtkClass "A" "B") 0 true [])
    as [t Ht]; [unfold MAXIMUM_RECUSION_DEPTH; lia|].
  change (traceWalk cycle3 (gtkClass "A" "B") 0 true = Some t) in Ht.
  exists t. split; [exact Ht|].
  assert (Hw : warnings t = ["Maximum recursion depth of 100 reached for "
                             ++ Js.dq ++ "B" ++ Js.dq]).
  { apply (f_equal (fmap warnings)) in Ht. vm_compute in Ht. by injection Ht. }
  assert (Hv : length (visits t) = 101).
  { apply (f_equal (fmap (fun t => length (visits t)))) in Ht.
    vm_compute in Ht. by injection Ht. }
  split; [|exact Hv].
  intros pn Hin.
  assert (Hin' : circularWarning pn ∈ warnings t).
  { unfold warnings. apply list_elem_of_omap.
    exists (Warned (circularWarning pn)). split; [exact Hin|reflexivity]. }
  rewrite Hw in Hin'. apply list_elem_of_singleton in Hin'.
  unfold circularWarning in Hin'. discriminate Hin'.
Qed.

(** ** Signature canonicalization *)

Lemma stripParamNames_malformed (f : string) (ignoreTail : bool) :
  length (splitOn "(" (Regex.removeComments f)) < 2 ->
  stripParamNames f ignoreTail
  = (Throws "TypeError: Cannot read properties of undefined (reading 'split')",
     ["Bad function definition " ++ f]).
Proof.
  intros H. unfold stripParamNames.
  destruct (splitOn "(" (Regex.removeComments f)) as [|a [|b l]]; cbn in H; try lia;
    reflexivity.
Qed.

Lemma stripParamNames_wellformed (f : string) (ignoreTail : bool) :
  2 <= length (splitOn "(" (Regex.removeComments f)) ->
  exists r, stripParamNames f ignoreTail = (Ok r, []).
Proof.
  intros H. unfold stripParamNames.
  destruct (splitOn "(" (Regex.removeComments f)) as [|a [|b l]]; cbn in H; try lia.
  eexists. reflexivity.
Qed.

(** C8, on the code.  Canonicalization removes comments and strips the
    parameter names of a declaration with a parenthesis, but on a string
    without one it reports the bad function definition and then throws
    instead of returning, and the comparison of signatures throws with it. *)
Theorem stripParamNames_throws_on_malformed :
  stripParamNames "    /* x */ f(a: number, b?: string): void" false
  = (Ok "     f(: number, ?: string): void", [])
  /\ (forall f ignoreTail,
        2 <= length (splitOn "(" (Regex.removeComments f)) ->
        exists r, stripParamNames f ignoreTail = (Ok r, []))
  /\ (forall f ignoreTail,
        length (splitOn "(" (Regex.removeComments f)) < 2 ->
        stripParamNames f ignoreTail
        = (Throws "TypeError: Cannot read properties of undefined (reading 'split')",
           ["Bad function definition " ++ f]))
  /\ stripParamNames "foo" false
     = (Throws "TypeError: Cannot read properties of undefined (reading 'split')",
        ["Bad function definition foo"])
  /\ functionSignaturesMatch ["foo"] ["    foo(): void"]
     = (Throws "TypeError: Cannot read properties of undefined (reading 'split')",
        ["Bad function definition foo"]).
Proof.
  split; [reflexivity|].
  split; [exact stripParamNames_wellformed|].
  split; [exact stripParamNames_malformed|].
  split; reflexivity.
Qed.

(** ** Overload reconciliation *)

Lemma bind_Ok {A B} (m : Exc A) (f : A -> Exc B) (b : B) (w : Log) :
  bind m f = (Ok b, w) ->
  exists a w1 w2, m = (Ok a, w1) /\ f a = (Ok b, w2) /\ w = (w1 ++ w2)%list.
Proof.
  unfold bind. destruct m as [[a| |] w1]; try discriminate.
  destruct (f a) as [r w2] eqn:Hf. intros [= -> <-]. by exists a, w1, w2.
Qed.







(** *** The loops return on declarations with a parenthesis *)










(** *** The getters of the class view *)


Lemma localHas_localSet (localNames : LocalNames) (n k : string) :
  localHas localNames k = true -> localHas (localSet localNames n) k = true.
Proof.
  unfold localHas, localSet. destruct (String.eqb n "__proto__"); [done|].
  intros [H|H]%orb_true_iff; apply orb_true_iff; [left|by right].
  apply bool_decide_eq_true in H. apply bool_decide_eq_true. set_solver.
Qed.

Lemma localHas_localSet_same (localNames : LocalNames) (n : string) :
  localHas localNames n = false -> localHas (localSet localNames n) n = true.
Proof.
  unfold localHas, localSet. intros [_ H]%orb_false_iff.
  destruct (String.eqb_spec n "__proto__") as [->|_]; [by vm_compute in H|].
  apply orb_true_iff. left. apply bool_decide_eq_true. set_solver.
Qed.






(** ** Type resolution *)

Lemma append_cons (c : ascii) (a b : string) : String c a ++ b = String c (a ++ b).
Proof. reflexivity. Qed.

Lemma prefix_drop (p s : string) :
  String.prefix p s = true -> s = p ++ dropChars (String.length p) s.
Proof.
  revert s. induction p as [|a p IH]; intros s H; [reflexivity|].
  destruct s as [|b s]; [discriminate|]. cbn in H.
  destruct (ascii_dec a b) as [->|]; [|discriminate].
  rewrite append_cons. cbn [String.length dropChars]. f_equal. by apply IH.
Qed.

Lemma prefix_append (p s : string) : String.prefix p (p ++ s) = true.
Proof.
  induction p as [|a p IH]; [by destruct s|].
  rewrite append_cons. cbn. by destruct (ascii_dec a a).
Qed.

Lemma dropChars_append (p s : string) : dropChars (String.length p) (p ++ s) = s.
Proof. induction p as [|a p IH]; [by destruct s|]. by rewrite append_cons. Qed.

Lemma length_append (a b : string) :
  String.length (a ++ b) = String.length a + String.length b.
Proof.
  induction a as [|c a IH]; [reflexivity|].
  rewrite append_cons. cbn. by rewrite IH.
Qed.

Lemma hasDot_append_dot (a b : string) : Js.hasDot (a ++ "." ++ b) = true.
Proof.
  induction a as [|c a IH]; [reflexivity|].
  rewrite append_cons. cbn. by destruct (Ascii.eqb c ".").
Qed.

Lemma hasDot_truthy (s : string) : Js.hasDot s = true -> Js.truthy s = true.
Proof. by destruct s. Qed.

Lemma splitOn_nonempty (sep : ascii) (s : string) : splitOn sep s ≠ [].
Proof.
  destruct s as [|c s]; [done|]. cbn.
  destruct (Ascii.eqb c sep); [done|]. by destruct (splitOn sep s).
Qed.

Lemma join_split (s : string) : joinWith "." (splitOn "." s) = s.
Proof.
  unfold joinWith. induction s as [|c s IH]; [reflexivity|].
  cbn [splitOn]. pose proof (splitOn_nonempty "." s) as Hne.
  destruct (splitOn "." s) as [|p ps]; [done|].
  destruct (Ascii.eqb_spec c ".") as [->|Hc].
  - change (String "." (String.concat "." (p :: ps)) = String "." s). by f_equal.
  - destruct ps as [|q ps].
    + cbn in IH. cbn. by f_equal.
    + change (String c (String.concat "." (p :: q :: ps)) = String c s). by f_equal.
Qed.

Section TypeResolverProperties.

Variable maps : TypeMaps.
Variable this : GirModule.

(** What [typeLookup] does on a node that carries only a name that the
    tables of primitive types do not answer. *)
Lemma typeLookup_typeNode (a : Attrs) (m : option string) (n : string)
    (out : bool) :
  paramIsNullable a = false ->
  isGLibList (Some n) = false ->
  tableGet (POD_TYPE_MAP maps) n = None ->
  tableGet (FULL_TYPE_MAP maps (environment (config this)) out) n = None ->
  typeLookup maps this (typeNode a m n) out
  = if negb (Js.truthy (name this)) then ("any", [])
    else
      let F := qualifiedNameOf this m n in
      if negb (Js.truthy F) || negb (bool_decide (is_Some (symTable this !! F)))
      then ("any", [couldNotFind F a])
      else if startsWith (name this ++ ".") F
           then (dropChars (String.length (name this) + 1) F, [])
           else (F, []).
Proof.
  intros Hnull Hlist Hpod Hfull.
  assert (Hn : ({[ "name" := n ]} : Attrs) !! "name" = Some n)
    by apply lookup_singleton_eq.
  assert (Hc : ({[ "name" := n ]} : Attrs) !! "c:type" = None)
    by (by apply lookup_singleton_ne).
  unfold typeLookup, typeNode.
  cbn [v_array v_type v_callback v_attrs firstAttrs attrOf t_attrs t_type head
       option_map].
  rewrite Hn, Hlist. unfold resolveType.
  cbn [v_callback v_attrs]. rewrite Hnull. unfold resolveNamed.
  rewrite Hn, Hc. cbn [Js.truthy Js.show Js.truthyOpt v_attrs v_module].
  rewrite Hpod.
  destruct (negb (Js.truthy (name this))); [reflexivity|].
  unfold qualify. rewrite Hfull. cbv zeta. unfold qualifiedNameOf.
  cbn [v_module].
  destruct (negb (Js.hasDot n)); cbn [Js.truthyOpt Js.show];
    (destruct (_ || _); [reflexivity|]);
    destruct (startsWith _ _); by rewrite ?append_nil_r.
Qed.

Lemma qualifiedNameOf_hasDot (m : option string) (n : string) :
  Js.hasDot (qualifiedNameOf this m n) = true.
Proof.
  unfold qualifiedNameOf. destruct (Js.hasDot n) eqn:Hn; cbn [negb]; [done|].
  apply hasDot_append_dot.
Qed.

(** C9 (amended).  Resolution is idempotent on names resolved through
    the symbol table: when a node without array, nullable or callback
    shape and without C type, whose name the tables of primitive types do
    not answer, resolves without a warning to [r], and [r] is not a key of
    those tables either, then a node carrying [r] resolves to [r] again,
    provided an unqualified [r] is resolved for a node of the resolving
    module and a qualified [r] is itself a name of the table outside that
    module.  The transformed resolution agrees when the type-name
    transform leaves the components of [r] alone. *)
Theorem typeLookup_idempotent_on_symbols (a : Attrs) (m : option string)
    (n r : string) (out : bool) :
  paramIsNullable a = false ->
  isGLibList (Some n) = false ->
  tableGet (POD_TYPE_MAP maps) n = None ->
  tableGet (FULL_TYPE_MAP maps (environment (config this)) out) n = None ->
  typeLookup maps this (typeNode a m n) out = (r, []) ->
  isGLibList (Some r) = false ->
  tableGet (POD_TYPE_MAP maps) r = None ->
  tableGet (FULL_TYPE_MAP maps (environment (config this)) out) r = None ->
  (Js.hasDot r = false -> m = None \/ m = Some (name this)) ->
  (Js.hasDot r = true ->
   is_Some (symTable this !! r) /\ startsWith (name this ++ ".") r = false) ->
  typeLookup maps this (typeNode a m r) out = (r, [])
  /\ ((forall piece, piece ∈ splitOn "." r ->
                     transformTypeName (transformation this) piece = piece) ->
      typeLookupTransformed maps this (typeNode a m r) out = (r, [])).
Proof.
  intros Hnull Hl Hp Hf H Hl' Hp' Hf' Hlocal Hqual.
  assert (Hgoal : typeLookup maps this (typeNode a m r) out = (r, [])).
  { rewrite typeLookup_typeNode in H by done.
    rewrite typeLookup_typeNode by done.
    destruct (negb (Js.truthy (name this))); [exact H|].
    cbv zeta in *.
    set (F := qualifiedNameOf this m n) in *.
    destruct (negb (Js.truthy F) || negb (bool_decide (is_Some (symTable this !! F))))
      eqn:Hfound; [discriminate H|].
    apply orb_false_iff in Hfound as [HFt HFin].
    destruct (Js.hasDot r) eqn:Hdot.
    - (* a qualified result *)
      destruct (Hqual eq_refl) as [Hin Hpre].
      unfold qualifiedNameOf. rewrite Hdot. cbn [negb].
      rewrite (hasDot_truthy r Hdot), (bool_decide_eq_true_2 _ Hin), Hpre.
      reflexivity.
    - (* an unqualified result: the local name of a symbol of this module *)
      destruct (startsWith (name this ++ ".") F) eqn:Hpre.
      2:{ injection H as <-. subst F. by rewrite qualifiedNameOf_hasDot in Hdot. }
      injection H as Hr.
      assert (HF : F = name this ++ "." ++ r).
      { rewrite (prefix_drop _ _ Hpre) at 1.
        rewrite length_append. change (String.length ".") with 1.
        by rewrite Hr, append_assoc. }
      assert (HF' : qualifiedNameOf this m r = F).
      { unfold qualifiedNameOf. rewrite Hdot, HF. cbn [negb].
        by destruct (Hlocal eq_refl) as [-> | ->]. }
      rewrite HF', HFt, HFin, Hpre. cbn [orb]. by rewrite Hr. }
  split; [exact Hgoal|].
  intros Htr. unfold typeLookupTransformed. rewrite Hgoal.
  f_equal. rewrite <- (join_split r) at 2. f_equal.
  rewrite <- (map_id (splitOn "." r)) at 2.
  apply map_ext_in. intros piece Hin. apply Htr. by apply list_elem_of_In.
Qed.

End TypeResolverProperties.

Lemma typeLookup_idempotent_on_symbols_witness :
  typeLookup sampleMaps resolverModule (typeNode ∅ None "Widget") true
  = ("Widget", []).
Proof.
  refine (proj1 (typeLookup_idempotent_on_symbols sampleMaps resolverModule ∅ None
                   "Gtk.Widget" "Widget" true _ _ _ _ _ _ _ _ _ _));
    try reflexivity.
  - intros _. by left.
  - intros H. discriminate H.
Defined.

(** C9, as stated, fails: a nullable node named [Gio.File] resolves to
    [Gio.File | null], and a node carrying that string resolves to [any]
    with a warning; with a table entry for [gint], a node named [gint]
    resolves to [number], and a node carrying [number] resolves to [any]. *)
Lemma typeLookup_not_idempotent_counterexample :
  typeLookup sampleMaps resolverModule
    (typeNode {[ "nullable" := "1" ]} None "Gio.File") true
  = ("Gio.File | null", [])
  /\ typeLookup sampleMaps resolverModule
       (typeNode {[ "nullable" := "1" ]} None "Gio.File | null") true
     = ("any", ["Could not find type 'Gio.File | null' for 'undefined'"])
  /\ typeLookup sampleMaps resolverModule (typeNode ∅ None "gint") true
     = ("number", [])
  /\ typeLookup sampleMaps resolverModule (typeNode ∅ None "number") true
     = ("any", ["Could not find type 'Gtk.number' for 'undefined'"])
  /\ typeLookup sampleMaps resolverModule (typeNode ∅ (Some "Gio") "Gtk.Widget") true
     = ("Widget", [])
  /\ typeLookup sampleMaps resolverModule (typeNode ∅ (Some "Gio") "Widget") true
     = ("any", ["Could not find type 'Gio.Widget' for 'undefined'"]).
Proof. repeat split; vm_compute; reflexivity. Qed.

(** ** Invariants of the walkers *)

Lemma replay_preserves {St} (P : St -> Prop) (cb : GirConstruct -> St -> St)
    (lw : string -> St -> St) :
  (forall c s, P s -> P (cb c s)) ->
  (forall m s, P s -> P (lw m s)) ->
  forall t s, P s -> P (replay cb lw t s).
Proof.
  intros Hcb Hlw t. unfold replay.
  induction t as [|e t IH]; intros s Hs; [done|].
  cbn. apply IH. destruct e; auto.
Qed.

Lemma traverse_preserves {St} (P : St -> Prop) (this : GirModule)
    (cb : GirConstruct -> St -> St) (lw : string -> St -> St)
    (c : GirConstruct) (depth : nat) (recursive : bool) (s s' : St) :
  (forall c s, P s -> P (cb c s)) ->
  (forall m s, P s -> P (lw m s)) ->
  traverseInheritanceTree this St cb lw c depth recursive s = Some s' ->
  P s -> P s'.
Proof.
  intros Hcb Hlw H Hs. unfold traverseInheritanceTree in H.
  rewrite traverse_replay in H.
  destruct (traceFuel this _ c depth recursive []) as [t|]; [|discriminate].
  injection H as <-. by apply replay_preserves.
Qed.

Lemma forEachInterface_preserves {St} (P : St -> Prop) (this : GirModule)
    (cb : GirConstruct -> St -> St) (fuel : nat) :
  (forall c s, P s -> P (cb c s)) ->
  forall (c : GirConstruct) (recurseObjects : bool) (s : St) (dups : gset string)
         (r : St * gset string),
    forEachInterfaceFuel this St cb fuel c recurseObjects (s, dups) = Some r ->
    P s -> P r.1.
Proof.
  intros Hcb. induction fuel as [|fuel IH]; intros c ro s dups r H Hs; [discriminate|].
  cbn [forEachInterfaceFuel] in H.
  set (loop := fix loop (impls : list Attrs) (st : St * gset string) := _) in H.
  assert (Hloop : forall impls st r', loop impls st = Some r' -> P st.1 -> P r'.1).
  { induction impls as [|a rest IHl]; intros [s0 d0] r' Hl Hp.
    - by injection Hl as <-.
    - cbn in Hl. destruct (bool_decide _); [by eapply IHl|].
      destruct (symTable this !! _) as [iface|]; [|by eapply IHl].
      destruct (forEachInterfaceFuel this St cb fuel iface ro _) as [st'|] eqn:Hrec;
        [|discriminate].
      eapply IHl; [exact Hl|]. destruct st'. eapply IH; [exact Hrec|]. by apply Hcb. }
  destruct (loop _ (s, dups)) as [[s1 d1]|] eqn:Hl; [|discriminate].
  assert (Hs1 : P s1) by (by apply (Hloop _ _ _ Hl)).
  clearbody loop.
  destruct (g_prerequisite c) as [pre|]; [|by injection H as <-].
  destruct (match pre with [] => None | p :: _ => p !! "name" end) as [pn|];
    [|by injection H as <-].
  destruct (negb (Js.truthy pn)); [by injection H as <-|].
  destruct (bool_decide _); [by injection H as <-|].
  destruct (symTable this !! _) as [parentPtr|]; [|by injection H as <-].
  destruct (_ || ro); [|by injection H as <-].
  eapply IH; [exact H|]. by apply Hcb.
Qed.

(** ** The class emitter *)

Section ClassHead.

Variable maps : TypeMaps.
Variable toNumber : string -> option Z.
Variable templates : TemplateProcessor.
Variable this : GirModule.
Variable line : string.

Lemma viewWarn_holds (m : string) (st : ViewState) :
  holds line st -> holds line (viewWarn m st).
Proof. done. Qed.

Lemma viewProperties_holds (cls : GirConstruct) (st : ViewState) :
  holds line st -> holds line (viewProperties maps this cls st).
Proof.
  unfold holds, viewProperties.
  destruct (processProperties maps this cls _ _) as [[[d ln] pn] w]. cbn.
  intros H. apply elem_of_app. by left.
Qed.

Lemma viewFields_holds (cls : GirConstruct) (st : ViewState) :
  holds line st -> holds line (viewFields maps this cls st).
Proof.
  unfold holds, viewFields.
  destruct (processFields maps this cls _) as [[d ln] w]. cbn.
  intros H. apply elem_of_app. by left.
Qed.

Lemma viewMethods_holds (cls : GirConstruct) (st : ViewState) :
  holds line st -> holds line (viewMethods maps toNumber this cls st).
Proof.
  unfold holds, viewMethods.
  destruct (processMethods maps toNumber this cls _) as [[d ln] w]. cbn.
  intros H. apply elem_of_app. by left.
Qed.

Lemma viewVirtualMethods_holds (cls : GirConstruct) (st : ViewState) :
  holds line st -> holds line (viewVirtualMethods maps toNumber this cls st).
Proof.
  unfold holds, viewVirtualMethods.
  destruct (processVirtualMethods maps toNumber this cls) as [d w]. cbn.
  intros H. apply elem_of_app. by left.
Qed.

Lemma viewSignals_holds (n : string) (cls : GirConstruct) (st : ViewState) :
  holds line st -> holds line (viewSignals maps toNumber templates this n cls st).
Proof.
  unfold holds, viewSignals.
  destruct (processSignals maps toNumber templates this cls n) as [d w]. cbn.
  intros H. apply elem_of_app. by left.
Qed.

Lemma viewTraverse_holds (visit : GirConstruct -> ViewState -> ViewState)
    (girClass : GirConstruct) (st : option ViewState) :
  (forall c s, holds line s -> holds line (visit c s)) ->
  holdsIfSome line st -> holdsIfSome line (viewTraverse this visit girClass st).
Proof.
  intros Hv Hst s' H. unfold viewTraverse in H.
  destruct st as [s|]; [|discriminate]. cbn in H.
  apply (traverse_preserves (holds line) this visit viewWarn girClass 0 true s s' Hv
           viewWarn_holds H).
  by apply Hst.
Qed.

Lemma viewInterfaces_holds (fuel : nat)
    (visit : GirConstruct -> ViewState -> ViewState)
    (girClass : GirConstruct) (st : option ViewState) :
  (forall c s, holds line s -> holds line (visit c s)) ->
  holdsIfSome line st ->
  holdsIfSome line (viewInterfaces this fuel visit girClass st).
Proof.
  intros Hv Hst s' H. unfold viewInterfaces in H.
  destruct st as [s|]; [|discriminate]. cbn in H.
  destruct (forEachInterfaceFuel this ViewState visit fuel girClass false (s, ∅))
    as [r|] eqn:Hr; [|discriminate].
  injection H as <-.
  apply (forEachInterface_preserves (holds line) this visit fuel Hv girClass false
           s ∅ r Hr).
  by apply Hst.
Qed.

End ClassHead.

(** Whenever the class emitter returns for an element with attributes, the
    opening line of the view is among the lines, whatever the element's
    [introspectable] attribute says. *)
Lemma exportClassInternal_head (maps : TypeMaps) (toNumber : string -> option Z)
    (templates : TemplateProcessor) (this : GirModule) (fuel : nat)
    (girClass : GirConstruct) (record isAbstract : bool) (d : ClassDetails)
    (defs : list string) (w : Log) :
  getClassDetails this girClass = Some d ->
  exportClassInternal maps toNumber templates this fuel girClass record isAbstract
  = (Ok defs, w) ->
  let isAbstract' :=
    isAbstract
    || Js.truthyOpt (attrOf (g_attrs girClass) "glib:is-gtype-struct-for") in
  classHead this girClass (cd_name d) (cd_localParentName d) isAbstract'
    (inheritance (config this) && negb record && negb isAbstract')
  ∈ defs.
Proof.
  intros Hd H isAbstract'. unfold exportClassInternal in H. rewrite Hd in H.
  fold isAbstract' in H.
  set (asInterface := inheritance (config this) && negb record && negb isAbstract') in *.
  set (head := classHead this girClass (cd_name d) (cd_localParentName d)
                 isAbstract' asInterface) in *.
  apply bind_Ok in H as (props & ? & ? & _ & H & ->).
  destruct (if record then processFields maps this girClass ∅ else ([], ∅, []))
    as [[fields localNames] wf].
  apply bind_Ok in H as (? & ? & ? & _ & H & ->).
  assert (Hhead : head ∈ (push props head ++ fields)%list).
  { apply elem_of_app. left. apply elem_of_app. right. by left. }
  revert H Hhead. generalize (push props head ++ fields)%list. intros def1 H Hhead.
  apply bind_Ok in H as ([def2 propertyNames] & ? & ? & Hbranch & H & ->).
  assert (Hdef2 : head ∈ def2).
  { destruct asInterface.
    - apply bind_Ok in Hbranch as ([ms ln] & ? & ? & _ & Hbranch & ->).
      apply bind_Ok in Hbranch as ([[ps ?] pn] & ? & ? & _ & Hbranch & ->).
      apply bind_Ok in Hbranch as ([vs ?] & ? & ? & _ & Hbranch & ->).
      apply bind_Ok in Hbranch as (ss & ? & ? & _ & Hbranch & ->).
      apply bind_Ok in Hbranch as (derived & ? & ? & _ & Hbranch & ->).
      injection Hbranch as <- _ _. apply elem_of_app. by left.
    - match type of Hbranch with
      | match ?final with _ => _ end = _ =>
          assert (Hst : holdsIfSome head final);
            [|destruct final as [st|]; [|discriminate]]
      end.
      { repeat first
          [ apply viewTraverse_holds
          | apply viewInterfaces_holds
          | apply viewProperties_holds | apply viewFields_holds
          | apply viewMethods_holds | apply viewVirtualMethods_holds
          | apply viewSignals_holds ].
        by intros s [= <-]. }
      injection Hbranch as <- _ _. by apply Hst. }
  apply bind_Ok in H as (notify & ? & ? & _ & H & ->).
  apply bind_Ok in H as (statics & ? & ? & _ & H & ->).
  injection H as <- _. unfold push.
  apply elem_of_app. left. apply elem_of_app. left.
  destruct asInterface; repeat (apply elem_of_app; left); done.
Qed.

(** ** Namespace emission *)

Lemma girBool_zero (d : bool) : girBool (Some "0") d = false.
Proof. reflexivity. Qed.

(** The emitters of enumerations, callbacks, aliases, functions and
    constants leave out a construct with [introspectable="0"]. *)
Lemma non_introspectable_siblings (maps : TypeMaps) (toNumber : string -> option Z)
    (this : GirModule) (e : GirConstruct) (a : Attrs) :
  g_attrs e = Some a ->
  a !! "introspectable" = Some "0" ->
  exportEnumeration this e = []
  /\ exportCallback maps toNumber this e = (Ok [], [])
  /\ exportAlias maps this e = (Ok [], [])
  /\ exportFunction maps toNumber this e = (Ok [], [])
  /\ forall constNames,
       exportConstant maps this e constNames = (Ok ([], constNames), []).
Proof.
  intros Ha Hi. repeat split.
  - unfold exportEnumeration. by rewrite Ha, Hi.
  - unfold exportCallback. by rewrite Ha, Hi.
  - unfold exportAlias, asVariable. rewrite Ha. cbn [v_attrs]. by rewrite Hi.
  - unfold exportFunction, getFunction, asFunction. cbn [f_attrs].
    by rewrite Ha, Hi.
  - intros constNames. unfold exportConstant, asVariable, getVariable. rewrite Ha.
    cbn [v_attrs]. rewrite Hi.
    destruct (a !! "name") as [vname|]; [|reflexivity].
    by destruct (Js.truthy vname).
Qed.

(** C2, on the code.  Enumerations, callbacks, aliases, functions and
    constants with [introspectable="0"] are left out of the declaration
    file and the symbol table takes none of the constructs, but the class
    emitter does not look at the attribute: whenever it returns, the opening
    line of the view is emitted, and the class, the interface, the record
    and the union with [introspectable="0"] are all declared. *)
Theorem non_introspectable_class_is_exported :
  (forall maps toNumber this e a,
     g_attrs e = Some a ->
     a !! "introspectable" = Some "0" ->
     exportEnumeration this e = []
     /\ exportCallback maps toNumber this e = (Ok [], [])
     /\ exportAlias maps this e = (Ok [], [])
     /\ exportFunction maps toNumber this e = (Ok [], [])
     /\ forall constNames,
          exportConstant maps this e constNames = (Ok ([], constNames), []))
  /\ (forall maps toNumber templates this fuel girClass record isAbstract d defs w,
        getClassDetails this girClass = Some d ->
        exportClassInternal maps toNumber templates this fuel girClass record
          isAbstract = (Ok defs, w) ->
        let isAbstract' :=
          isAbstract
          || Js.truthyOpt (attrOf (g_attrs girClass) "glib:is-gtype-struct-for") in
        classHead this girClass (cd_name d) (cd_localParentName d) isAbstract'
          (inheritance (config this) && negb record && negb isAbstract')
        ∈ defs)
  /\ symTable hiddenModule = ∅
  /\ export sampleMaps decimalNumber noTemplates sampleEmitter hiddenModule 10
     = (Ok [""; "";
            "export class HiddenInterface {"; "    static name: string"; "}";
            "export class HiddenClass {"; "    static name: string"; "}";
            "export class HiddenRecord {"; "    static name: string"; "}";
            "export class HiddenUnion {"; "}"],
        []).
Proof.
  split; [exact non_introspectable_siblings|].
  split; [exact exportClassInternal_head|].
  split; vm_compute; reflexivity.
Qed.

(** * Further properties of the translator *)

(** ** Symbol table population *)

Lemma loadTypesLoop_snd_cons (modName : string) (st : SymTable * Log)
    (g : GirConstruct) (gs : list GirConstruct) :
  (loadTypesLoop modName st (g :: gs)).2
  = (loadTypeStep modName st g).2
    :: (loadTypesLoop modName (loadTypeStep modName st g).1 gs).2.
Proof.
  cbn. destruct (loadTypeStep modName st g) as [st1 g'].
  cbn. by destruct (loadTypesLoop modName st1 gs).
Qed.

Section LoadInvariant.

Variable modName : string.
Variable P : SymTable -> Prop.
Variable Q : GirConstruct -> Prop.

Hypothesis step_P : forall st g, P st.1 -> P (loadTypeStep modName st g).1.1.
Hypothesis step_Q : forall st g, Q (loadTypeStep modName st g).2.
Hypothesis callback_Q : forall g, Q g -> Q (annotateTopCallback modName g).
Hypothesis class_Q : forall g, Q g -> Q (annotateClass modName g).
Hypothesis function_Q : forall g, Q g -> Q (annotateTopFunction modName g).
Hypothesis constant_Q : forall g, Q g -> Q (annotateTopConstant modName g).
Hypothesis refresh_P : forall dict g a,
  P dict -> Q g -> g_attrs g = Some a -> passesIntrospectable a = true ->
  P (<[symNameOf modName a := g]> dict).

Lemma loadTypesLoop_inv (gs : list GirConstruct) (st : SymTable * Log) :
  P st.1 ->
  P (loadTypesLoop modName st gs).1.1
  /\ Forall Q (loadTypesLoop modName st gs).2.
Proof.
  revert st. induction gs as [|g gs IH]; intros st HP.
  - split; [done|constructor].
  - rewrite loadTypesLoop_cons, loadTypesLoop_snd_cons.
    destruct (IH (loadTypeStep modName st g).1) as [H1 H2].
    { by apply step_P. }
    split; [done|]. constructor; [apply step_Q|done].
Qed.

Lemma loadTypesInternal_inv (gs : option (list GirConstruct))
    (st : SymTable * Log) :
  P st.1 ->
  P (loadTypesInternal modName st gs).1.1
  /\ Forall Q (default [] (loadTypesInternal modName st gs).2).
Proof.
  intros HP. unfold loadTypesInternal. destruct gs as [gs|].
  - destruct (loadTypesLoop_inv gs st HP) as [H1 H2].
    by destruct (loadTypesLoop modName st gs) as [st' gs'].
  - split; [done|constructor].
Qed.

Lemma refreshEntries_inv (gs : option (list GirConstruct)) (dict : SymTable) :
  P dict -> Forall Q (default [] gs) -> P (refreshEntries modName dict gs).
Proof.
  unfold refreshEntries. generalize (default [] gs). clear gs.
  intros gs. revert dict. induction gs as [|g gs IH]; intros dict HP HQ; [done|].
  inversion HQ as [|? ? Hg Hgs]; subst. cbn. apply IH; [|done].
  destruct (g_attrs g) as [a|] eqn:Ha; [|done].
  destruct (passesIntrospectable a) eqn:Hi; [|done].
  by apply refresh_P.
Qed.

Lemma annotated_inv (f : GirConstruct -> GirConstruct)
    (gs : option (list GirConstruct)) :
  (forall g, Q g -> Q (f g)) ->
  Forall Q (default [] gs) -> Forall Q (default [] (option_map (map f) gs)).
Proof.
  intros Hf. destruct gs as [gs|]; [|done]. cbn.
  intros H. apply Forall_map. eapply Forall_impl; [exact H|]. exact Hf.
Qed.

Lemma loadTypes_inv (n : GirNamespace) (st : SymTable * Log) :
  P st.1 -> P (loadTypes modName n st).1.2.
Proof.
  intros HP. unfold loadTypes.
  destruct (loadTypesInternal_inv (ns_bitfield n) st HP) as [P1 Q1].
  destruct (loadTypesInternal modName st (ns_bitfield n)) as [st1 l1].
  destruct (loadTypesInternal_inv (ns_callback n) st1 P1) as [P2 Q2].
  destruct (loadTypesInternal modName st1 (ns_callback n)) as [st2 l2].
  destruct (loadTypesInternal_inv (ns_class n) st2 P2) as [P3 Q3].
  destruct (loadTypesInternal modName st2 (ns_class n)) as [st3 l3].
  destruct (loadTypesInternal_inv (ns_constant n) st3 P3) as [P4 Q4].
  destruct (loadTypesInternal modName st3 (ns_constant n)) as [st4 l4].
  destruct (loadTypesInternal_inv (ns_enumeration n) st4 P4) as [P5 Q5].
  destruct (loadTypesInternal modName st4 (ns_enumeration n)) as [st5 l5].
  destruct (loadTypesInternal_inv (ns_function n) st5 P5) as [P6 Q6].
  destruct (loadTypesInternal modName st5 (ns_function n)) as [st6 l6].
  destruct (loadTypesInternal_inv (ns_interface n) st6 P6) as [P7 Q7].
  destruct (loadTypesInternal modName st6 (ns_interface n)) as [st7 l7].
  destruct (loadTypesInternal_inv (ns_record n) st7 P7) as [P8 Q8].
  destruct (loadTypesInternal modName st7 (ns_record n)) as [st8 l8].
  destruct (loadTypesInternal_inv (ns_union n) st8 P8) as [P9 Q9].
  destruct (loadTypesInternal modName st8 (ns_union n)) as [st9 l9].
  destruct (loadTypesInternal_inv (ns_alias n) st9 P9) as [P10 Q10].
  destruct (loadTypesInternal modName st9 (ns_alias n)) as [[dict log] l10].
  cbn [fst snd fold_left] in *.
  repeat (apply refreshEntries_inv; [|by auto using annotated_inv]).
  exact P10.
Qed.

End LoadInvariant.

Lemma stamp_stamped (modName : string) (st : SymTable * Log) (g : GirConstruct) :
  stamped modName (loadTypeStep modName st g).2.
Proof.
  destruct st as [dict log]. unfold loadTypeStep, stamped.
  destruct (g_attrs g) as [a|] eqn:Ha; cbn.
  - destruct (passesIntrospectable a) eqn:Hi; cbn.
    + intros a' Ha' _. congruence.
    + intros a' Ha' Hi'. congruence.
  - intros a' Ha'. congruence.
Qed.

Lemma loadTypeStep_selfNamed (modName : string) (st : SymTable * Log)
    (g : GirConstruct) :
  selfNamed st.1 -> selfNamed (loadTypeStep modName st g).1.1.
Proof.
  destruct st as [dict log]. unfold loadTypeStep. cbn.
  destruct (g_attrs g) as [a|]; [|done].
  destruct (passesIntrospectable a); [|done]. cbn.
  intros H k g'. destruct (decide (symNameOf modName a = k)) as [<-|Hk].
  - rewrite lookup_insert_eq. by intros [= <-].
  - rewrite lookup_insert_ne by done. apply H.
Qed.

(** X1.  [loadTypes] keeps the table self-describing: if every entry
    carries the key it is stored under as its [_fullSymName], so does
    every entry after the call, the annotation passes included. *)
Theorem loadTypes_entries_carry_their_key (modName : string) (n : GirNamespace)
    (dict : SymTable) (log : Log) :
  selfNamed dict -> selfNamed (loadTypes modName n (dict, log)).1.2.
Proof.
  intros H.
  apply (loadTypes_inv modName selfNamed (stamped modName)); [..|exact H].
  - apply loadTypeStep_selfNamed.
  - apply stamp_stamped.
  - intros g Hg a Ha Hi. cbn in *. by apply Hg.
  - intros g Hg a Ha Hi. cbn in *. unfold gname. by rewrite Ha.
  - intros g Hg a Ha Hi.
    assert (Ha' : g_attrs g = Some a).
    { revert Ha. unfold annotateTopFunction.
      destruct (gname g) as [nm|]; [|done]. by destruct (Js.truthy nm). }
    unfold annotateTopFunction, gname. rewrite Ha'.
    destruct (a !! "name") as [nm|] eqn:Hn; [|by apply Hg].
    destruct (Js.truthy nm); [|by apply Hg].
    cbn. unfold symNameOf. by rewrite Hn.
  - intros g Hg a Ha Hi. cbn in *. unfold gname. rewrite Ha.
    destruct (a !! "name") as [nm|] eqn:Hn; [|by apply Hg].
    destruct (Js.truthy nm); [|by apply Hg].
    unfold symNameOf. by rewrite Hn.
  - intros d g a Hd Hg Ha Hi k g'.
    destruct (decide (symNameOf modName a = k)) as [<-|Hk].
    + rewrite lookup_insert_eq. intros [= <-]. by apply Hg.
    + rewrite lookup_insert_ne by done. apply Hd.
Qed.

Lemma loadTypes_entries_carry_their_key_witness :
  selfNamed (loadTypes "Gtk" smallNamespace (∅, [])).1.2.
Proof.
  apply (loadTypes_entries_carry_their_key "Gtk" smallNamespace ∅ []).
  intros k g H. rewrite lookup_empty in H. discriminate.
Defined.

(** X2.  [loadTypes] never removes a name from the symbol table: a name
    that resolves before the call resolves after it. *)
Theorem loadTypes_keeps_names (modName : string) (n : GirNamespace)
    (dict : SymTable) (log : Log) (k : string) :
  is_Some (dict !! k) -> is_Some ((loadTypes modName n (dict, log)).1.2 !! k).
Proof.
  intros H.
  apply (loadTypes_inv modName (fun d => is_Some (d !! k)) (fun _ => True));
    [..|exact H]; try done.
  - intros [d l] g Hd. unfold loadTypeStep. cbn in *.
    destruct (g_attrs g) as [a|]; [|done].
    destruct (passesIntrospectable a); [|done]. cbn.
    destruct (decide (symNameOf modName a = k)) as [<-|Hk].
    + rewrite lookup_insert_eq. by eexists.
    + by rewrite lookup_insert_ne.
  - intros d g a Hd _ _ _.
    destruct (decide (symNameOf modName a = k)) as [<-|Hk].
    + rewrite lookup_insert_eq. by eexists.
    + by rewrite lookup_insert_ne.
Qed.

Lemma loadTypes_keeps_names_witness :
  is_Some ((loadTypes "Gtk" smallNamespace
              ({[ "Gio.File" := element {[ "name" := "File" ]} ]}, [])).1.2
           !! "Gio.File").
Proof.
  apply (loadTypes_keeps_names "Gtk" smallNamespace
           {[ "Gio.File" := element {[ "name" := "File" ]} ]} [] "Gio.File").
  rewrite lookup_singleton_eq. by eexists.
Defined.

Lemma loadTypeStep_insertKey (modName : string) (dict : SymTable) (log : Log)
    (g : GirConstruct) :
  (loadTypeStep modName (dict, log) g).1
  = match insertKey modName g with
    | Some k =>
        (<[k := stamp modName k g]> dict,
         match dict !! k with
         | Some _ => warn log ("Duplicate symbol: " ++ k)
         | None => log
         end)
    | None => (dict, log)
    end.
Proof.
  unfold loadTypeStep, insertKey.
  destruct (g_attrs g) as [a|]; [|done].
  by destruct (passesIntrospectable a).
Qed.

(** X3.  Constructs with pairwise distinct names that are all new to the
    table are entered without a diagnostic, and each one is found under
    its qualified name afterwards, annotated with the module and that
    name. *)
Theorem fresh_names_load_silently (modName : string) (gs : list GirConstruct)
    (dict : SymTable) (log : Log) :
  NoDup (omap (insertKey modName) gs) ->
  (forall k, k ∈ omap (insertKey modName) gs -> dict !! k = None) ->
  (loadTypesInternal modName (dict, log) (Some gs)).1.2 = log
  /\ forall g k, g ∈ gs -> insertKey modName g = Some k ->
       (loadTypesInternal modName (dict, log) (Some gs)).1.1 !! k
       = Some (stamp modName k g).
Proof.
  assert (Hint : forall st,
            (loadTypesInternal modName st (Some gs)).1
            = (loadTypesLoop modName st gs).1).
  { intros st. unfold loadTypesInternal.
    by destruct (loadTypesLoop modName st gs). }
  rewrite Hint. clear Hint.
  revert dict log. induction gs as [|g gs IH]; intros dict log Hnd Hfresh.
  - split; [done|]. intros g k Hg. by apply elem_of_nil in Hg.
  - rewrite loadTypesLoop_cons.
    pose proof (loadTypeStep_insertKey modName dict log g) as Hstep.
    assert (Hom : omap (insertKey modName) (g :: gs)
                  = match insertKey modName g with
                    | Some k => k :: omap (insertKey modName) gs
                    | None => omap (insertKey modName) gs
                    end) by reflexivity.
    rewrite Hom in Hnd, Hfresh. clear Hom.
    destruct (insertKey modName g) as [k0|] eqn:Hk0.
    + apply NoDup_cons in Hnd as [Hk0' Hnd].
      assert (Hd0 : dict !! k0 = None) by (apply Hfresh; left).
      rewrite Hd0 in Hstep. rewrite Hstep.
      destruct (IH (<[k0 := stamp modName k0 g]> dict) log Hnd) as [IH1 IH2].
      { intros k Hk. rewrite lookup_insert_ne.
        - apply Hfresh. by right.
        - intros ->. done. }
      split; [done|]. intros g' k Hg' Hk.
      apply elem_of_cons in Hg' as [->|Hg'].
      * assert (k = k0) as -> by congruence.
        rewrite loadTypesLoop_other.
        -- cbn. by rewrite lookup_insert_eq.
        -- intros g'' Hg'' Hk''. apply Hk0'.
           apply list_elem_of_omap. by exists g''.
      * by apply IH2.
    + rewrite Hstep.
      destruct (IH dict log Hnd Hfresh) as [IH1 IH2].
      split; [done|]. intros g' k Hg' Hk.
      apply elem_of_cons in Hg' as [->|Hg']; [congruence|].
      by apply IH2.
Qed.

Lemma fresh_names_load_silently_witness :
  (loadTypesInternal "Gtk" (∅, []) (Some [fooFirst])).1.2 = []
  /\ forall g k, g ∈ [fooFirst] -> insertKey "Gtk" g = Some k ->
       (loadTypesInternal "Gtk" (∅, []) (Some [fooFirst])).1.1 !! k
       = Some (stamp "Gtk" k g).
Proof.
  apply (fresh_names_load_silently "Gtk" [fooFirst] ∅ []).
  - vm_compute. apply NoDup_cons. split; [apply not_elem_of_nil|apply NoDup_nil_2].
  - intros k _. apply lookup_empty.
Defined.

(** ** Class details *)

Lemma splitOn_pieces (sep : ascii) (s : string) :
  Forall (fun p => forall a b, p ≠ a ++ String sep b) (splitOn sep s).
Proof.
  induction s as [|c r IH]; cbn.
  - constructor; [|constructor]. intros [|? ?] b; discriminate.
  - destruct (Ascii.eqb c sep) eqn:Hc.
    + constructor; [|exact IH]. intros [|? ?] b; discriminate.
    + destruct (splitOn sep r) as [|p ps]; [constructor; [|constructor]|].
      * intros [|x a] b; rewrite ?append_cons; cbn.
        -- intros [= -> _]. by rewrite Ascii.eqb_refl in Hc.
        -- intros [= _ H]. by destruct a.
      * inversion IH as [|? ? Hp Hps]; subst. constructor; [|done].
        intros [|x a] b; rewrite ?append_cons; cbn.
        -- intros [= -> _]. by rewrite Ascii.eqb_refl in Hc.
        -- intros [= _ H]. by apply (Hp a b).
Qed.

Lemma hasDot_false_iff (s : string) :
  Js.hasDot s = false <-> forall a b, s ≠ a ++ "." ++ b.
Proof.
  induction s as [|c r IH]; cbn.
  - split; [|done]. intros _ [|? ?] b; discriminate.
  - destruct (Ascii.eqb_spec c ".") as [->|Hc].
    + split; [done|]. intros H. by destruct (H "" r).
    + rewrite IH. split.
      * intros H [|x a] b; rewrite ?append_cons; cbn.
        -- intros [= -> _]. done.
        -- intros [= _ ->]. by apply (H a b).
      * intros H a b ->. by apply (H (String c a) b).
Qed.

Lemma splitOn_dot_free (s : string) :
  Forall (fun p => Js.hasDot p = false) (splitOn "." s).
Proof.
  eapply Forall_impl; [apply (splitOn_pieces "." s)|].
  intros p Hp. apply hasDot_false_iff. intros a b. apply Hp.
Qed.

Lemma last_Forall {A} (P : A -> Prop) (l : list A) (d : A) :
  Forall P l -> P d -> P (List.last l d).
Proof.
  induction l as [|x [|y l] IH]; intros Hl Hd; [done|by inversion Hl|].
  inversion Hl; subst. by apply IH.
Qed.

Lemma joinWith_snoc (sep : string) (l : list string) (x : string) :
  l ≠ [] -> joinWith sep (l ++ [x]) = joinWith sep l ++ sep ++ x.
Proof.
  unfold joinWith. induction l as [|a [|b l] IH]; intros Hl; [done|done|].
  change (String.concat sep ((a :: b :: l) ++ [x]))
    with (a ++ sep ++ String.concat sep ((b :: l) ++ [x])).
  rewrite IH by done.
  change (String.concat sep (a :: b :: l))
    with (a ++ sep ++ String.concat sep (b :: l)).
  by rewrite !append_assoc.
Qed.

Lemma splitOn_hasDot (s : string) :
  Js.hasDot s = true -> removelast (splitOn "." s) ≠ [].
Proof.
  induction s as [|c r IH]; cbn; [done|].
  destruct (Ascii.eqb c "."); intros H.
  - pose proof (splitOn_nonempty "." r). by destruct (splitOn "." r).
  - specialize (IH H). destruct (splitOn "." r) as [|p [|q ps]]; done.
Qed.

(** A name with a dot is its module part, a dot, and its last component. *)
Lemma split_last_dot (s : string) :
  Js.hasDot s = true ->
  s = joinWith "." (removelast (splitOn "." s)) ++ "."
      ++ List.last (splitOn "." s) "".
Proof.
  intros H. rewrite <- joinWith_snoc by by apply splitOn_hasDot.
  rewrite <- app_removelast_last by apply splitOn_nonempty.
  by rewrite join_split.
Qed.

(** X4.  The names [getClassDetails] returns are consistent: the simple
    name has no dot and the qualified name is a module part, a dot and the
    simple name; whenever a qualified parent name is given, the same holds
    of the parent's two names. *)
Theorem class_details_names (this : GirModule) (girClass : GirConstruct)
    (d : ClassDetails) :
  getClassDetails this girClass = Some d ->
  Js.hasDot (cd_name d) = false
  /\ (exists m, cd_qualifiedName d = m ++ "." ++ cd_name d)
  /\ forall q, cd_qualifiedParentName d = Some q ->
       exists m p, cd_parentName d = Some p /\ Js.hasDot p = false
                   /\ q = m ++ "." ++ p.
Proof.
  unfold getClassDetails. destruct (g_attrs girClass) as [a|]; [|done].
  set (modName := default (name this) (g_module girClass)).
  set (name0 := transformClassName (transformation this) (default "" (a !! "name"))).
  assert (Hname :
    let '(name1, qualifiedName) :=
      if negb (Js.hasDot name0) then (name0, modName ++ "." ++ name0)
      else (List.last (splitOn "." name0) "", name0) in
    Js.hasDot name1 = false /\ exists m, qualifiedName = m ++ "." ++ name1).
  { destruct (Js.hasDot name0) eqn:Hd; cbn.
    - split; [apply last_Forall; [apply splitOn_dot_free|done]|].
      eexists. by apply split_last_dot.
    - split; [done|by eexists]. }
  destruct (if negb (Js.hasDot name0) then _ else _) as [name1 qualifiedName].
  destruct Hname as [Hn1 Hn2].
  intros [= <-].
  destruct (match g_prerequisite girClass with Some _ => _ | None => _ end)
    as [pn|]; [|by cbn].
  destruct (Js.truthy pn); [|by cbn].
  destruct (Js.hasDot pn) eqn:Hpn; cbn.
  - split; [done|]. split; [done|]. intros q [= <-].
    eexists _, _. split; [done|].
    split; [apply last_Forall; [apply splitOn_dot_free|done]|by apply split_last_dot].
  - split; [done|]. split; [done|]. intros q [= <-]. by eexists _, _.
Qed.

Lemma class_details_names_witness :
  Js.hasDot "Button" = false
  /\ (exists m, "Gtk.Button" = m ++ "." ++ "Button")
  /\ forall q, Some "Gtk.Widget" = Some q ->
       exists m p, Some "Widget" = Some p /\ Js.hasDot p = false
                   /\ q = m ++ "." ++ p.
Proof.
  apply (class_details_names gtkModule (gtkClass "Button" "Widget")
           (mkClassDetails "Button" "Gtk.Button" (Some "Widget")
              (Some "Gtk.Widget") (Some "Widget"))).
  reflexivity.
Defined.

(** ** The walk up the inheritance tree *)

Lemma trace_chain (this : GirModule) (fuel : nat) (c : GirConstruct)
    (depth : nat) (recursive : bool) (t : list WalkEvent) :
  traceFuel this fuel c depth recursive [] = Some t ->
  match getClassDetails this c with
  | None => visits t = []
  | Some _ =>
      exists rest, visits t = c :: rest /\ parentChain this (c :: rest)
                   /\ (recursive = false -> rest = [])
  end.
Proof.
  revert c depth recursive t.
  induction fuel as [|fuel IH]; intros c depth recursive t Ht; [done|].
  rewrite traverse_step in Ht.
  destruct (getClassDetails this c) as [d|] eqn:Hd; [|by injection Ht as <-].
  cbv zeta in Ht. rewrite replay_push in Ht. cbn [app] in Ht.
  pose proof (visits_stepEvents this c (resolveParent this d)) as Hv.
  assert (Hr : recursive = false ->
               match circularParent c (resolveParent this d) with
               | Some _ => false
               | None => recursive
               end = false).
  { intros ->. by destruct (circularParent _ _). }
  revert Ht Hv Hr.
  generalize (stepEvents this c (resolveParent this d)).
  generalize (match circularParent c (resolveParent this d) with
              | Some _ => false
              | None => recursive
              end).
  intros r' ev Ht Hv Hr.
  assert (Hstop : forall t', visits t' = [] -> Some (ev ++ t')%list = Some t ->
            exists rest, visits t = c :: rest /\ parentChain this (c :: rest)
                         /\ (recursive = false -> rest = [])).
  { intros t' Ht' [= <-]. exists []. by rewrite visits_app, Hv, Ht'. }
  destruct (MAXIMUM_RECUSION_DEPTH <=? depth)%nat.
  { by apply (Hstop [Warned (maximumDepthWarning c)]). }
  destruct (resolveParent this d) as [p|] eqn:Hp.
  2:{ apply (Hstop []); [done|]. by rewrite app_nil_r. }
  destruct (r' && _) eqn:Hrec.
  2:{ apply (Hstop []); [done|]. by rewrite app_nil_r. }
  rewrite trace_from in Ht.
  destruct (traceFuel this fuel p (S depth) r' []) as [t0|] eqn:Ht0; [|done].
  injection Ht as <-. specialize (IH _ _ _ _ Ht0).
  rewrite visits_app, Hv. cbn [app].
  destruct (getClassDetails this p) as [dp|].
  - destruct IH as (rest0 & -> & Hchain & _).
    exists (p :: rest0). split; [done|]. split.
    + split; [|exact Hchain]. unfold nextParent. by rewrite Hd.
    + intros Hf. rewrite (Hr Hf) in Hrec. discriminate.
  - rewrite IH. exists []. done.
Qed.

(** X5.  The walk always returns, whatever the callback, and the
    classes it visits are a chain of parent links that starts at the class
    it was called on: each visited class after the first is the
    symbol-table entry the class before it names as its parent.  A walk
    that is not recursive visits at most the class itself. *)
Theorem walk_follows_parent_links (this : GirModule) (St : Type)
    (callback : GirConstruct -> St -> St) (logWarn : string -> St -> St)
    (girClass : GirConstruct) (recursive : bool) (st : St) :
  exists t,
    traceWalk this girClass 0 recursive = Some t
    /\ traverseInheritanceTree this St callback logWarn girClass 0 recursive st
       = Some (replay callback logWarn t st)
    /\ parentChain this (visits t)
    /\ (forall c, head (visits t) = Some c -> c = girClass)
    /\ (recursive = false -> length (visits t) <= 1).
Proof.
  unfold traceWalk, traverseInheritanceTree.
  destruct (traverse_fuel_total this (list WalkEvent)
              (fun c t => push t (Visit c)) (fun m t => push t (Warned m))
              (S (S MAXIMUM_RECUSION_DEPTH) - 0) girClass 0 recursive [])
    as [t Ht]; [unfold MAXIMUM_RECUSION_DEPTH; lia|].
  exists t. split; [exact Ht|].
  split; [by rewrite traverse_replay, Ht|].
  apply trace_chain in Ht.
  destruct (getClassDetails this girClass).
  - destruct Ht as (rest & -> & Hc & Hr). split; [exact Hc|].
    split; [by intros c0 [= <-]|]. intros Hf. by rewrite (Hr Hf).
  - rewrite Ht. cbn. split; [done|]. split; [done|]. lia.
Qed.

Lemma replay_derived (t : list WalkEvent) (b : bool) (w : Log) :
  replay (fun cls '(ret, log) => (if isRootObject cls then true else ret, log))
    (fun msg '(ret, log) => (ret, warn log msg)) t (b, w)
  = (b || existsb isRootObject (visits t), (w ++ warnings t)%list).
Proof.
  revert b w. unfold replay.
  induction t as [|e t IH]; intros b w.
  - cbn. by rewrite orb_false_r, app_nil_r.
  - cbn [fold_left]. destruct e as [c|m].
    + rewrite IH. change (visits (Visit c :: t)) with (c :: visits t).
      change (warnings (Visit c :: t)) with (warnings t).
      cbn [existsb]. by destruct (isRootObject c), b.
    + rewrite IH. change (visits (Warned m :: t)) with (visits t).
      change (warnings (Warned m :: t)) with (m :: warnings t).
      unfold warn. by rewrite <- app_assoc.
Qed.

(** X6.  [isDerivedFromGObject] always returns; its answer is true
    exactly when one of the classes the walk visits, the class itself or an
    ancestor on its chain of parents, is [GObject.Object], and its
    diagnostics are the warnings of that walk. *)
Theorem isDerivedFromGObject_by_visits (this : GirModule)
    (girClass : GirConstruct) :
  exists t,
    traceWalk this girClass 0 true = Some t
    /\ isDerivedFromGObject this girClass
       = Some (existsb isRootObject (visits t), warnings t).
Proof.
  unfold traceWalk, isDerivedFromGObject, traverseInheritanceTree.
  destruct (traverse_fuel_total this (list WalkEvent)
              (fun c t => push t (Visit c)) (fun m t => push t (Warned m))
              (S (S MAXIMUM_RECUSION_DEPTH) - 0) girClass 0 true [])
    as [t Ht]; [unfold MAXIMUM_RECUSION_DEPTH; lia|].
  exists t. split; [exact Ht|].
  rewrite traverse_replay, Ht. cbn [fmap option_fmap option_map].
  f_equal. apply (replay_derived t false []).
Qed.

(** ** The walk over the implemented interfaces *)




Lemma forEachInterface_dups_mono {St} (this : GirModule)
    (cb : GirConstruct -> St -> St) (fuel : nat) :
  forall (c : GirConstruct) (recurseObjects : bool) (st r : St * gset string),
    forEachInterfaceFuel this St cb fuel c recurseObjects st = Some r ->
    st.2 ⊆ r.2.
Proof.
  induction fuel as [|fuel IH]; intros c ro st r H; [discriminate|].
  cbn [forEachInterfaceFuel] in H.
  set (loop := fix loop (impls : list Attrs) (st : St * gset string) := _) in H.
  assert (Hloop : forall impls st0 r', loop impls st0 = Some r' -> st0.2 ⊆ r'.2).
  { induction impls as [|a rest IHl]; intros [s0 d0] r' Hl.
    - by injection Hl as <-.
    - cbn in Hl. destruct (bool_decide _); [by eapply IHl|].
      destruct (symTable this !! _) as [iface|].
      + destruct (forEachInterfaceFuel this St cb fuel iface ro _) as [st'|] eqn:Hrec;
          [|discriminate].
        apply IH in Hrec. apply IHl in Hl. cbn in *. set_solver.
      + apply IHl in Hl. cbn in *. set_solver. }
  destruct (loop _ st) as [[s1 d1]|] eqn:Hl; [|discriminate].
  apply Hloop in Hl. cbn in Hl. clearbody loop.
  destruct (g_prerequisite c) as [pre|]; [|by injection H as <-].
  destruct (match pre with [] => None | p :: _ => p !! "name" end) as [pn|];
    [|by injection H as <-].
  destruct (negb (Js.truthy pn)); [by injection H as <-|].
  destruct (bool_decide _); [by injection H as <-|].
  destruct (symTable this !! _) as [parentPtr|]; [|by injection H as <-].
  destruct (_ || ro); [|by injection H as <-].
  apply IH in H. cbn in H. set_solver.
Qed.

(** X8.  The set of visited names that [forEachInterface] threads through
    its nested calls only grows, and when the call on a class returns the
    set holds the qualified name of every interface the class implements. *)
Theorem forEachInterface_records_names {St} (this : GirModule)
    (cb : GirConstruct -> St -> St) (fuel : nat) (c : GirConstruct)
    (recurseObjects : bool) (st r : St * gset string) :
  forEachInterfaceFuel this St cb fuel c recurseObjects st = Some r ->
  st.2 ⊆ r.2
  /\ forall a, a ∈ default [] (g_implements c) ->
       qualifiedNameOf this None (default "" (a !! "name")) ∈ r.2.
Proof.
  intros H. split; [by eapply forEachInterface_dups_mono|].
  destruct fuel as [|fuel]; [discriminate|].
  cbn [forEachInterfaceFuel] in H.
  set (loop := fix loop (impls : list Attrs) (st : St * gset string) := _) in H.
  assert (Hloop : forall impls st0 r', loop impls st0 = Some r' ->
            st0.2 ⊆ r'.2
            /\ forall a, a ∈ impls ->
                 qualifiedNameOf this None (default "" (a !! "name")) ∈ r'.2).
  { induction impls as [|a rest IHl]; intros [s0 d0] r' Hl.
    - injection Hl as <-. split; [done|]. intros a Ha. by apply elem_of_nil in Ha.
    - cbn in Hl. unfold qualifiedNameOf. cbn [default].
      destruct (bool_decide _) eqn:Hb.
      + apply bool_decide_eq_true_1 in Hb.
        pose proof (IHl _ _ Hl) as [H1 H2]. clear IHl Hl. cbn in H1. split; [done|].
        intros a' Ha'. apply elem_of_cons in Ha' as [Ha'|Ha'];
            [subst a'; set_solver|by apply H2].
      + destruct (symTable this !! _) as [iface|].
        * destruct (forEachInterfaceFuel this St cb fuel iface recurseObjects _) as [st'|] eqn:Hrec;
            [|discriminate].
          apply forEachInterface_dups_mono in Hrec.
          pose proof (IHl _ _ Hl) as [H1 H2]. clear IHl Hl. cbn in *. split; [set_solver|].
          intros a' Ha'. apply elem_of_cons in Ha' as [Ha'|Ha'];
            [subst a'; set_solver|by apply H2].
        * pose proof (IHl _ _ Hl) as [H1 H2]. clear IHl Hl. cbn in *. split; [set_solver|].
          intros a' Ha'. apply elem_of_cons in Ha' as [Ha'|Ha'];
            [subst a'; set_solver|by apply H2]. }
  destruct (loop _ st) as [[s1 d1]|] eqn:Hl; [|discriminate].
  destruct (Hloop _ _ _ Hl) as [_ Himpl]. cbn in Himpl. clearbody loop.
  assert (Hd1 : d1 ⊆ r.2).
  { destruct (g_prerequisite c) as [pre|]; [|by injection H as <-].
    destruct (match pre with [] => None | p :: _ => p !! "name" end) as [pn|];
      [|by injection H as <-].
    destruct (negb (Js.truthy pn)); [by injection H as <-|].
    destruct (bool_decide _); [by injection H as <-|].
    destruct (symTable this !! _) as [parentPtr|]; [|by injection H as <-].
    destruct (_ || recurseObjects); [|by injection H as <-].
    by apply forEachInterface_dups_mono in H. }
  intros a Ha. apply Hd1. by apply Himpl.
Qed.

Lemma forEachInterface_records_names_witness :
  ((0, ∅) : nat * gset string).2 ⊆ ((1, {[ "Gtk.I" ]}) : nat * gset string).2
  /\ forall a, a ∈ default [] (g_implements classC) ->
       qualifiedNameOf overloadModule None (default "" (a !! "name"))
       ∈ ((1, {[ "Gtk.I" ]}) : nat * gset string).2.
Proof.
  apply (forEachInterface_records_names overloadModule (fun _ n => S n) 2
           classC false (0, ∅) (1, {[ "Gtk.I" ]})).
  vm_compute. reflexivity.
Defined.

(** ** Signature canonicalization *)

Lemma allChars_append (p : ascii -> bool) (a b : string) :
  allChars p (a ++ b) = allChars p a && allChars p b.
Proof.
  induction a as [|c a IH]; [done|].
  rewrite append_cons. cbn. by rewrite IH, andb_assoc.
Qed.

Lemma closeLength_closing (body : string) :
  onOneLine body = true ->
  Regex.closeLength (body ++ "*/") = Some (String.length body + 2).
Proof.
  unfold onOneLine. induction body as [|c r IH]; [done|].
  rewrite append_cons. cbn [allChars Regex.closeLength String.length].
  intros [Hc Hr]%andb_true_iff. apply negb_true_iff in Hc. rewrite Hc.
  by rewrite (IH Hr).
Qed.

Lemma removeCommentsFrom_all (s : string) (k : nat) :
  String.length s <= k -> Regex.removeCommentsFrom k s = "".
Proof.
  revert k. induction s as [|c r IH]; intros k Hk; [done|].
  cbn in Hk. destruct k as [|k]; [lia|]. cbn. apply IH. lia.
Qed.

(** X9.  The comment pattern is greedy: a line that opens with [/*] and
    closes with [*/] is removed as a whole, whatever stands in between,
    further comment delimiters and the code between two comments
    included. *)
Theorem removeComments_is_greedy (body : string) :
  onOneLine body = true ->
  Regex.removeComments ("/*" ++ body ++ "*/") = "".
Proof.
  intros H. unfold Regex.removeComments.
  change ("/*" ++ body ++ "*/") with (String "/" (String "*" (body ++ "*/"))).
  cbn [Regex.removeCommentsFrom Ascii.eqb Bool.eqb].
  rewrite (closeLength_closing body H).
  apply removeCommentsFrom_all. cbn. rewrite length_append. cbn. lia.
Qed.

Lemma removeComments_is_greedy_witness :
  Regex.removeComments
    ("/*" ++ " a */ foo(x: number): void /* b " ++ "*/") = "".
Proof.
  apply (removeComments_is_greedy " a */ foo(x: number): void /* b ").
  reflexivity.
Defined.

Lemma removeComments_plain (s : string) :
  free "*" s = true -> Regex.removeComments s = s.
Proof.
  unfold Regex.removeComments, free.
  induction s as [|c r IH]; [done|]. cbn [allChars].
  intros [Hc Hr]%andb_true_iff. specialize (IH Hr).
  cbn [Regex.removeCommentsFrom]. destruct r as [|d r']; [done|].
  cbn [allChars] in Hr. apply andb_true_iff in Hr as [Hd _].
  apply negb_true_iff in Hd.
  destruct (Ascii.eqb_spec d "*") as [->|Hne]; [done|].
  rewrite IH.
  destruct d as [[] [] [] [] [] [] [] []]; try reflexivity. by destruct Hne.
Qed.

Lemma splitOn_free (sep : ascii) (s : string) :
  free sep s = true -> splitOn sep s = [s].
Proof.
  unfold free. induction s as [|c r IH]; [done|]. cbn.
  intros [Hc Hr]%andb_true_iff. apply negb_true_iff in Hc.
  by rewrite Hc, (IH Hr).
Qed.

Lemma splitOn_first (sep : ascii) (a b : string) :
  free sep a = true -> splitOn sep (a ++ String sep b) = a :: splitOn sep b.
Proof.
  unfold free. induction a as [|c r IH].
  - intros _. change ("" ++ String sep b) with (String sep b).
    cbn. by rewrite Ascii.eqb_refl.
  - rewrite append_cons. cbn.
    intros [Hc Hr]%andb_true_iff. apply negb_true_iff in Hc.
    by rewrite Hc, (IH Hr).
Qed.

Lemma replaceParam_name (w r pending : string) :
  allChars Regex.isWord w = true ->
  Regex.replaceParamFrom pending (w ++ String ":" r)
  = String ":" (Regex.replaceParam r).
Proof.
  revert pending. induction w as [|c w IH]; intros pending.
  - intros _. reflexivity.
  - rewrite append_cons. cbn.
    intros [Hc Hw]%andb_true_iff. rewrite Hc. by apply IH.
Qed.

Lemma replaceParam_separator (c : ascii) (a b pending : string) :
  Regex.isWord c = false -> Ascii.eqb c ":" = false ->
  Regex.replaceParamFrom pending (a ++ String c b)
  = Regex.replaceParamFrom pending a ++ String c (Regex.replaceParam b).
Proof.
  intros Hw Hc. revert pending. induction a as [|x a IH]; intros pending.
  - change ("" ++ String c b) with (String c b).
    cbn. by rewrite Hw, Hc.
  - rewrite append_cons. cbn. destruct (Regex.isWord x); [apply IH|].
    destruct (Ascii.eqb x ":").
    + unfold Regex.replaceParam in IH. by rewrite IH, append_cons.
    + unfold Regex.replaceParam in IH.
      by rewrite IH, append_assoc, append_cons.
Qed.

(** The parameter list after the first replacement: every name is gone,
    every type has gone through the replacement on its own. *)
Lemma replaceParam_parameters (params : list (string * string)) :
  Forall (fun p => allChars Regex.isWord p.1 = true) params ->
  Regex.replaceParam
    (joinWith ", " (map (fun p => p.1 ++ ": " ++ p.2) params))
  = joinWith ", "
      (map (fun ty => ":" ++ Regex.replaceParam (" " ++ ty)) (map snd params)).
Proof.
  unfold joinWith.
  induction params as [|[n ty] [|q rest] IH]; intros Hw; [done| |].
  - inversion Hw as [|? ? Hn _]; subst. cbn [map String.concat fst snd].
    unfold Regex.replaceParam at 1.
    change (n ++ ": " ++ ty) with (n ++ String ":" (" " ++ ty)).
    by rewrite replaceParam_name.
  - inversion Hw as [|? ? Hn Hrest]; subst. specialize (IH Hrest).
    change (String.concat ", " (map (fun p => p.1 ++ ": " ++ p.2)
                                  ((n, ty) :: q :: rest)))
      with ((n ++ ": " ++ ty) ++ ", "
            ++ String.concat ", " (map (fun p => p.1 ++ ": " ++ p.2) (q :: rest))).
    change (String.concat ", "
              (map (fun ty => ":" ++ Regex.replaceParam (" " ++ ty))
                 (map snd ((n, ty) :: q :: rest))))
      with ((":" ++ Regex.replaceParam (" " ++ ty)) ++ ", "
            ++ String.concat ", "
                 (map (fun ty => ":" ++ Regex.replaceParam (" " ++ ty))
                    (map snd (q :: rest)))).
    rewrite <- IH. unfold Regex.replaceParam at 1.
    set (R := String.concat ", " _).
    replace ((n ++ ": " ++ ty) ++ ", " ++ R)
      with (n ++ String ":" ((" " ++ ty) ++ String "," (" " ++ R))).
    2:{ rewrite !append_assoc. reflexivity. }
    rewrite replaceParam_name by done.
    unfold Regex.replaceParam at 1.
    rewrite replaceParam_separator by done.
    change (String "," (Regex.replaceParam (" " ++ R)))
      with ("," ++ Regex.replaceParam (String " " R)).
    assert (Hsp : Regex.replaceParam (String " " R)
                  = " " ++ Regex.replaceParam R) by reflexivity.
    rewrite Hsp. rewrite !append_cons, ?append_assoc. reflexivity.
Qed.

Lemma free_word (c : ascii) (w : string) :
  Regex.isWord c = false -> allChars Regex.isWord w = true -> free c w = true.
Proof.
  intros Hc. unfold free. induction w as [|d w IH]; [done|]. cbn.
  intros [Hd Hw]%andb_true_iff. rewrite (IH Hw), andb_true_r.
  destruct (Ascii.eqb_spec d c) as [->|]; [congruence|done].
Qed.

Lemma free_parameters (c : ascii) (params : list (string * string)) :
  Regex.isWord c = false -> free c ": , " = true ->
  Forall (fun p => allChars Regex.isWord p.1 = true /\ free c p.2 = true) params ->
  free c (joinWith ", " (map (fun p => p.1 ++ ": " ++ p.2) params)) = true.
Proof.
  intros Hc Hsep. unfold joinWith.
  assert (H12 : free c ": " = true /\ free c ", " = true).
  { revert Hsep. unfold free. change ": , " with (": " ++ ", ").
    rewrite allChars_append. by intros [? ?]%andb_true_iff. }
  destruct H12 as [H1 H2].
  induction params as [|[n ty] [|q rest] IH]; intros Hp; [done| |].
  - inversion Hp as [|? ? [Hn Hty] _]; subst. cbn [fst snd] in Hn, Hty.
    cbn [map String.concat fst snd].
    unfold free. rewrite !allChars_append.
    fold (free c n) (free c ": ") (free c ty).
    by rewrite (free_word c n Hc Hn), H1, Hty.
  - inversion Hp as [|? ? [Hn Hty] Hrest]; subst. specialize (IH Hrest).
    cbn [fst snd] in Hn, Hty.
    change (String.concat ", " (map (fun p => p.1 ++ ": " ++ p.2)
                                  ((n, ty) :: q :: rest)))
      with ((n ++ ": " ++ ty) ++ ", "
            ++ String.concat ", " (map (fun p => p.1 ++ ": " ++ p.2) (q :: rest))).
    unfold free in IH |- *. rewrite !allChars_append, IH.
    fold (free c n) (free c ": ") (free c ty) (free c ", ").
    by rewrite (free_word c n Hc Hn), H1, Hty, H2.
Qed.

(** The canonical form of a plain declaration: the head, the types and
    the tail; no name. *)
Lemma stripParamNames_declaration (head tail : string)
    (params : list (string * string)) (ignoreTail : bool) :
  plain head = true -> plain tail = true ->
  Forall (fun p => allChars Regex.isWord p.1 = true /\ plain p.2 = true) params ->
  stripParamNames (declaration head params tail) ignoreTail
  = (Ok (head ++ "("
         ++ Regex.replaceOptParam
              (joinWith ", "
                 (map (fun ty => ":" ++ Regex.replaceParam (" " ++ ty))
                    (map snd params)))
         ++ ")" ++ (if ignoreTail then "" else tail)), []).
Proof.
  unfold plain. intros Hh Ht Hp.
  apply andb_true_iff in Hh as [[Hh1 Hh2]%andb_true_iff Hh3].
  apply andb_true_iff in Ht as [[Ht1 Ht2]%andb_true_iff Ht3].
  set (P := joinWith ", " (map (fun p => p.1 ++ ": " ++ p.2) params)).
  assert (HP : forall c, Regex.isWord c = false -> free c ": , " = true ->
                 (forall s, plain s = true -> free c s = true) ->
                 free c P = true).
  { intros c Hc Hsep Hpl. apply free_parameters; [done..|].
    eapply Forall_impl; [exact Hp|]. intros p [H1 H2]. split; [done|].
    by apply Hpl. }
  assert (HP1 : free "(" P = true).
  { apply HP; [done..|]. unfold plain. intros s H.
    by apply andb_true_iff in H as [[H _]%andb_true_iff _]. }
  assert (HP2 : free ")" P = true).
  { apply HP; [done..|]. unfold plain. intros s H.
    by apply andb_true_iff in H as [[_ H]%andb_true_iff _]. }
  assert (HP3 : free "*" P = true).
  { apply HP; [done..|]. unfold plain. intros s H.
    by apply andb_true_iff in H as [_ H]. }
  assert (Hcanon : Regex.replaceParam P
            = joinWith ", "
                (map (fun ty => ":" ++ Regex.replaceParam (" " ++ ty))
                   (map snd params))).
  { apply replaceParam_parameters.
    eapply Forall_impl; [exact Hp|]. by intros p [H1 _]. }
  unfold declaration. fold P. unfold stripParamNames.
  rewrite removeComments_plain.
  2:{ unfold free in *. rewrite !allChars_append.
      by rewrite Hh3, HP3, Ht3. }
  change (head ++ "(" ++ P ++ ")" ++ tail)
    with (head ++ String "(" (P ++ String ")" tail)).
  rewrite (splitOn_first "(" head _ Hh1).
  rewrite (splitOn_free "(" (P ++ String ")" tail)).
  2:{ unfold free in *. change (String ")" tail) with (")" ++ tail).
      rewrite !allChars_append. by rewrite HP1, Ht1. }
  cbn [take length Nat.ltb Nat.leb].
  rewrite (splitOn_first ")" P tail HP2), (splitOn_free ")" tail Ht2).
  cbn [List.last removelast joinWith String.concat].
  rewrite Hcanon. reflexivity.
Qed.

(** X10.  Parameter names do not take part in the comparison of
    signatures: two declarations with the same head, the same parameter
    types in the same order and the same tail match, whatever the
    parameters are called. *)
Theorem signatures_match_up_to_parameter_names (head tail : string)
    (params1 params2 : list (string * string)) :
  plain head = true -> plain tail = true ->
  Forall (fun p => allChars Regex.isWord p.1 = true /\ plain p.2 = true) params1 ->
  Forall (fun p => allChars Regex.isWord p.1 = true /\ plain p.2 = true) params2 ->
  map snd params1 = map snd params2 ->
  functionSignaturesMatch [declaration head params1 tail]
    [declaration head params2 tail] = (Ok true, []).
Proof.
  intros Hh Ht H1 H2 Hty.
  unfold functionSignaturesMatch. cbn [length Nat.eqb negb signaturesMatchLoop].
  rewrite (stripParamNames_declaration head tail params1 false Hh Ht H1).
  rewrite (stripParamNames_declaration head tail params2 false Hh Ht H2).
  rewrite Hty. unfold bind. by rewrite String.eqb_refl.
Qed.

Lemma signatures_match_up_to_parameter_names_witness :
  functionSignaturesMatch
    [declaration "    foo" [("x", "number"); ("label", "string | null")] ": void"]
    [declaration "    foo" [("y", "number"); ("text", "string | null")] ": void"]
  = (Ok true, []).
Proof.
  apply (signatures_match_up_to_parameter_names "    foo" ": void"
           [("x", "number"); ("label", "string | null")]
           [("y", "number"); ("text", "string | null")]).
  - reflexivity.
  - reflexivity.
  - repeat constructor.
  - repeat constructor.
  - reflexivity.
Defined.

(** ** Local names *)

Lemma checkName_keeps (desc : list string) (name : option string)
    (localNames : LocalNames) (k : string) :
  localHas localNames k = true ->
  localHas (checkName desc name localNames).2 k = true.
Proof.
  intros H. unfold checkName. destruct desc; [done|].
  destruct name as [n|]; [|done]. destruct (negb (Js.truthy n)); [done|].
  destruct (localHas localNames n); [done|]. cbn. by apply localHas_localSet.
Qed.

Lemma checkName_claims (desc : list string) (name : option string)
    (localNames : LocalNames) (n : string) :
  claimable desc name n ->
  localHas (checkName desc name localNames).2 n = true.
Proof.
  intros (Hd & -> & Hn). unfold checkName. destruct desc; [done|].
  rewrite Hn. cbn [negb]. destruct (localHas localNames n) eqn:Hl; [done|].
  cbn. by apply localHas_localSet_same.
Qed.

(** X11.  [checkName] grants a name once: after a call that accepted a
    description under a name, every further call with that name is turned
    down, yields no lines and leaves the set of names as it is. *)
Theorem checkName_grants_a_name_once (desc desc' aDesc : list string)
    (n : string) (localNames localNames' : LocalNames) :
  checkName desc (Some n) localNames = (aDesc, true, localNames') ->
  checkName desc' (Some n) localNames' = ([], false, localNames').
Proof.
  unfold checkName. destruct desc; [done|].
  destruct (negb (Js.truthy n)); [done|].
  destruct (localHas localNames n) eqn:Hl; [done|].
  intros [= _ <-]. rewrite (localHas_localSet_same _ _ Hl).
  by destruct desc'.
Qed.

Lemma checkName_grants_a_name_once_witness :
  checkName ["    show(): void"] (Some "show") {[ "show" ]}
  = ([], false, {[ "show" ]}).
Proof.
  apply (checkName_grants_a_name_once ["    show(): void"] ["    show(): void"]
           ["    show(): void"] "show" ∅ {[ "show" ]}).
  vm_compute. reflexivity.
Defined.

Lemma fold_left_claims {A S} (step : S -> A -> S) (names : S -> LocalNames)
    (claim : A -> string -> Prop) :
  (forall s a k, localHas (names s) k = true ->
                 localHas (names (step s a)) k = true) ->
  (forall s a n, claim a n -> localHas (names (step s a)) n = true) ->
  forall l s,
    (forall k, localHas (names s) k = true ->
               localHas (names (fold_left step l s)) k = true)
    /\ (forall a n, a ∈ l -> claim a n ->
                    localHas (names (fold_left step l s)) n = true).
Proof.
  intros Hkeep Hclaim. induction l as [|a l IH]; intros s; cbn.
  - split; [done|]. intros a n Ha. by apply elem_of_nil in Ha.
  - destruct (IH (step s a)) as [IH1 IH2]. split.
    + intros k Hk. by apply IH1, Hkeep.
    + intros a' n Ha' Hc. apply elem_of_cons in Ha' as [->|Ha'].
      * by apply IH1, Hclaim.
      * by apply (IH2 a').
Qed.

(** X12.  The member passes only add to the set of local names, and
    after the pass over the methods of a class (the fields, the properties)
    every method (field, property) that has lines and a non-empty name has
    its name in the set. *)
Theorem member_passes_claim_names (maps : TypeMaps)
    (toNumber : string -> option Z) (this : GirModule) (cls : GirConstruct)
    (localNames : LocalNames) (propertyNames : list string) :
  let methods := (processMethods maps toNumber this cls localNames).1.2 in
  let fields := (processFields maps this cls localNames).1.2 in
  let properties :=
    (processProperties maps this cls localNames propertyNames).1.1.2 in
  (forall k, localHas localNames k = true ->
     localHas methods k = true /\ localHas fields k = true
     /\ localHas properties k = true)
  /\ (forall func n, func ∈ default [] (g_method cls) ->
        (let d := (getFunction maps toNumber this func "    " "" None false
                     false).1 in claimable d.1 d.2 n) ->
        localHas methods n = true)
  /\ (forall f n, f ∈ default [] (g_field cls) ->
        (let d := (getVariable maps this f false false KField).1 in
         claimable d.1 d.2 n) ->
        localHas fields n = true)
  /\ (forall p n, p ∈ default [] (g_property cls) ->
        (let d := (getProperty maps this p false true).1.1 in
         claimable d.1 d.2 n) ->
        localHas properties n = true).
Proof.
  cbv zeta.
  (* methods *)
  pose proof (fold_left_claims
    (fun '(def, localNames, w) func =>
       let '((desc, name), w0) :=
         getFunction maps toNumber this func "    " "" None false false in
       let '(aDesc, _, localNames) := checkName desc name localNames in
       ((def ++ aDesc)%list, localNames, (w ++ w0)%list))
    (fun s : list string * LocalNames * Log => s.1.2)
    (fun func n =>
       let d := (getFunction maps toNumber this func "    " "" None false
                   false).1 in claimable d.1 d.2 n)) as Hm.
  destruct (Hm) with (l := default [] (g_method cls))
                     (s := (@nil string, localNames, @nil string)) as [Hm1 Hm2].
  { intros [[def ln] w] func k Hk.
    destruct (getFunction _ _ _ _ _ _ _ _ _) as [[desc nm] w0].
    pose proof (checkName_keeps desc nm ln k Hk) as H.
    by destruct (checkName desc nm ln) as [[? ?] ?]. }
  { intros [[def ln] w] func n Hc. cbv zeta in Hc.
    destruct (getFunction _ _ _ _ _ _ _ _ _) as [[desc nm] w0].
    pose proof (checkName_claims desc nm ln n Hc) as H.
    by destruct (checkName desc nm ln) as [[? ?] ?]. }
  clear Hm.
  (* fields *)
  pose proof (fold_left_claims
    (fun '(def, localNames, w) f =>
       let '((desc, name), w0) := getVariable maps this f false false KField in
       let '(aDesc, added, localNames) := checkName desc name localNames in
       (if added then push def ("    " ++ Js.show (head aDesc)) else def,
        localNames, (w ++ w0)%list))
    (fun s : list string * LocalNames * Log => s.1.2)
    (fun f n =>
       let d := (getVariable maps this f false false KField).1 in
       claimable d.1 d.2 n)) as Hf.
  destruct (Hf) with (l := default [] (g_field cls))
                     (s := (@nil string, localNames, @nil string)) as [Hf1 Hf2].
  { intros [[def ln] w] f k Hk.
    destruct (getVariable _ _ _ _ _ _) as [[desc nm] w0].
    pose proof (checkName_keeps desc nm ln k Hk) as H.
    by destruct (checkName desc nm ln) as [[? ?] ?]. }
  { intros [[def ln] w] f n Hc. cbv zeta in Hc.
    destruct (getVariable _ _ _ _ _ _) as [[desc nm] w0].
    pose proof (checkName_claims desc nm ln n Hc) as H.
    by destruct (checkName desc nm ln) as [[? ?] ?]. }
  clear Hf.
  (* properties *)
  pose proof (fold_left_claims
    (fun '(def, localNames, propertyNames, w) p =>
       let '(desc, name, origName, w0) := getProperty maps this p false true in
       let '(aDesc, added, localNames) := checkName desc name localNames in
       let propertyNames :=
         match origName with
         | Some o =>
             if added && Js.truthy o then (propertyNames ++ [o])%list
             else propertyNames
         | None => propertyNames
         end in
       ((def ++ aDesc)%list, localNames, propertyNames, (w ++ w0)%list))
    (fun s : list string * LocalNames * list string * Log => s.1.1.2)
    (fun p n =>
       let d := (getProperty maps this p false true).1.1 in
       claimable d.1 d.2 n)) as Hp.
  destruct (Hp) with (l := default [] (g_property cls))
                     (s := (@nil string, localNames, propertyNames, @nil string))
    as [Hp1 Hp2].
  { intros [[[def ln] pn] w] p k Hk.
    destruct (getProperty _ _ _ _ _) as [[[desc nm] orig] w0].
    pose proof (checkName_keeps desc nm ln k Hk) as H.
    by destruct (checkName desc nm ln) as [[? ?] ?]. }
  { intros [[[def ln] pn] w] p n Hc. cbv zeta in Hc.
    destruct (getProperty _ _ _ _ _) as [[[desc nm] orig] w0].
    pose proof (checkName_claims desc nm ln n Hc) as H.
    by destruct (checkName desc nm ln) as [[? ?] ?]. }
  clear Hp.
  unfold processMethods, processFields, processProperties.
  destruct (fold_left _ (default [] (g_method cls)) _) as [[dm lm] wm].
  destruct (fold_left _ (default [] (g_field cls)) _) as [[df lf] wf].
  destruct (fold_left _ (default [] (g_property cls)) _) as [[[dp lp] pp] wp].
  cbn [fst snd] in *.
  assert (Hlp : (match dp with
                 | [] => (dp, lp, pp, wp)
                 | _ :: _ =>
                     (("    /* Properties of " ++ Js.show (g_fullSymName cls)
                       ++ " */") :: dp, lp, pp, wp)
                 end).1.1.2 = lp) by (by destruct dp).
  rewrite Hlp. repeat split; auto.
Qed.

(** ** Namespace emission *)

(** X13.  A constant name is exported once per module: after a call of
    [exportConstant] that produced a declaration, a call for any construct
    that comes out under the same name produces no line and leaves the set
    of exported names as it is. *)
Theorem constant_exported_once (maps : TypeMaps) (this : GirModule)
    (e1 e2 : GirConstruct) (constNames constNames' : gset string)
    (d : list string) (w : Log) :
  exportConstant maps this e1 constNames = (Ok (d, constNames'), w) ->
  d ≠ [] ->
  is_Some (asVariable e2) ->
  constantName maps this e2 = constantName maps this e1 ->
  (exportConstant maps this e2 constNames').1 = Ok ([], constNames').
Proof.
  unfold exportConstant, constantName. intros H1 Hd [v2 Hv2] Hn.
  rewrite Hv2 in Hn |- *.
  destruct (asVariable e1) as [v1|]; [|discriminate].
  unfold logged, bind in *.
  destruct (getVariable maps this v1 false false KConstant) as [[d1 n1] w1].
  destruct (getVariable maps this v2 false false KConstant) as [[d2 n2] w2].
  cbn [fst snd] in *. subst n2.
  destruct n1 as [n|]; [|by injection H1 as <-].
  destruct (Js.truthy n); [|by injection H1 as <-].
  destruct (localHas constNames n) eqn:Hl; cbn [negb] in H1.
  { by injection H1 as <-. }
  injection H1 as <- <- _.
  by rewrite (localHas_localSet_same _ _ Hl).
Qed.

Lemma constant_exported_once_witness :
  (exportConstant sampleMaps gtkModule (attachment "guint") {[ "ATTACHMENT" ]}).1
  = Ok ([], {[ "ATTACHMENT" ]}).
Proof.
  apply (constant_exported_once sampleMaps gtkModule (attachment "gint")
           (attachment "guint") ∅ {[ "ATTACHMENT" ]}
           ["export const ATTACHMENT: number"] []).
  - vm_compute. reflexivity.
  - discriminate.
  - by eexists.
  - reflexivity.
Defined.


Lemma cond_push (c : bool) (x : string) (l : list string) :
  (forall d, d ∈ l -> d ∈ (if c && negb (bool_decide (x ∈ l)) then push l x else l))
  /\ (NoDup l -> NoDup (if c && negb (bool_decide (x ∈ l)) then push l x else l))
  /\ (c = true -> x ∈ (if c && negb (bool_decide (x ∈ l)) then push l x else l)).
Proof.
  unfold push. destruct c; cbn [andb]; [|done].
  destruct (bool_decide (x ∈ l)) eqn:Hx; cbn [negb].
  - apply bool_decide_eq_true_1 in Hx. done.
  - apply bool_decide_eq_false_1 in Hx. split; [|split].
    + intros d Hd. apply elem_of_app. by left.
    + intros Hnd. apply NoDup_app. split; [done|]. split.
      * intros d Hd ->%list_elem_of_singleton. done.
      * apply NoDup_singleton.
    + intros _. apply elem_of_app. right. by apply list_elem_of_singleton.
Qed.

(** X15.  The dependencies [export] imports are the transitive
    dependencies of the module, none dropped, with [GObject-2.0] among them
    for every module but [GObject-2.0] itself; the additions never
    introduce a repetition. *)
Theorem exportDeps_keeps_and_completes (this : GirModule) :
  (forall d, d ∈ transitiveDependencies this -> d ∈ exportDeps this)
  /\ (packageName this ≠ "GObject-2.0" -> "GObject-2.0" ∈ exportDeps this)
  /\ (NoDup (transitiveDependencies this) -> NoDup (exportDeps this)).
Proof.
  unfold exportDeps. cbv zeta.
  set (deps0 := transitiveDependencies this).
  set (c1 := negb (String.eqb (packageName this) "GObject-2.0")).
  destruct (cond_push c1 "GObject-2.0" deps0) as (A1 & B1 & C1).
  set (deps1 := if c1 && _ then _ else _) in *.
  destruct (cond_push (String.eqb (packageName this) "UnityExtras-7.0")
              "Unity-7.0" deps1) as (A2 & B2 & _).
  set (deps2 := if String.eqb (packageName this) "UnityExtras-7.0" && _
                then _ else _) in *.
  destruct (cond_push (String.eqb (packageName this) "UnityExtras-6.0")
              "Unity-6.0" deps2) as (A3 & B3 & _).
  set (deps3 := if String.eqb (packageName this) "UnityExtras-6.0" && _
                then _ else _) in *.
  destruct (cond_push (String.eqb (packageName this) "GTop-2.0")
              "GLib-2.0" deps3) as (A4 & B4 & _).
  split; [|split].
  - intros d Hd. by apply A4, A3, A2, A1.
  - intros Hp. apply A4, A3, A2, C1. unfold c1.
    destruct (String.eqb_spec (packageName this) "GObject-2.0"); done.
  - intros Hnd. by apply B4, B3, B2, B1.
Qed.

(** ** Dependencies and the inheritance table *)

(** X16.  [loadDependencies] lists the includes of a document in
    reverse: the package named by the last [<include>] comes first. *)
Theorem loadDependencies_reverses (girInclude : list Attrs) :
  loadDependencies girInclude = rev (map includeName girInclude).
Proof.
  unfold loadDependencies.
  assert (H : forall l acc,
            fold_left (fun dependencies i => includeName i :: dependencies) l acc
            = (rev (map includeName l) ++ acc)%list).
  { induction l as [|i l IH]; intros acc; [done|].
    cbn. rewrite IH. by rewrite <- app_assoc. }
  by rewrite H, app_nil_r.
Qed.

Lemma foldM_inv {A B} (P : B -> Prop) (f : B -> A -> Exc B) (l : list A) :
  (forall b a b' w, a ∈ l -> P b -> f b a = (Ok b', w) -> P b') ->
  forall b b' w, P b -> foldM f l b = (Ok b', w) -> P b'.
Proof.
  induction l as [|a l IH]; intros Hf b b' w Hb H.
  - by injection H as <- _.
  - cbn [foldM] in H. apply bind_Ok in H as (b1 & w1 & w2 & H1 & H2 & _).
    eapply IH; [|eapply Hf; [by left|exact Hb|exact H1]|exact H2].
    intros b0 a0 b0' w0 Ha0. apply Hf. by right.
Qed.

Lemma indexOfChar_hasDot (s : string) :
  (indexOfChar "." s <? 0)%Z = negb (Js.hasDot s)
  /\ (-1 <= indexOfChar "." s)%Z.
Proof.
  induction s as [|c r [IH1 IH2]]; [done|]. cbn.
  destruct (Ascii.eqb c "."); [done|].
  destruct (indexOfChar "." r <? 0)%Z eqn:Hi.
  - by rewrite <- IH1.
  - rewrite <- IH1. split; [|lia]. apply Z.ltb_ge in Hi. apply Z.ltb_ge. lia.
Qed.

Lemma modulePart_hasDot (s : string) :
  Js.hasDot s = true ->
  Js.hasDot (String.substring 0 (Z.to_nat (indexOfChar "." s + 1)) s) = true.
Proof.
  induction s as [|c r IH]; [done|]. cbn [Js.hasDot indexOfChar].
  destruct (Ascii.eqb c ".") eqn:Hc.
  - intros _. apply Ascii.eqb_eq in Hc as ->. reflexivity.
  - intros Hr. destruct (indexOfChar_hasDot r) as [H1 H2].
    rewrite Hr in H1. cbn [negb] in H1. rewrite H1. apply Z.ltb_ge in H1.
    replace (Z.to_nat (indexOfChar "." r + 1 + 1))
      with (S (Z.to_nat (indexOfChar "." r + 1))) by lia.
    cbn [String.substring Js.hasDot]. rewrite Hc. by apply IH.
Qed.

Lemma hasDot_append (a b : string) :
  Js.hasDot (a ++ b) = Js.hasDot a || Js.hasDot b.
Proof.
  induction a as [|c a IH]; [done|]. rewrite append_cons. cbn.
  by destruct (Ascii.eqb c ".").
Qed.

Lemma tableArray_Ok (method : string) (t : InheritanceTable) (k : string)
    (arr : list string) (w : Log) :
  allQualified t -> tableArray method t k = (Ok arr, w) ->
  forall n, n ∈ arr -> Js.hasDot n = true.
Proof.
  intros Ht. unfold tableArray. destruct (t !! k) as [l|] eqn:Hk.
  - intros [= <- _] n Hn. by eapply Ht.
  - destruct (bool_decide _); [discriminate|].
    intros [= <- _] n Hn. by apply elem_of_nil in Hn.
Qed.

Lemma allQualified_insert (t : InheritanceTable) (k : string) (l : list string) :
  allQualified t -> (forall n, n ∈ l -> Js.hasDot n = true) ->
  allQualified (<[k := l]> t).
Proof.
  intros Ht Hl k' l' n. destruct (decide (k = k')) as [<-|Hk].
  - rewrite lookup_insert_eq. intros [= <-]. apply Hl.
  - rewrite lookup_insert_ne by done. apply Ht.
Qed.

(** X17.  [loadInheritance] enters qualified names only: when the table
    holds none but qualified names and the classes of the module carry
    qualified names themselves, every parent and every interface the call
    lists has a module part. *)
Theorem loadInheritance_lists_qualified_names (this : GirModule)
    (t t' : InheritanceTable) (w : Log) :
  allQualified t -> classesQualified this ->
  loadInheritance this t = (Ok t', w) -> allQualified t'.
Proof.
  intros Ht Hcls H. unfold loadInheritance in H.
  apply bind_Ok in H as (t1 & w1 & w2 & H1 & H2 & _).
  assert (Ht1 : allQualified t1).
  { eapply (foldM_inv allQualified); [|exact Ht|exact H1].
    intros b cls b' w0 _ Hb. unfold loadParent.
    destruct (attrOf (g_attrs cls) "parent") as [parent|]; [|by intros [= <- _]].
    destruct (negb (Js.truthy parent)); [by intros [= <- _]|].
    destruct (negb (Js.truthyOpt _)); [by intros [= <- _]|].
    intros (arr & wa & wb & Ha & [= <- _] & _)%bind_Ok.
    apply allQualified_insert; [done|]. unfold push.
    intros n [Hn|Hn]%elem_of_app; [by eapply tableArray_Ok|].
    apply list_elem_of_singleton in Hn as ->.
    destruct (indexOfChar_hasDot parent) as [-> _].
    destruct (Js.hasDot parent) eqn:Hp; cbn [negb]; [done|].
    apply hasDot_append_dot. }
  eapply (foldM_inv allQualified); [|exact Ht1|exact H2].
  intros b cls b' w0 Hin Hb. unfold loadImplements.
  destruct (Js.truthyOpt (g_fullSymName cls)) eqn:Hfull; cbn [negb];
    [|by intros [= <- _]].
  destruct (0 <? length (implementedNames cls))%nat; [|by intros [= <- _]].
  intros (arr & wa & wb & Ha & [= <- _] & _)%bind_Ok.
  apply allQualified_insert; [done|].
  intros n [Hn|Hn]%elem_of_app; [by eapply tableArray_Ok|].
  unfold implementedNames in Hn.
  apply list_elem_of_omap in Hn as (i & _ & Hi).
  destruct (i !! "name") as [nm|]; [|discriminate].
  destruct (Js.truthy nm); [|discriminate]. injection Hi as <-.
  destruct (indexOfChar_hasDot nm) as [-> _].
  destruct (Js.hasDot nm) eqn:Hnm; cbn [negb]; [done|].
  rewrite hasDot_append. apply orb_true_iff. left.
  apply modulePart_hasDot.
  destruct (g_fullSymName cls) as [f|] eqn:Hf; [|done].
  by apply (Hcls cls f).
Qed.

Lemma loadInheritance_lists_qualified_names_witness :
  allQualified {[ "Gtk.Button" := ["Gtk.Widget"; "Gtk.Buildable"; "Gio.Action"] ]}.
Proof.
  apply (loadInheritance_lists_qualified_names buttonModule ∅
           {[ "Gtk.Button" := ["Gtk.Widget"; "Gtk.Buildable"; "Gio.Action"] ]} []).
  - intros k l n H. by rewrite lookup_empty in H.
  - intros cls f Hc. apply list_elem_of_singleton in Hc as ->.
    intros [= <-] _. reflexivity.
  - vm_compute. reflexivity.
Defined.

(** ** Type resolution *)


(** X19.  With a type-name transform that leaves every name as it is,
    [typeLookupTransformed] returns what [typeLookup] returns: splitting
    the type at its dots and joining the pieces again is the identity. *)
Theorem typeLookupTransformed_identity (maps : TypeMaps) (this : GirModule)
    (girVar : GirVariable) (out : bool) :
  (forall s, transformTypeName (transformation this) s = s) ->
  typeLookupTransformed maps this girVar out = typeLookup maps this girVar out.
Proof.
  intros Hid. unfold typeLookupTransformed.
  destruct (typeLookup maps this girVar out) as [t w]. f_equal.
  rewrite (map_ext _ (fun s => s)) by exact Hid.
  by rewrite map_id, join_split.
Qed.

Lemma typeLookupTransformed_identity_witness :
  typeLookupTransformed sampleMaps resolverModule
    (typeNode ∅ None "Gio.File") false
  = typeLookup sampleMaps resolverModule (typeNode ∅ None "Gio.File") false.
Proof.
  apply (typeLookupTransformed_identity sampleMaps resolverModule
           (typeNode ∅ None "Gio.File") false).
  reflexivity.
Defined.

(** ** Callable signatures *)

Lemma processParams_in_range (parametersArray : list GirVariable)
    (getIndex : GirVariable -> option Z) (skip : list nat) :
  Forall (fun i => i < length parametersArray) skip ->
  Forall (fun i => i < length parametersArray)
    (processParams parametersArray skip getIndex).
Proof.
  unfold processParams. generalize (length parametersArray).
  intros n. revert skip.
  induction parametersArray as [|p ps IH]; intros skip Hs; [done|].
  cbn [fold_left]. apply IH.
  destruct (getIndex p) as [index|]; [|done].
  destruct (index <? 0)%Z eqn:H0; [done|].
  destruct (index >=? Z.of_nat n)%Z eqn:Hn; [done|].
  apply Forall_app. split; [done|]. constructor; [|constructor].
  apply Z.ltb_ge in H0. rewrite Z.geb_leb in Hn. apply Z.leb_gt in Hn. lia.
Qed.

(** X20.  Every position [getParameters] marks to be skipped (the length
    of a returned array, the length of an array parameter, the user data of
    a closure, a destroy notifier) is a position of the parameter array: an
    index outside the array marks nothing. *)
Theorem skipList_in_range (outArrayLengthIndex : option Z)
    (parametersArray : list GirVariable) :
  Forall (fun i => i < length parametersArray)
    (skipList outArrayLengthIndex parametersArray).
Proof.
  unfold skipList. do 3 apply processParams_in_range.
  destruct outArrayLengthIndex as [i|]; [|constructor].
  destruct (i =? -1)%Z; [constructor|].
  destruct ((0 <=? i)%Z && (i <? Z.of_nat (length parametersArray))%Z) eqn:H;
    [|constructor].
  apply andb_true_iff in H as [H1 H2].
  apply Z.leb_le in H1. apply Z.ltb_lt in H2.
  constructor; [lia|constructor].
Qed.

(** ** Static members and constructors *)

(** X21.  No function called [new] is listed among the other static
    functions of a class, and every function listed has a name. *)
Theorem other_static_functions_exclude_new (maps : TypeMaps)
    (toNumber : string -> option Z) (this : GirModule) (girClass : GirConstruct)
    (stat : string) :
  Forall (fun d : FunctionDescription =>
            Js.truthyOpt d.2 = true /\ d.2 ≠ Some "new")
    (getOtherStaticFunctions maps toNumber this girClass stat).1.
Proof.
  unfold getOtherStaticFunctions.
  assert (H : forall funcs (st : list FunctionDescription * Log),
            Forall (fun d : FunctionDescription =>
                      Js.truthyOpt d.2 = true /\ d.2 ≠ Some "new") st.1 ->
            Forall (fun d : FunctionDescription =>
                      Js.truthyOpt d.2 = true /\ d.2 ≠ Some "new")
              (fold_left
                 (fun '(fns, w) func =>
                    let '((desc, funcName), w0) :=
                      getFunction maps toNumber this func ("    " ++ stat) ""
                        None false false in
                    ((if Js.truthyOpt funcName
                         && negb (bool_decide (funcName = Some "new"))
                      then fns ++ [(desc, funcName)] else fns)%list,
                     (w ++ w0)%list))
                 funcs st).1).
  { induction funcs as [|f funcs IH]; intros [fns w] Hst; [done|].
    cbn [fold_left]. apply IH.
    destruct (getFunction _ _ _ _ _ _ _ _ _) as [[desc funcName] w0]. cbn [fst].
    destruct (Js.truthyOpt funcName) eqn:Ht; cbn [andb]; [|done].
    destruct (bool_decide (funcName = Some "new")) eqn:Hn; cbn [negb]; [done|].
    apply Forall_app. split; [done|]. constructor; [|constructor].
    split; [done|]. by apply bool_decide_eq_false_1 in Hn. }
  apply H. constructor.
Qed.

Lemma append_six (a b c d e f x : string) :
  a ++ b ++ c ++ d ++ e ++ f ++ x = (a ++ b ++ c ++ d ++ e ++ f) ++ x.
Proof. by rewrite !append_assoc. Qed.

(** X22.  A constructor is declared with the class as its return type:
    in a module without patches, the line [getConstructorFunction] returns
    for a class with a non-empty name ends with that name, whatever the
    return value and the out parameters of the constructor are. *)
Theorem constructor_returns_the_class (maps : TypeMaps)
    (toNumber : string -> option Z) (this : GirModule) (name : string)
    (e : GirFunction) (prefix funcNamePrefix : string) (desc : list string)
    (funcName : string) (w : Log) :
  patch this = ∅ -> Js.truthy name = true ->
  getConstructorFunction maps toNumber this name e prefix funcNamePrefix
  = ((desc, Some funcName), w) ->
  exists line, desc = [line ++ " " ++ name].
Proof.
  intros Hp Hn. unfold getConstructorFunction, getFunction.
  destruct (f_attrs e) as [a|]; [|discriminate].
  destruct (negb _ || _); [discriminate|].
  assert (Hpatch : patchFor this e = None \/ patchFor this e = Some []).
  { unfold patchFor. rewrite Hp. destruct (f_fullSymName e) as [n|]; [|by right].
    destruct (Js.truthy n); [left; apply lookup_empty|by right]. }
  destruct (getReturnType maps toNumber this e) as [[retType idx] w1].
  destruct (getParameters maps this idx (f_parameters e)) as [[params outs] w2].
  rewrite Hn.
  destruct Hpatch as [-> | ->].
  - destruct (negb (Js.truthyOpt _)); [discriminate|].
    intros [= <- _ _]. eexists. f_equal. apply append_six.
  - destruct (negb (Js.truthyOpt _)); [discriminate|].
    intros [= <- _ _]. eexists. f_equal. apply append_six.
Qed.

Lemma constructor_returns_the_class_witness :
  exists line, ["    static new_with_size(scale: number): Button"]
               = [line ++ " " ++ "Button"].
Proof.
  apply (constructor_returns_the_class sampleMaps decimalNumber gtkModule
           "Button"
           (mkFunction (Some {[ "name" := "new_with_size" ]})
              (Some [mkParameter (Some [intParam {[ "name" := "scale" ]}]) None])
              (Some [intParam ∅]) None)
           "    static " "" ["    static new_with_size(scale: number): Button"]
           "new_with_size" []).
  - reflexivity.
  - reflexivity.
  - vm_compute. reflexivity.
Defined.


(** ** Overload reconciliation *)

Lemma localHas_localSet_always (localNames : LocalNames) (n : string) :
  localHas (localSet localNames n) n = true.
Proof.
  destruct (localHas localNames n) eqn:H.
  - by apply localHas_localSet.
  - by apply localHas_localSet_same.
Qed.

Lemma clash_lines_extend (vfunc : bool) (fName : string)
    (subDefs : list (string * (string * string))) (defs : list string) :
  defs `prefix_of`
    fold_left
      (fun defs '(_, (defn, clsName)) =>
         (defs
          ++ [if vfunc then clashingComment clsName
              else falseOverloadComment clsName fName; defn])%list)
      subDefs defs.
Proof.
  revert defs. induction subDefs as [|[k [defn clsName]] subDefs IH]; intros defs.
  - done.
  - cbn [fold_left]. etrans; [|apply IH]. by apply prefix_app_r.
Qed.

(** X23.  The pass over the inherited methods that are left after the
    direct ones never takes a line or a name back, and when it returns every
    inherited method name is in the set of local names, so that no later
    member of the view can use it. *)
Theorem inherited_names_are_claimed (girClass : GirConstruct) (vfunc : bool)
    (fnMap : FunctionMap) (defs defs' : list string)
    (localNames localNames' : LocalNames) (w : Log) :
  inheritedClashes girClass vfunc fnMap (defs, localNames)
  = (Ok (defs', localNames'), w) ->
  defs `prefix_of` defs'
  /\ (forall k, localHas localNames k = true -> localHas localNames' k = true)
  /\ (forall n, n ∈ map fst fnMap -> localHas localNames' n = true).
Proof.
  revert defs localNames w.
  induction fnMap as [|[fName defns] rest IH]; intros defs localNames w H.
  - injection H as <- <- _. split; [done|]. split; [done|].
    intros n Hn. by apply elem_of_nil in Hn.
  - cbn [inheritedClashes] in H.
    assert (Hnext : forall d w0,
              defs `prefix_of` d ->
              inheritedClashes girClass vfunc rest (d, localSet localNames fName)
              = (Ok (defs', localNames'), w0) ->
              defs `prefix_of` defs'
              /\ (forall k, localHas localNames k = true ->
                            localHas localNames' k = true)
              /\ (forall n, n ∈ map fst ((fName, defns) :: rest) ->
                            localHas localNames' n = true)).
    { intros d w0 Hd Hr. destruct (IH _ _ _ Hr) as (H1 & H2 & H3).
      split; [by etrans|]. split.
      - intros k Hk. by apply H2, localHas_localSet.
      - intros n Hn. cbn in Hn. apply elem_of_cons in Hn as [->|Hn].
        + apply H2, localHas_localSet_always.
        + by apply H3. }
    destruct ((length defns <? 2)%nat && _); [by eapply Hnext|].
    apply bind_Ok in H as (subDefs & w1 & w2 & _ & H & _).
    destruct ((length subDefs <? 2)%nat && _); [by eapply Hnext|].
    eapply Hnext; [|exact H]. apply clash_lines_extend.
Qed.

Lemma inherited_names_are_claimed_witness :
  [] `prefix_of` (@nil string)
  /\ (forall k, localHas ∅ k = true -> localHas {[ "show" ]} k = true)
  /\ (forall n, n ∈ map fst [("show", [("Gtk.Widget", ["    show(): void"])])] ->
        localHas {[ "show" ]} n = true).
Proof.
  apply (inherited_names_are_claimed (gtkClass "Button" "Widget") false
           [("show", [("Gtk.Widget", ["    show(): void"])])] [] []
           ∅ {[ "show" ]} []).
  vm_compute. reflexivity.
Defined.

(** ** Derivation tests *)




(** X25.  [interfaceIsDuplicate] looks at the ancestors only: for a
    class without a parent that resolves, no interface is reported as a
    duplicate, the interfaces of the class itself included. *)
Theorem own_interfaces_are_no_duplicates (this : GirModule) (fuel : nat)
    (cls : GirConstruct) (iface : GirConstruct + string) :
  nextParent this cls = None ->
  (interfaceIsDuplicate this fuel cls iface).1 = Ok false.
Proof.
  intros Hp. unfold interfaceIsDuplicate.
  destruct (match iface with inl i => _ | inr n => Some n end) as [ifaceName|];
    [|done].
  unfold traverseInheritanceTree. rewrite traverse_replay.
  destruct (traverse_fuel_total this (list WalkEvent)
              (fun c t => push t (Visit c)) (fun m t => push t (Warned m))
              (S (S MAXIMUM_RECUSION_DEPTH) - 0) cls 0 true [])
    as [t Ht]; [unfold MAXIMUM_RECUSION_DEPTH; lia|].
  rewrite Ht. cbn [fmap option_fmap option_map mjoin option_join].
  assert (Hvis : length (visits t) <= 1).
  { apply trace_chain in Ht. destruct (getClassDetails this cls).
    - destruct Ht as (rest & -> & Hchain & _).
      destruct rest as [|p rest]; [cbn; lia|].
      destruct Hchain as [Hn _]. congruence.
    - rewrite Ht. cbn. lia. }
  set (cb := fun (sub : GirConstruct) (st : option (bool * bool * Log)) => _).
  set (lw := fun (msg : string) (st : option (bool * bool * Log)) => _).
  assert (Hreplay : forall t0 (b : bool) log,
            length (visits t0) <= (if b then 1 else 0) ->
            exists b' log',
              replay cb lw t0 (Some (false, b, log)) = Some (false, b', log')).
  { clear. induction t0 as [|e t0 IH]; intros b log Hl; [by eexists _, _|].
    destruct e as [c|m].
    - change (visits (Visit c :: t0)) with (c :: visits t0) in Hl.
      cbn [length] in Hl. destruct b; [|lia].
      change (replay cb lw (Visit c :: t0) (Some (false, true, log)))
        with (replay cb lw t0 (Some (false, false, log))).
      apply IH. lia.
    - change (replay cb lw (Warned m :: t0) (Some (false, b, log)))
        with (replay cb lw t0 (Some (false, b, warn log m))).
      by apply IH. }
  destruct (Hreplay t true [] Hvis) as (b' & log' & ->). reflexivity.
Qed.

Lemma own_interfaces_are_no_duplicates_witness :
  (interfaceIsDuplicate overloadModule 3 ifaceI (inr "Gtk.I")).1 = Ok false.
Proof.
  apply (own_interfaces_are_no_duplicates overloadModule 3 ifaceI (inr "Gtk.I")).
  reflexivity.
Defined.

(** ** The module file *)

Lemma exportEach_extends (f : GirConstruct -> Exc (list string))
    (l : option (list GirConstruct)) (out out' : list string) (w : Log) :
  exportEach f l out = (Ok out', w) -> out `prefix_of` out'.
Proof.
  unfold exportEach. intros H.
  eapply (foldM_inv (fun b => out `prefix_of` b)); [|reflexivity|exact H].
  intros b a b' w0 _ Hb (d & w1 & w2 & _ & [= <- _] & _)%bind_Ok.
  etrans; [exact Hb|]. by apply prefix_app_r.
Qed.

(** X26.  In the [types] build a module that is emitted without an error
    is wrapped: its lines hold the opening [declare namespace] line of the
    module and end with the closing brace. *)
Theorem export_wraps_types_build (maps : TypeMaps) (toNumber : string -> option Z)
    (templates : TemplateProcessor) (emitter : Emitter) (this : GirModule)
    (fuel : nat) (out : list string) (w : Log) :
  buildType (config this) = BuildTypes ->
  export maps toNumber templates emitter this fuel = (Ok out, w) ->
  ("declare namespace " ++ name this ++ " {") ∈ out
  /\ List.last out "" = "}".
Proof.
  intros Hb H. unfold export in H. rewrite Hb in H.
  apply bind_Ok in H as (o1 & ? & ? & _ & H & _).
  set (line := "declare namespace " ++ name this ++ " {") in *.
  set (o2 := push (push (push o1 "") line) "") in H.
  assert (H2 : line ∈ o2).
  { unfold o2, push. rewrite !elem_of_app, !list_elem_of_singleton. auto. }
  clearbody o2.
  apply bind_Ok in H as (o3 & ? & ? & H3%exportEach_extends & H & _).
  apply bind_Ok in H as (o4 & ? & ? & H4%exportEach_extends & H & _).
  apply bind_Ok in H as ([o5 cn] & ? & ? & H5 & H & _).
  assert (H5' : o4 `prefix_of` o5).
  { eapply (foldM_inv (fun b : list string * gset string => o4 `prefix_of` b.1))
      in H5; [exact H5| |reflexivity].
    intros [b c] a [b' c'] w0 _ Hbp Hstep. cbn [fst] in *.
    apply bind_Ok in Hstep as ([d c''] & w1 & w2 & _ & [= <- _ _] & _).
    etrans; [exact Hbp|]. by apply prefix_app_r. }
  apply bind_Ok in H as (o6 & ? & ? & H6%exportEach_extends & H & _).
  apply bind_Ok in H as (o7 & ? & ? & H7%exportEach_extends & H & _).
  apply bind_Ok in H as (o8 & ? & ? & H8%exportEach_extends & H & _).
  set (o9 := match templatePatch emitter _ with
             | Some patches => push o8 patches
             | None => o8
             end) in H.
  assert (H9 : o8 `prefix_of` o9).
  { unfold o9, push. destruct (templatePatch emitter _); [|done].
    by apply prefix_app_r. }
  clearbody o9.
  apply bind_Ok in H as (o10 & ? & ? & H10%exportEach_extends & H & _).
  apply bind_Ok in H as (o11 & ? & ? & H11%exportEach_extends & H & _).
  apply bind_Ok in H as (o12 & ? & ? & H12%exportEach_extends & H & _).
  apply bind_Ok in H as (o13 & ? & ? & H13%exportEach_extends & H & _).
  injection H as <- _.
  assert (Hin : line ∈ o13).
  { assert (Hpre : o2 `prefix_of` o13) by (repeat (etrans; [eassumption|]); done).
    destruct Hpre as [k ->]. apply elem_of_app. by left. }
  unfold push. split.
  - apply elem_of_app. left.
    destruct (String.eqb _ _); [apply elem_of_app; by left|done].
  - by rewrite last_last.
Qed.

Lemma export_wraps_types_build_witness :
  ("declare namespace " ++ name typesModule ++ " {")
    ∈ [""; "// WARN: Dependency not found: 'GObject-2.0'"; "";
       "declare namespace Gtk {"; ""; "}"]
  /\ List.last [""; "// WARN: Dependency not found: 'GObject-2.0'"; "";
                "declare namespace Gtk {"; ""; "}"] "" = "}".
Proof.
  apply (export_wraps_types_build sampleMaps decimalNumber noTemplates
           (mkEmitter (fun _ => []) (fun _ _ _ _ => []) (fun s => s)
              (fun _ => false) (fun _ => None))
           typesModule 1
           [""; "// WARN: Dependency not found: 'GObject-2.0'"; "";
            "declare namespace Gtk {"; ""; "}"]
           ["Dependency gir file not found: 'GObject-2.0.gir'"]).
  - reflexivity.
  - vm_compute. reflexivity.
Defined.

(** ** Properties and methods of a view *)

(** X27.  A property is declared under conditions: it is never private,
    never without a name and never hidden from introspection; among the
    instance properties it is not construct-only, and its line opens with
    [readonly] when it is not writable; among the construct properties it
    is writable. *)
Theorem property_line_conditions (maps : TypeMaps) (this : GirModule)
    (v : GirVariable) (construct optional : bool) (desc : list string)
    (propName origName : option string) (w : Log) :
  getProperty maps this v construct optional = (desc, propName, origName, w) ->
  desc ≠ [] ->
  girBool (v_attrs v !! "private") false = false
  /\ girBool (v_attrs v !! "introspectable") true = true
  /\ Js.truthyOpt (v_attrs v !! "name") = true
  /\ (if construct then girBool (v_attrs v !! "writable") false = true
      else girBool (v_attrs v !! "construct-only") false = false
           /\ (girBool (v_attrs v !! "writable") false = false ->
               exists rest, desc = ["    readonly " ++ rest])).
Proof.
  unfold getProperty. intros H Hd.
  destruct (girBool (v_attrs v !! "construct-only") false && negb construct)
    eqn:H1; [injection H as <-; done|].
  destruct (negb (girBool (v_attrs v !! "writable") false) && construct)
    eqn:H2; [injection H as <-; done|].
  destruct (girBool (v_attrs v !! "private") false) eqn:H3;
    [injection H as <-; done|].
  destruct (getVariable maps this v (construct && optional) true KProperty)
    as [[propDesc pn] w0] eqn:Hv.
  destruct (negb (Js.truthyOpt pn)) eqn:H4; [injection H as <-; done|].
  injection H as <- _ _ _.
  unfold getVariable in Hv.
  destruct (v_attrs v !! "name") as [vname|] eqn:Hname;
    [|injection Hv as _ <- _; discriminate].
  destruct (Js.truthy vname) eqn:Hn; cbn [negb] in Hv;
    [|injection Hv as _ <- _; discriminate].
  destruct (girBool (v_attrs v !! "introspectable") true) eqn:Hi;
    cbn [negb orb] in Hv; [|injection Hv as _ <- _; discriminate].
  split; [done|]. split; [done|]. split; [done|].
  destruct construct.
  - rewrite andb_true_r in H2. by apply negb_false_iff in H2.
  - rewrite andb_true_r in H1. split; [done|].
    intros Hw. rewrite Hw. by eexists.
Qed.

Lemma property_line_conditions_witness :
  girBool (({[ "name" := "label" ]} : Attrs) !! "private") false = false
  /\ girBool (({[ "name" := "label" ]} : Attrs) !! "introspectable") true = true
  /\ Js.truthyOpt (({[ "name" := "label" ]} : Attrs) !! "name") = true
  /\ (girBool (({[ "name" := "label" ]} : Attrs) !! "construct-only") false = false
      /\ (girBool (({[ "name" := "label" ]} : Attrs) !! "writable") false = false ->
          exists rest, ["    readonly label: number"] = ["    readonly " ++ rest])).
Proof.
  refine (property_line_conditions sampleMaps gtkModule
            (intParam {[ "name" := "label" ]}) false false
            ["    readonly label: number"] (Some "label") (Some "label") [] _ _).
  - vm_compute. reflexivity.
  - discriminate.
Defined.


